(** * The Power PMAC console plugin (cli/ppmac_plugin.py)

    A shallow embedding of the command handlers of [PpmacCore] and of the
    module-level helpers [get_var_values], [print_var_values] and
    [monitor_variables].  Python objects are modelled as they are used:
    [str] as [string], [None]-or-[str] as [option string], [dict] as [gmap],
    [set] as [gset].  A handler is a computation in a state-and-exception
    monad whose state holds the controller object, the outside world (the
    device, the file system, the collaborating modules) and the list of
    everything the handler did, in order. *)

From Stdlib Require Import ZArith QArith Ascii.
From Stdlib Require String.
From stdpp Require Import base gmap strings list sorting pretty.

Local Open Scope Z_scope.
Local Open Scope stdpp_scope.

(** ** Python strings *)

Module PyStr.

(** [c in s] for a one-character [c]. *)
Fixpoint contains (c : ascii) (s : string) : bool :=
  match s with
  | EmptyString => false
  | String d s' => if Ascii.eqb d c then true else contains c s'
  end.

(** [s.split(sep)] for a one-character separator: never empty. *)
Fixpoint split (sep : ascii) (s : string) : list string :=
  match s with
  | EmptyString => [EmptyString]
  | String c s' =>
      if Ascii.eqb c sep then EmptyString :: split sep s'
      else match split sep s' with
           | [] => [String c EmptyString]
           | w :: ws => String c w :: ws
           end
  end.

(** [l[-1]]: [None] stands for IndexError. *)
Definition last_item {A} (l : list A) : option A := last l.

(** [s.endswith(suffix)]. *)
Fixpoint endswith (s suffix : string) : bool :=
  if String.eqb s suffix then true
  else match s with
       | EmptyString => false
       | String _ s' => endswith s' suffix
       end.

(** [s.startswith(prefix)]. *)
Definition startswith (s prefix : string) : bool := String.prefix prefix s.

(** [sep.join(l)]. *)
Fixpoint join (sep : string) (l : list string) : string :=
  match l with
  | [] => EmptyString
  | [x] => x
  | x :: rest => x +:+ sep +:+ join sep rest
  end.

(** [sub in s] for strings. *)
Fixpoint has_substring (sub s : string) : bool :=
  if String.prefix sub s then true
  else match s with
       | EmptyString => false
       | String _ s' => has_substring sub s'
       end.

Definition lower_char (c : ascii) : ascii :=
  let n := nat_of_ascii c in
  if (Nat.leb 65 n && Nat.leb n 90)%bool then ascii_of_nat (n + 32) else c.

(** [s.lower()]. *)
Fixpoint lower (s : string) : string :=
  match s with
  | EmptyString => EmptyString
  | String c s' => String (lower_char c) (lower s')
  end.

Definition is_space (c : ascii) : bool :=
  let n := nat_of_ascii c in
  (Nat.eqb n 32 || (Nat.leb 9 n && Nat.leb n 13))%bool.

(** [s.rstrip()]. *)
Fixpoint rstrip (s : string) : string :=
  match s with
  | EmptyString => EmptyString
  | String c s' =>
      match rstrip s' with
      | EmptyString => if is_space c then EmptyString else String c EmptyString
      | t => String c t
      end
  end.

(** ['%Ns' % s]: right-justified in a field of [width] characters. *)
Definition rjust (width : nat) (s : string) : string :=
  String.string_of_list_ascii (replicate (width - String.length s) " "%char) +:+ s.

(** ['%-Ns' % s]: left-justified in a field of [width] characters. *)
Definition ljust (width : nat) (s : string) : string :=
  s +:+ String.string_of_list_ascii (replicate (width - String.length s) " "%char).

End PyStr.

(** A Python value that is either [None] or a [str]: what [get_var_values]
    keeps per variable. *)
Abbreviation pyvalue := (option string).

(** Floats are carried around, compared and formatted, never inspected:
    they are idealised as rationals. *)
Abbreviation pyfloat := Q.

(** ** Exceptions and results *)

Inductive exn : Type :=
| GPError (msg : string)
| TimeoutError (msg : string)
| KeyError (msg : string)
| KeyboardInterrupt
| TypeError (msg : string)
| ValueError (msg : string)
| UnboundLocalError (msg : string)
| AttributeError (msg : string)
| IndexError (msg : string)
| OtherError (cls msg : string).

(** [ex.__class__.__name__]. *)
Definition exn_cls (e : exn) : string :=
  match e with
  | GPError _ => "GPError"
  | TimeoutError _ => "TimeoutError"
  | KeyError _ => "KeyError"
  | KeyboardInterrupt => "KeyboardInterrupt"
  | TypeError _ => "TypeError"
  | ValueError _ => "ValueError"
  | UnboundLocalError _ => "UnboundLocalError"
  | AttributeError _ => "AttributeError"
  | IndexError _ => "IndexError"
  | OtherError cls _ => cls
  end.

Definition is_GPError (e : exn) : bool :=
  match e with GPError _ => true | _ => false end.
Definition is_TimeoutError (e : exn) : bool :=
  match e with TimeoutError _ => true | _ => false end.
Definition is_KeyError (e : exn) : bool :=
  match e with KeyError _ => true | _ => false end.
Definition is_KeyboardInterrupt (e : exn) : bool :=
  match e with KeyboardInterrupt => true | _ => false end.
(** [except Exception]: everything but KeyboardInterrupt. *)
Definition is_Exception (e : exn) : bool := negb (is_KeyboardInterrupt e).

Inductive result (A : Type) : Type :=
| Ret (a : A)
| Raise (e : exn).
Arguments Ret {A} a.
Arguments Raise {A} e.

(** ** Handles of the collaborating modules *)

(** A [PPComm] object is identified by the arguments it was built from. *)
Record PPComm := mkPPComm {
  pp_host : string;
  pp_port : Z;
  pp_user : string;
  pp_password : string;
}.

(** [comm.gpascii] (the connection's own channel) or a channel opened by
    [comm.gpascii_channel()]. *)
Inductive Gpascii : Type :=
| comm_gpascii (c : PPComm)
| channel (c : PPComm) (id : nat).

(** A completer object; [completer_bool] is its truth value in [if c:]. *)
Record Completer := mkCompleter {
  completer_id : nat;
  completer_bool : bool;
}.

(** What [completer.check(addr)] returns: [node_str] is [str(obj)],
    [node_dir] is [dir(obj)]. *)
Record CompleterNode := mkNode {
  node_str : string;
  node_dir : list string;
  node_is_node : bool;
  node_name : string;
  node_comments : option string;
}.

(** Rows of gathered samples, one list of printable items per line. *)
Abbreviation gather_data := (list (list string)).

(** A Python value passed on as it is: an argument of [set_variable], an
    attribute of a parsed argument object, a keyword argument. *)
Inductive pyarg : Type :=
| ANone
| ABool (b : bool)
| AStr (s : string)
| AInt (n : Z)
| AFloat (x : pyfloat)
| AStrList (l : list string)
| AFloatList (l : list pyfloat).

(** An attribute of an object: [Unset] until first assigned (reading it
    raises AttributeError). *)
Inductive attr (A : Type) : Type :=
| Unset
| Assigned (a : A).
Arguments Unset {A}.
Arguments Assigned {A} a.

(** ** The controller object *)

Module self.

(** The traits of [PpmacCore] and its two handles.  [__init__] assigns
    [completer] only when [use_completer_db] is set. *)
Record PpmacCore := mk {
  ide_host : string;
  host : string;
  port : Z;
  user : string;
  password : string;
  auto_connect : bool;
  gather_config_file : string;
  gather_output_file : string;
  default_servo_period : pyfloat;
  use_completer_db : bool;
  completer_db_file : string;
  comm : option PPComm;
  completer : attr (option Completer);
}.

Definition with_comm (me : PpmacCore) (c : option PPComm) : PpmacCore :=
  mk (ide_host me) (host me) (port me) (user me) (password me)
     (auto_connect me) (gather_config_file me) (gather_output_file me)
     (default_servo_period me) (use_completer_db me) (completer_db_file me)
     c (completer me).

Definition with_completer (me : PpmacCore) (c : option Completer) : PpmacCore :=
  mk (ide_host me) (host me) (port me) (user me) (password me)
     (auto_connect me) (gather_config_file me) (gather_output_file me)
     (default_servo_period me) (use_completer_db me) (completer_db_file me)
     (comm me) (Assigned c).

End self.

(** ** Requests to the collaborating modules

    One constructor per call that leaves this file, indexed by the type of
    what the call returns. *)
Inductive ext : Type → Type :=
(* pp_comm *)
| PPComm_init (host : string) (port : Z) (user password : string) : ext unit
| gpascii_channel (c : PPComm) : ext Gpascii
| send_line (g : Gpascii) (line : string) : ext unit
| read_timeout (g : Gpascii) (timeout : pyfloat) : ext (list string * option exn)
| get_variable (g : Gpascii) (var : string) : ext string
| get_variable_float (g : Gpascii) (var : string) : ext pyfloat
| get_variable_int (g : Gpascii) (var : string) : ext Z
| set_variable (g : Gpascii) (var : string) (value : pyarg) : ext string
| program (g : Gpascii) (coord prog : Z) (start stop : bool) : ext unit
| shell_command (c : PPComm) (command : string) (verbose : bool) : ext (list string)
| comm_send_line (c : PPComm) (line : string) : ext unit
| read_file (c : PPComm) (filename : string) : ext (list string)
| send_file (c : PPComm) (filename text : string) : ext unit
| remove_file (c : PPComm) (filename : string) : ext unit
(* ppmac_gather *)
| gather_and_plot (c : PPComm) (addr : list string) (duration : pyfloat) (period : Z) : ext unit
| read_settings_file (c : option PPComm) (settings_file : option string)
    : ext (gmap string (list string))
| gather_get_gather_results (c : option PPComm) (addresses : list string) : ext gather_data
| gather_data_to_file (save_to : string) (addresses : list string) (data : gather_data)
    (delim : string) : ext unit
(* ppmac_completer *)
| start_completer_from_db (db_file : string) (g : option Gpascii) : ext (option Completer)
| start_completer_from_mysql (windows_ip ppmac_ip db_file : string) (g : option Gpascii)
    : ext (option Completer)
| completer_check (c : Completer) (addr : string) : ext CompleterNode
| node_search (node : CompleterNode) (text : string) : ext (list (string * list pyvalue))
(* ppmac_tune *)
| tune_tune_range (g : Gpascii) (fn range_var : string) (range_values : list pyfloat)
    (kwargs : list (string * pyarg)) : ext (option pyfloat * list pyfloat)
| tune_custom_tune (c : PPComm) (fn : string) (kwargs : list (string * pyarg)) : ext unit
| tune_other_trajectory (move_type motor : Z) (distance velocity accel dwell : pyfloat)
    (reps : Z) (one_direction kill : bool) : ext string
| run_tune_program (c : PPComm) (cmd : string) : ext (list string * gather_data)
| plot_tune_results (addrs : list string) (data : gather_data) : ext unit
| tune_get_settings (g : Gpascii) (motor : Z) (completer : option Completer)
    : ext (list (CompleterNode * string))
| copy_settings (g : Gpascii) (motor_from motor_to : Z) (completer : option Completer)
    : ext unit
| tune_get_columns (addresses : list string) (data : gather_data) (names : list string)
    : ext (list (list pyfloat))
| plot_custom (addresses : list string) (data : gather_data)
    (left_scale right_scale : pyfloat) (x_index : Z)
    (left_indices right_indices : list Z) (left_label right_label : string) : ext unit
(* ppmac_util *)
| tracking_filter (cutoff damping servo_period : pyfloat) : ext (pyarg * pyarg)
(* os, numpy, matplotlib, time *)
| os_path_exists (path : string) : ext bool
| os_unlink (path : string) : ext unit
| open_read (path : string) : ext string
| np_arange (low high step : pyfloat) : ext (list pyfloat)
| plt_plot (title : string) (series : list (list pyfloat)) : ext unit
| plt_vlines (x : pyfloat) (range : list pyfloat) : ext unit
| plt_show : ext unit
| time_sleep (seconds : pyfloat) : ext unit.

(** Everything a handler does that can be observed from outside. *)
Inductive event : Type :=
| Print (line : string)
| PrintNoNewline (text : string)
| Flush
| LogError (msg : string)
| LogException (e : exn)
| LogInfo (msg : string)
| UserNs (name : string) (c : Completer)
| PrintSettings (label : string) (settings : gmap string (list string))
| Ext {T : Type} (q : ext T).

(** A request that goes through the connection handle to the device: get,
    set, shell and file requests, and the gather and tune helpers that are
    handed the connection or one of its channels.  Building the connection
    and opening a channel on it are not requests. *)
Definition is_request (ev : event) : bool :=
  match ev with
  | Ext q =>
      match q with
      | send_line _ _ | read_timeout _ _ | get_variable _ _
      | get_variable_float _ _ | get_variable_int _ _ | set_variable _ _ _
      | program _ _ _ _ _ | shell_command _ _ _ | comm_send_line _ _
      | read_file _ _ | send_file _ _ _ | remove_file _ _
      | gather_and_plot _ _ _ _ | read_settings_file _ _
      | gather_get_gather_results _ _ | tune_tune_range _ _ _ _ _
      | tune_custom_tune _ _ _ | run_tune_program _ _
      | tune_get_settings _ _ _ | copy_settings _ _ _ _ => true
      | _ => false
      end
  | _ => false
  end.

(** ** The environment

    The outside world answers every request; its answers are not fixed by
    this file.  The tables of [ppmac_const], the built-in [int] and the
    number formats are parameters as well. *)
Class Env := {
  World : Type;
  (** the answer to a request and the world after it *)
  oracle : ∀ T, ext T → World → result T * World;
  (** [int(s)] on a string: [None] stands for ValueError *)
  py_int : string → option Z;
  (** ['%.3g' % x] and [str(x)] on floats *)
  fmt_g3 : pyfloat → string;
  str_float : pyfloat → string;
  (** [ppmac_const.motor_status], [motor_normal], [coord_status],
      [coord_normal], [coord_errors] *)
  motor_status : list string;
  motor_normal : gmap string Z;
  coord_status : list string;
  coord_normal : gmap string Z;
  coord_errors : gmap Z (string * string);
  (** [ppmac_gather.gather_config_file], [MODULE_PATH], [os.path.join],
      [os.path.split(fn)[-1]] *)
  gather_module_config_file : string;
  MODULE_PATH : string;
  os_path_join : string → string → string;
  os_path_basename : string → string;
  (** [template % dict(...)] *)
  percent_format : string → list (string * string) → string;
  (** [repr(s)] on a string *)
  py_repr : string → string;
}.

(** [str(ex)] as used by ['%s' % ex] and [print(ex)]: the argument the
    exception was built from, except for KeyError, whose [str] is the
    [repr] of its argument. *)
Definition exn_str `{Env} (e : exn) : string :=
  match e with
  | GPError m | TimeoutError m | TypeError m | ValueError m
  | UnboundLocalError m | AttributeError m | IndexError m | OtherError _ m => m
  | KeyError m => py_repr m
  | KeyboardInterrupt => EmptyString
  end.

(** ** Parsed arguments

    What [parse_argstring] returns for each command, one record per
    command.  A handler receives [None] where the parsed object is falsy. *)

Record connect_args := mk_connect_args {
  connect_host : option string;
  connect_port : option Z;
  connect_user : option string;
  connect_password : option string;
}.

Record gpascii_args := mk_gpascii_args {
  gpascii_cmd : list string;
  gpascii_timeout : pyfloat;
}.

Record get_var_args := mk_get_var_args {
  get_var_variable : string;
}.

Record set_var_args := mk_set_var_args {
  set_var_variable : string;
  set_var_value : string;
}.

Record v_args := mk_v_args {
  v_variable : string;
  v_value : option string;
}.

Record motors_args := mk_motors_args {
  motors_first_motor : Z;
  motors_nmotors : Z;
}.

Record gather_args := mk_gather_args {
  gather_duration : pyfloat;
  gather_period : Z;
  gather_addresses : list string;
}.

Record gather_save_args := mk_gather_save_args {
  gather_save_save_to : option string;
  gather_save_settings_file : option string;
  gather_save_delimiter : option string;
}.

Record ramp_args := mk_ramp_args {
  ramp_motor1 : Z;
  ramp_distance : pyfloat;
  ramp_velocity : pyfloat;
  ramp_iterations : Z;
  ramp_kill_after : bool;
  ramp_accel : pyfloat;
  ramp_dwell : pyfloat;
  ramp_gather : option (list string);
}.

Record tune_range_args := mk_tune_range_args {
  tune_range_script : string;
  tune_range_motor1 : Z;
  tune_range_distance : pyfloat;
  tune_range_velocity : pyfloat;
  tune_range_iterations : Z;
  tune_range_kill_after : bool;
  tune_range_accel : pyfloat;
  tune_range_dwell : pyfloat;
  tune_range_variable : string;
  tune_range_values : option (list pyfloat);
  tune_range_low : option pyfloat;
  tune_range_high : option pyfloat;
  tune_range_step : option pyfloat;
}.

Record gather_config_args := mk_gather_config_args {
  gather_config_filename : option string;
}.

Record tune_plot_args := mk_tune_plot_args {
  tune_plot_motor : Z;
  tune_plot_settings_file : option string;
}.

Record gather_plot_args := mk_gather_plot_args {
  gather_plot_all : bool;
  gather_plot_x_axis : option string;
  gather_plot_left : option (list string);
  gather_plot_right : option (list string);
  gather_plot_settings_file : option string;
  gather_plot_delimiter : option string;
  gather_plot_left_scale : pyfloat;
  gather_plot_right_scale : pyfloat;
}.

Record move_args := mk_move_args {
  move_motor : Z;
  move_distance : pyfloat;
  move_velocity : pyfloat;
  move_reps : Z;
  move_no_kill : bool;
  move_one_direction : bool;
  move_accel : pyfloat;
  move_dwell : pyfloat;
}.

Record servo_args := mk_servo_args {
  servo_motor : Z;
  servo_text : list string;
}.

Record servo_copy_args := mk_servo_copy_args {
  servo_copy_motor_from : Z;
  servo_copy_motor_to : Z;
}.

Record search_args := mk_search_args {
  search_variable : string;
  search_text : string;
}.

Record enc_filter_args := mk_enc_filter_args {
  enc_filter_num : Z;
  enc_filter_cutoff : pyfloat;
  enc_filter_damping : pyfloat;
}.

Record wpkey_args := mk_wpkey_args {
  wpkey_disable : bool;
}.

Record util_build_args := mk_util_build_args {
  util_build_name : string;
  util_build_source_files : list string;
  util_build_dest : string;
  util_build_run : list string;
}.

Record userphase_args := mk_userphase_args {
  userphase_module : string;
  userphase_name : string;
  userphase_motors : list Z;
  userphase_unload : bool;
}.

Record prog_run_args := mk_prog_run_args {
  prog_run_coord : Z;
  prog_run_program : Z;
  prog_run_variables : list string;
}.

Record prog_send_args := mk_prog_send_args {
  prog_send_script : string;
  prog_send_motors : list string;
  prog_send_coord : Z;
  prog_send_program : Z;
  prog_send_run : bool;
  prog_send_gather : bool;
}.

Record monitor_args := mk_monitor_args {
  monitor_variables_arg : list string;
}.

Record monitorc_args := mk_monitorc_args {
  monitorc_base : string;
  monitorc_ignore : list string;
}.

(** The arguments of [mstatus] ([status_number] is [args.motor]) and of
    [cstatus] ([status_number] is [args.coord]). *)
Record status_args := mk_status_args {
  status_number : Z;
  status_additional : option (list string);
  status_ignore : option (list string);
  status_all : bool;
  status_monitor : bool;
}.

(** ** The monad of handlers *)

Section Model.
Context `{Env}.

(** [this] is the one [PpmacCore] instance, [out] the events so far (oldest
    first), [status_last_values] the dictionary [last_values] that the
    [got_value] closure of the running [mstatus] or [cstatus] owns. *)
Record State := mkState {
  world : World;
  this : self.PpmacCore;
  out : list event;
  status_last_values : gmap string pyvalue;
}.

Definition M (A : Type) : Type := State → result A * State.

#[export] Instance M_ret : MRet M := λ A a s, (Ret a, s).

#[export] Instance M_bind : MBind M := λ A B f m s,
  match m s with
  | (Ret a, s') => f a s'
  | (Raise e, s') => (Raise e, s')
  end.

Definition raise {A} (e : exn) : M A := λ s, (Raise e, s).

Definition get_self : M self.PpmacCore := λ s, (Ret (this s), s).

Definition put_self (me : self.PpmacCore) : M unit := λ s,
  (Ret (), mkState (world s) me (out s) (status_last_values s)).

Definition emit (ev : event) : M unit := λ s,
  (Ret (), mkState (world s) (this s) (out s ++ [ev]) (status_last_values s)).

Definition get_last_values : M (gmap string pyvalue) := λ s, (Ret (status_last_values s), s).

Definition put_last_values (d : gmap string pyvalue) : M unit := λ s,
  (Ret (), mkState (world s) (this s) (out s) d).

(** A call that leaves this file: recorded, then answered by the world. *)
Definition call {T} (q : ext T) : M T := λ s,
  let '(r, w) := oracle T q (world s) in
  (r, mkState w (this s) (out s ++ [Ext q]) (status_last_values s)).

Definition print (line : string) : M unit := emit (Print line).

(** [try: body / except <classes>: handler / else: orelse].  [handler e] is
    [None] when no except clause matches [e]; the else block runs outside
    the protection of the except clauses. *)
Definition try_else {A B} (body : M A) (handler : exn → option (M B))
    (orelse : A → M B) : M B := λ s,
  match body s with
  | (Ret a, s') => orelse a s'
  | (Raise e, s') =>
      match handler e with
      | Some h => h s'
      | None => (Raise e, s')
      end
  end.

(** [try: body / except <classes>: handler]. *)
Definition try_except {A} (body : M A) (handler : exn → option (M A)) : M A :=
  try_else body handler mret.

(** [for x in l: body x]. *)
Fixpoint for_each {A} (l : list A) (body : A → M unit) : M unit :=
  match l with
  | [] => mret ()
  | x :: rest => body x;; for_each rest body
  end.

(** [[f x for x in l]]. *)
Fixpoint comprehension {A B} (l : list A) (f : A → M B) : M (list B) :=
  match l with
  | [] => mret []
  | x :: rest => y ← f x; ys ← comprehension rest f; mret (y :: ys)
  end.

(** Reading [self.comm] where the code goes on to use it: a [None] there
    has no attribute to offer. *)
Definition the_comm : M PPComm :=
  me ← get_self;
  match self.comm me with
  | Some c => mret c
  | None => raise (AttributeError "'NoneType' object has no attribute")
  end.

(** Reading [self.completer]. *)
Definition the_completer : M (option Completer) :=
  me ← get_self;
  match self.completer me with
  | Assigned c => mret c
  | Unset => raise (AttributeError "'PpmacCore' object has no attribute 'completer'")
  end.

Definition set_comm (c : option PPComm) : M unit :=
  me ← get_self; put_self (self.with_comm me c).

Definition set_completer (c : option Completer) : M unit :=
  me ← get_self; put_self (self.with_completer me c).

(** ** Connecting *)

Definition open_completer_db : M unit :=
  me ← get_self;
  let db_file := self.completer_db_file me in
  gpascii ← match self.comm me with
            | Some c => g ← call (gpascii_channel c); mret (Some g)
            | None => mret None
            end;
  exists_ ← call (os_path_exists db_file);
  loaded ←
    (if exists_ : bool then
       try_except
         (c ← call (start_completer_from_db db_file gpascii); mret (Some c))
         (λ ex, if is_Exception ex then Some (
            print ("Unable to load current db file: " +:+ db_file +:+ " (" +:+
                   exn_cls ex +:+ ") " +:+ exn_str ex);;
            print "Remove it to try loading from the IDE machine's MySql";;
            mret None) else None)
     else mret (Some None));
  match loaded with
  | None => mret ()
  | Some c =>
      c ← match c with
          | Some _ => mret c
          | None =>
              exists_ ← call (os_path_exists db_file);
              (if exists_ : bool then call (os_unlink db_file) else mret ());;
              me ← get_self;
              let windows_ip := self.ide_host me in
              let ppmac_ip := self.host me in
              call (start_completer_from_mysql windows_ip ppmac_ip db_file gpascii)
          end;
      match c with
      | Some c' =>
          set_completer (Some c');;
          emit (UserNs "ppmac" c');;
          print "Completer loaded into namespace. Try ppmac.[tab]"
      | None => mret ()
      end
  end.

(** [__init__], after the traits are in place. *)
Definition init : M unit :=
  emit (LogInfo "Initializing PpmacCore plugin");;
  set_comm None;;
  me ← get_self;
  if self.use_completer_db me then
    set_completer None;;
    open_completer_db
  else mret ().

Definition connect (host : option string) (port : option Z)
    (user password : option string) : M unit :=
  me ← get_self;
  let host := match host with None => self.host me | Some h => h end in
  let port := match port with None => self.port me | Some p => p end in
  let user := match user with None => self.user me | Some u => u end in
  let password := match password with None => self.password me | Some p => p end in
  call (PPComm_init host port user password);;
  set_comm (Some (mkPPComm host port user password));;
  me ← get_self;
  if self.use_completer_db me then
    set_completer None;;
    open_completer_db
  else mret ().

Definition check_comm : M bool :=
  me ← get_self;
  (match self.comm me with
   | None =>
       if self.auto_connect me then connect None None None None
       else emit (LogError "Not connected")
   | Some _ => mret ()
   end);;
  me ← get_self;
  mret (bool_decide (self.comm me ≠ None)).

(** ** Reading variables *)

(** A callback may keep state of its own ([got_value] does), so it is a
    computation like everything else. *)
Definition callback : Type := string → string → M pyvalue.

(** One turn of the loop of [get_var_values]: [ret] is the list so far. *)
Definition get_var_values_step (comm : PPComm) (cb : option callback)
    (ret : list pyvalue) (var : string) : M (list pyvalue) :=
  try_else (call (get_variable (comm_gpascii comm) var))
    (λ ex, if is_GPError ex || is_TimeoutError ex
           then Some (mret (ret ++ [Some ("Error: " +:+ exn_str ex)]))
           else None)
    (λ value,
       value ← match cb with
               | Some cb =>
                   try_except (cb var value) (λ _, Some (mret (Some value)))
               | None => mret (Some value)
               end;
       mret (ret ++ [value])).

Fixpoint get_var_values_from (comm : PPComm) (cb : option callback)
    (ret : list pyvalue) (vars_ : list string) : M (list pyvalue) :=
  match vars_ with
  | [] => mret ret
  | var :: rest =>
      ret ← get_var_values_step comm cb ret var;
      get_var_values_from comm cb ret rest
  end.

Definition get_var_values (comm : PPComm) (vars_ : list string)
    (cb : option callback) : M (list pyvalue) :=
  get_var_values_from comm cb [] vars_.

(** ['%s = %s' % (var, value)]. *)
Definition fmt_assign (var : string) (value : pyvalue) : string :=
  var +:+ " = " +:+ match value with Some x => x | None => "None" end.

(** [zip(l1, l2)]. *)
Definition zip2 {A B} (l1 : list A) (l2 : list B) : list (A * B) := zip l1 l2.

(** [zip(l1, l2, l3)]. *)
Definition zip3 {A B C} (l1 : list A) (l2 : list B) (l3 : list C)
    : list (A * B * C) := zip (zip l1 l2) l3.

Definition print_var_values (comm : PPComm) (vars : list string)
    (cb : option callback) : M (list pyvalue) :=
  values ← get_var_values comm vars cb;
  for_each (zip2 vars values) (λ '(var, value),
    match value with
    | Some _ => print (fmt_assign var value)
    | None => mret ()
    end);;
  mret values.

Definition print_if_not_None (var : string) (value : pyvalue) : M unit :=
  match value with
  | Some _ => print (fmt_assign var value)
  | None => mret ()
  end.

(** The body of the polling loop's [for var, old_value, new_value in zip(...)]. *)
Fixpoint monitor_compare (triples : list (string * pyvalue * pyvalue))
    (change_set : gset string) : M (gset string) :=
  match triples with
  | [] => mret change_set
  | (var, old_value, new_value) :: rest =>
      match new_value with
      | None => monitor_compare rest change_set
      | Some _ =>
          if bool_decide (old_value ≠ new_value) then
            print (fmt_assign var new_value);;
            monitor_compare rest ({[var]} ∪ change_set)
          else monitor_compare rest change_set
      end
  end.

(** [while True:] under [try: ... except KeyboardInterrupt:].  The loop ends
    when KeyboardInterrupt reaches it: raised by a read, or arriving at the
    loop head after [fuel] full turns.  The value is the change set as the
    except clause finds it; any other exception leaves the function. *)
Fixpoint monitor_loop (fuel : nat) (comm : PPComm) (variables : list string)
    (change_callback : option callback) (last_values : list pyvalue)
    (change_set : gset string) : M (gset string) :=
  match fuel with
  | O => mret change_set
  | S fuel =>
      try_else (get_var_values comm variables change_callback)
        (λ ex, if is_KeyboardInterrupt ex then Some (mret change_set) else None)
        (λ values,
           change_set ← monitor_compare (zip3 variables last_values values) change_set;
           monitor_loop fuel comm variables change_callback values change_set)
  end.

(** [sorted(change_set)]. *)
Definition sorted (change_set : gset string) : list string :=
  merge_sort (λ a b, Is_true (String.leb a b)) (elements change_set).

Definition monitor_variables (fuel : nat) (variables : list string)
    (comm : option PPComm) (change_callback : option callback)
    (show_change_set show_initial : bool) : M unit :=
  comm ← match comm with
         | Some c => mret c
         | None =>
             me ← get_self;
             match self.comm me with
             | Some c => mret c
             | None => raise (ValueError "PpmacCore comm not connected")
             end
         end;
  last_values ← get_var_values comm variables change_callback;
  (if show_initial then
     for_each (zip2 variables last_values) (λ '(var, value), print_if_not_None var value)
   else mret ());;
  change_set ← monitor_loop fuel comm variables change_callback last_values ∅;
  if show_change_set && negb (bool_decide (change_set = ∅)) then
    print "Variables changed:";;
    for_each (sorted change_set) print
  else mret ().

Definition print_variables (variables : list string) (comm : option PPComm)
    (value_callback : option callback) : M unit :=
  comm ← match comm with
         | Some c => mret c
         | None =>
             me ← get_self;
             match self.comm me with
             | Some c => mret c
             | None => raise (ValueError "PpmacCore comm not connected")
             end
         end;
  values ← get_var_values comm variables value_callback;
  for_each (zip2 variables values) (λ '(var, value), print (fmt_assign var value)).


(** ** Command handlers *)

Definition _connect (args : option connect_args) : M unit :=
  match args with
  | None => mret ()
  | Some args =>
      connect (connect_host args) (connect_port args) (connect_user args)
        (connect_password args)
  end.

Definition gpascii (args : option gpascii_args) : M unit :=
  ok ← check_comm;
  if negb ok then mret () else
  match args with
  | None => mret ()
  | Some args =>
      comm ← the_comm;
      gpascii ← call (gpascii_channel comm);
      let line := PyStr.join " " (gpascii_cmd args) in
      call (send_line gpascii line);;
      try_except
        ('(lines, stop) ← call (read_timeout gpascii (gpascii_timeout args));
         for_each lines (λ line,
           if bool_decide (line ≠ EmptyString) then print line else mret ());;
         match stop with
         | Some ex => raise ex
         | None => mret ()
         end)
        (λ ex, if is_KeyboardInterrupt ex || is_TimeoutError ex
               then Some (mret ()) else None)
  end.

Definition g := @gpascii.

Definition get_var (args : option get_var_args) : M unit :=
  ok ← check_comm;
  if negb ok then mret () else
  match args with
  | None => mret ()
  | Some args =>
      try_except
        (comm ← the_comm;
         value ← call (get_variable (comm_gpascii comm) (get_var_variable args));
         print (get_var_variable args +:+ "=" +:+ value))
        (λ ex, if is_GPError ex then Some (print (exn_str ex)) else None)
  end.

Definition set_var (args : option set_var_args) : M unit :=
  ok ← check_comm;
  if negb ok then mret () else
  match args with
  | None => mret ()
  | Some args =>
      try_except
        (comm ← the_comm;
         set_result ← call (set_variable (comm_gpascii comm) (set_var_variable args)
                              (AStr (set_var_value args)));
         print (set_var_variable args +:+ "=" +:+ set_result))
        (λ ex, if is_GPError ex then Some (print (exn_str ex)) else None)
  end.

(** [var, value = args.variable.split('=')[:2]] or
    [var, value = args.variable, args.value]. *)
Definition v_var_value (args : v_args) : M (string * option string) :=
  if PyStr.contains "=" (v_variable args) then
    match take 2 (PyStr.split "=" (v_variable args)) with
    | [var; value] => mret (var, Some value)
    | _ => raise (ValueError "need more than 1 value to unpack")
    end
  else mret (v_variable args, v_value args).

Definition v (args : option v_args) : M unit :=
  ok ← check_comm;
  if negb ok then mret () else
  match args with
  | None => mret ()
  | Some args =>
      '(var, value) ← v_var_value args;
      try_except
        (comm ← the_comm;
         match value with
         | None =>
             r ← call (get_variable (comm_gpascii comm) var);
             print (var +:+ "=" +:+ r)
         | Some value =>
             r ← call (set_variable (comm_gpascii comm) var (AStr value));
             print (var +:+ "=" +:+ r)
         end)
        (λ ex, if is_GPError ex then Some (print (exn_str ex)) else None)
  end.

Definition shell_cmd (command : string) : M unit :=
  if bool_decide (command = EmptyString) then mret () else
  ok ← check_comm;
  if negb ok then mret () else
  comm ← the_comm;
  lines ← call (shell_command comm command false);
  for_each lines (λ line, print (PyStr.rstrip line)).

(** [range(a, a + n)]. *)
Definition py_range (first len : Z) : list Z := seqZ first len.

Definition motors (args : option motors_args) : M unit :=
  match args with
  | None => mret ()
  | Some args =>
      ok ← check_comm;
      if negb ok then mret () else
      let range_ := py_range (motors_first_motor args) (motors_nmotors args) in
      let get_values (var : string) : M (list pyfloat) :=
        comprehension range_ (λ i,
          comm ← the_comm;
          call (get_variable_float (comm_gpascii comm)
                  ("Motor[" +:+ pretty i +:+ "]." +:+ var))) in
      act_pos ← get_values "ActPos";
      home_pos ← get_values "HomePos";
      let rel_pos := (λ '(act, home), Qminus act home) <$> zip2 act_pos home_pos in
      for_each (zip2 range_ rel_pos) (λ '(m, pos),
        print ("Motor " +:+ PyStr.rjust 2 (pretty m) +:+ ": " +:+ fmt_g3 pos))
  end.

Definition servo_period : M pyfloat :=
  ok ← check_comm;
  if negb ok then
    me ← get_self; mret (self.default_servo_period me)
  else
    comm ← the_comm;
    x ← call (get_variable_float (comm_gpascii comm) "Sys.ServoPeriod");
    mret (Qmult x (1 # 1000)).

(** The inner function [fix_addr] of [gather]. *)
Definition fix_addr (addr : string) : M string :=
  completer ← the_completer;
  addr ← match completer with
         | Some c =>
             if completer_bool c then
               node ← call (completer_check c addr); mret (node_str node)
             else mret addr
         | None => mret addr
         end;
  mret (if negb (PyStr.endswith addr ".a") then addr +:+ ".a" else addr).

Definition gather (args : option gather_args) : M unit :=
  match args with
  | None => mret ()
  | Some args =>
      ok ← check_comm;
      if negb ok then mret () else
      addr ← comprehension (gather_addresses args) fix_addr;
      let addr := if bool_decide ("Sys.ServoCount.a" ∉ addr)
                  then "Sys.ServoCount.a" :: addr else addr in
      comm ← the_comm;
      call (gather_and_plot comm addr (gather_duration args) (gather_period args))
  end.

(** ['%s' % x] for an optional string. *)
Definition str_option (x : option string) : string :=
  match x with Some s => s | None => "None" end.

Definition get_gather_results (settings_file : option string) (verbose : bool)
    : M (gmap string (list string) * gather_data) :=
  (if verbose then print "Reading gather settings..." else mret ());;
  me ← get_self;
  settings ← call (read_settings_file (self.comm me) settings_file);
  match settings !! "gather.addr" with
  | None =>
      emit (PrintSettings "settings is" settings);;
      raise (KeyError ("gather.addr: Unable to read addresses from settings file (" +:+
                       str_option settings_file +:+ ")"))
  | Some addresses =>
      (if verbose then
         emit (PrintNoNewline "Reading gather data... ");;
         emit Flush
       else mret ());;
      me ← get_self;
      data ← call (gather_get_gather_results (self.comm me) addresses);
      (if verbose then print "done" else mret ());;
      mret (settings, data)
  end.

(** The tab character, the default column delimiter. *)
Definition tab : string := String (ascii_of_nat 9) EmptyString.

(** [settings[key]]. *)
Definition getitem (settings : gmap string (list string)) (key : string)
    : M (list string) :=
  match settings !! key with
  | Some x => mret x
  | None => raise (KeyError key)
  end.

(** [try: settings, data = self.get_gather_results(f) / except KeyError as
    ex: logger.error(ex); return]: [None] when the handler is to return. *)
Definition gather_results_or_log (settings_file : option string)
    : M (option (gmap string (list string) * gather_data)) :=
  try_except
    (r ← get_gather_results settings_file true; mret (Some r))
    (λ ex, if is_KeyError ex then Some (emit (LogException ex);; mret None) else None).

Definition gather_save (args : option gather_save_args) : M unit :=
  match args with
  | None => mret ()
  | Some args =>
      ok ← check_comm;
      if negb ok then mret () else
      r ← gather_results_or_log (gather_save_settings_file args);
      match r with
      | None => mret ()
      | Some (settings, data) =>
          addresses ← getitem settings "gather.addr";
          let delim := match gather_save_delimiter args with
                       | Some d => d
                       | None => tab
                       end in
          match gather_save_save_to args with
          | Some save_to =>
              print ("Saving to " +:+ save_to);;
              call (gather_data_to_file save_to addresses data delim)
          | None =>
              print (PyStr.join " " (PyStr.rjust 20 <$> addresses));;
              for_each data (λ line,
                print (PyStr.join " " (PyStr.rjust 20 <$> line)))
          end
      end
  end.


(** What [custom_tune] returns: [None] when not connected, else what the
    tune helper it called returned. *)
Inductive tune_result : Type :=
| TuneNone
| TuneRange (best : option pyfloat) (rms : list pyfloat)
| TuneCustom.

(** The attributes of the parsed arguments that [custom_tune] looks up by
    name with [hasattr] and [getattr]. *)
Definition ramp_attrs (args : ramp_args) : list (string * pyarg) :=
  [("motor1", AInt (ramp_motor1 args)); ("distance", AFloat (ramp_distance args));
   ("velocity", AFloat (ramp_velocity args)); ("iterations", AInt (ramp_iterations args));
   ("kill_after", ABool (ramp_kill_after args)); ("accel", AFloat (ramp_accel args));
   ("dwell", AFloat (ramp_dwell args));
   ("gather", match ramp_gather args with
              | Some l => AStrList l
              | None => ANone
              end)].

Definition opt_float (x : option pyfloat) : pyarg :=
  match x with Some x => AFloat x | None => ANone end.

Definition tune_range_attrs (args : tune_range_args) : list (string * pyarg) :=
  [("script", AStr (tune_range_script args)); ("motor1", AInt (tune_range_motor1 args));
   ("distance", AFloat (tune_range_distance args));
   ("velocity", AFloat (tune_range_velocity args));
   ("iterations", AInt (tune_range_iterations args));
   ("kill_after", ABool (tune_range_kill_after args));
   ("accel", AFloat (tune_range_accel args)); ("dwell", AFloat (tune_range_dwell args));
   ("variable", AStr (tune_range_variable args));
   ("values", match tune_range_values args with
              | Some l => AFloatList l
              | None => ANone
              end);
   ("low", opt_float (tune_range_low args)); ("high", opt_float (tune_range_high args));
   ("step", opt_float (tune_range_step args))].

(** [getattr(magic_args, name)] where [hasattr(magic_args, name)]. *)
Definition getattr (magic_args : list (string * pyarg)) (name : string) : option pyarg :=
  (λ r, snd (snd r)) <$> list_find (λ kv, fst kv = name) magic_args.

Definition custom_tune (script : string) (magic_args : list (string * pyarg))
    (range_var : option string) (range_values : list pyfloat) : M tune_result :=
  ok ← check_comm;
  if negb ok then mret TuneNone else
  let tune_path := os_path_join MODULE_PATH "tune" in
  let fn := os_path_join tune_path script in
  exists_ ← call (os_path_exists fn);
  (if negb exists_ then print ("Script file does not exist: " +:+ fn) else mret ());;
  let args := ["motor1"; "distance"; "velocity"; "dwell"; "accel"; "scurve"; "prog";
               "coord_sys"; "gather"; "motor2"; "iterations"; "kill_after"] in
  let kwargs := omap (λ name, pair name <$> getattr magic_args name) args in
  comm ← the_comm;
  gpascii ← call (gpascii_channel comm);
  match range_var with
  | Some range_var =>
      '(best, rms) ← call (tune_tune_range gpascii fn range_var range_values kwargs);
      mret (TuneRange best rms)
  | None =>
      comm ← the_comm;
      call (tune_custom_tune comm fn kwargs);;
      mret TuneCustom
  end.

Definition gather_config (args : option gather_config_args) : M unit :=
  match args with
  | None => mret ()
  | Some args =>
      ok ← check_comm;
      if negb ok then mret () else
      let filename := match gather_config_filename args with
                      | None => gather_module_config_file
                      | Some f => f
                      end in
      comm ← the_comm;
      settings ← call (read_file comm filename);
      for_each settings print
  end.

Definition tune_plot (args : option tune_plot_args) : M unit :=
  match args with
  | None => mret ()
  | Some args =>
      ok ← check_comm;
      if negb ok then mret () else
      r ← gather_results_or_log (tune_plot_settings_file args);
      match r with
      | None => mret ()
      | Some (settings, data) =>
          addresses ← getitem settings "gather.addr";
          let desired_addr := "motor[" +:+ pretty (tune_plot_motor args) +:+ "].despos.a" in
          let actual_addr := "motor[" +:+ pretty (tune_plot_motor args) +:+ "].actpos.a" in
          if bool_decide (addresses = []) || bool_decide (data = []) then
            print "No data gathered?"
          else
            cols ← call (tune_get_columns addresses data
                           ["sys.servocount.a"; desired_addr; actual_addr]);
            match cols with
            | [x_axis; desired; actual] =>
                call (plt_plot ("Motor " +:+ pretty (tune_plot_motor args))
                        [x_axis; desired; actual]);;
                call plt_show
            | _ => raise (ValueError "wrong number of values to unpack")
            end
      end
  end.

(** [l.index(x)]. *)
Definition index (l : list string) (x : string) : M Z :=
  match list_find (λ y, y = x) l with
  | Some (i, _) => mret (Z.of_nat i)
  | None => raise (ValueError (x +:+ " is not in list"))
  end.

(** [l.remove(x)] where [x in l]: the first occurrence goes. *)
Fixpoint remove_first (x : Z) (l : list Z) : list Z :=
  match l with
  | [] => []
  | y :: rest => if bool_decide (y = x) then rest else y :: remove_first x rest
  end.

(** The inner function [fix_index] of [gather_plot]. *)
Definition fix_index (addresses : list string) (addr : option string) : M Z :=
  match addr ≫= py_int with
  | Some n => mret n
  | None =>
      let addr_a := str_option addr +:+ ".a" in
      if bool_decide (addr_a ∈ addresses) then index addresses addr_a
      else index addresses (str_option addr)
  end.

(** [[fix_index(addr) for addr in l]] under [except TypeError: ... = []]. *)
Definition fix_indices (addresses : list string) (l : option (list string))
    : M (list Z) :=
  match l with
  | Some l => comprehension l (λ addr, fix_index addresses (Some addr))
  | None => mret []
  end.

(** [', '.join('%s' % arg for arg in l)]. *)
Definition axis_label (l : option (list string)) : M string :=
  match l with
  | Some l => mret (PyStr.join ", " l)
  | None => raise (TypeError "'NoneType' object is not iterable")
  end.

Definition gather_plot (args : option gather_plot_args) : M unit :=
  match args with
  | None => mret ()
  | Some args =>
      ok ← check_comm;
      if negb ok then mret () else
      r ← gather_results_or_log (gather_plot_settings_file args);
      match r with
      | None => mret ()
      | Some (settings, data) =>
          addresses ← getitem settings "gather.addr";
          print "Available addresses:";;
          for_each addresses (λ address, print (tab +:+ address));;
          x_index ← try_except (fix_index addresses (gather_plot_x_axis args))
                       (λ _, Some (mret 0));
          '(left_indices, right_indices) ←
            (if gather_plot_all args then
               let half := Z.of_nat (length addresses) `div` 2 in
               let left_indices := py_range 0 half in
               let right_indices := py_range half (Z.of_nat (length addresses) - half) in
               mret (remove_first x_index left_indices,
                     remove_first x_index right_indices)
             else
               left_indices ← fix_indices addresses (gather_plot_left args);
               right_indices ← fix_indices addresses (gather_plot_right args);
               mret (left_indices, right_indices));
          left_label ← axis_label (gather_plot_left args);
          right_label ← axis_label (gather_plot_right args);
          call (plot_custom addresses data (gather_plot_left_scale args)
                  (gather_plot_right_scale args) x_index left_indices right_indices
                  left_label right_label);;
          call plt_show
      end
  end.

Definition pyramid (args : option ramp_args) : M unit :=
  match args with
  | None => mret ()
  | Some args => custom_tune "pyramid.txt" (ramp_attrs args) None [];; mret ()
  end.

Definition ramp (args : option ramp_args) : M unit :=
  match args with
  | None => mret ()
  | Some args => custom_tune "ramp.txt" (ramp_attrs args) None [];; mret ()
  end.

Definition tune_range (args : option tune_range_args) : M unit :=
  match args with
  | None => mret ()
  | Some args =>
      let param := tune_range_variable args in
      values ← match tune_range_values args with
               | Some values => mret (Some values)
               | None =>
                   match tune_range_low args, tune_range_high args, tune_range_step args with
                   | Some low, Some high, Some step =>
                       values ← call (np_arange low high step); mret (Some values)
                   | _, _, _ =>
                       print "Must set either --values or --low/--high/--step";;
                       mret None
                   end
               end;
      match values with
      | None => mret ()
      | Some values =>
          r ← custom_tune (tune_range_script args) (tune_range_attrs args)
                (Some param) values;
          match r with
          | TuneRange best rms =>
              if bool_decide (length values = length rms) then
                call (plt_plot param [values; rms]);;
                match best with
                | Some best => call (plt_vlines best rms)
                | None => mret ()
                end;;
                call plt_show
              else mret ()
          | TuneNone => raise (TypeError "'NoneType' object is not iterable")
          | TuneCustom => raise (TypeError "object is not iterable")
          end
      end
  end.

(** [other_trajectory(move_type)] gives the handler [move]. *)
Definition other_trajectory (move_type : Z) (args : option move_args) : M unit :=
  match args with
  | None => mret ()
  | Some args =>
      ok ← check_comm;
      if negb ok then mret () else
      cmd ← call (tune_other_trajectory move_type (move_motor args) (move_distance args)
                    (move_velocity args) (move_accel args) (move_dwell args)
                    (move_reps args) (move_one_direction args)
                    (negb (move_no_kill args)));
      comm ← the_comm;
      '(addrs, data) ← call (run_tune_program comm cmd);
      call (plot_tune_results addrs data)
  end.

(** [tune.OT_RAMP], [tune.OT_TRAPEZOID], [tune.OT_S_CURVE]. *)
Definition OT_RAMP : Z := 1.
Definition OT_TRAPEZOID : Z := 2.
Definition OT_S_CURVE : Z := 3.

Definition dt_ramp := other_trajectory OT_RAMP.
Definition dt_trapezoid := other_trajectory OT_TRAPEZOID.
Definition dt_scurve := other_trajectory OT_S_CURVE.

Definition servo (args : option servo_args) : M unit :=
  match args with
  | None => mret ()
  | Some args =>
      ok ← check_comm;
      if negb ok then mret () else
      let search_text := PyStr.lower (PyStr.join " " (servo_text args)) in
      comm ← the_comm;
      completer ← the_completer;
      settings ← call (tune_get_settings (comm_gpascii comm) (servo_motor args) completer);
      for_each settings (λ '(obj, value),
        let line :=
          if node_is_node obj then
            let desc := match node_comments obj with Some d => d | None => EmptyString end in
            PyStr.rjust 15 (node_name obj) +:+ " = " +:+ PyStr.ljust 30 value +:+
              " [" +:+ desc +:+ "]"
          else PyStr.rjust 15 (node_str obj) +:+ " = " +:+ value in
        if bool_decide (search_text = EmptyString) then print line
        else if PyStr.has_substring search_text (PyStr.lower line) then print line
        else mret ())
  end.

Definition servo_copy (args : option servo_copy_args) : M unit :=
  match args with
  | None => mret ()
  | Some args =>
      ok ← check_comm;
      if negb ok then mret () else
      if bool_decide (servo_copy_motor_from args = servo_copy_motor_to args) then
        emit (LogError "Destination motor should be different from source motor")
      else
        comm ← the_comm;
        completer ← the_completer;
        call (copy_settings (comm_gpascii comm) (servo_copy_motor_from args)
                (servo_copy_motor_to args) completer)
  end.

(** The inner function [fix_row] of [search]. *)
Definition fix_row (row : list pyvalue) : string :=
  PyStr.join " | "
    (omap (λ item, match item with
                   | Some s => if bool_decide (s = "NULL") then None else Some s
                   | None => None
                   end) row).

Definition search (args : option search_args) : M unit :=
  completer ← the_completer;
  match completer with
  | None => print "Completer not configured"
  | Some completer =>
      match args with
      | None => mret ()
      | Some args =>
          obj ← call (completer_check completer (search_variable args));
          items ← call (node_search obj (search_text args));
          for_each items (λ '(key, info), print (key +:+ ": " +:+ fix_row info))
      end
  end.

Definition set_verbose (var : string) (value : pyarg) : M unit :=
  comm ← the_comm;
  call (set_variable (comm_gpascii comm) var value);;
  comm ← the_comm;
  r ← call (get_variable (comm_gpascii comm) var);
  print (var +:+ " = " +:+ r).

Definition enc_filter (args : option enc_filter_args) : M unit :=
  match args with
  | None => mret ()
  | Some args =>
      ok ← check_comm;
      if negb ok then mret () else
      servo_period ← servo_period;
      '(i1, i2) ← (if Qle_bool (enc_filter_cutoff args) 0 then mret (AInt 0, AInt 0)
                   else call (tracking_filter (enc_filter_cutoff args)
                                (enc_filter_damping args) servo_period));
      let v1 := "EncTable[" +:+ pretty (enc_filter_num args) +:+ "].index1" in
      let v2 := "EncTable[" +:+ pretty (enc_filter_num args) +:+ "].index2" in
      for_each (zip2 [v1; v2] [i1; i2]) (λ '(var, value), set_verbose var value)
  end.

Definition wpkey (args : option wpkey_args) : M unit :=
  match args with
  | None => mret ()
  | Some args =>
      ok ← check_comm;
      if negb ok then mret () else
      let enabled_str := "$AAAAAAAA" in
      if wpkey_disable args then
        print "Disabling";;
        set_verbose "Sys.WpKey" (AStr "0")
      else
        print "Enabling";;
        set_verbose "Sys.WpKey" (AStr enabled_str)
  end.


Definition create_util_makefile (source_files : list string) (output_name : string)
    : M string :=
  let make_path := os_path_join MODULE_PATH "util_makefile" in
  makefile ← call (open_read make_path);
  mret (percent_format makefile
          [("source_files", PyStr.join " " source_files); ("output_name", output_name)]).

Definition build_utility (comm : PPComm) (source_files : list string)
    (output_name dest_path : string) (verbose cleanup : bool)
    (run : option (list string)) : M unit :=
  makefile_text ← create_util_makefile source_files output_name;
  call (send_file comm (os_path_join dest_path "Makefile") makefile_text);;
  print "Sending Makefile";;
  for_each source_files (λ fn,
    text ← call (open_read fn);
    let dest_fn := os_path_join dest_path (os_path_basename fn) in
    print ("Sending " +:+ dest_fn);;
    call (send_file comm dest_fn text));;
  call (comm_send_line comm ("cd " +:+ dest_path));;
  print "Building...";;
  lines ← call (shell_command comm "make" verbose);
  (if cleanup then
     print "Cleaning up...";;
     for_each source_files (λ fn, call (remove_file comm (os_path_join dest_path fn)));;
     call (remove_file comm (os_path_join dest_path "Makefile"))
   else mret ());;
  let errored := existsb (λ line, PyStr.has_substring "error" (PyStr.lower line)) lines in
  match run with
  | Some run =>
      if negb errored then
        let run := PyStr.join " " run in
        call (shell_command comm (output_name +:+ " " +:+ run) true);; mret ()
      else mret ()
  | None => mret ()
  end.

Definition util_build (args : option util_build_args) : M unit :=
  match args with
  | None => mret ()
  | Some args =>
      ok ← check_comm;
      if negb ok then mret () else
      comm ← the_comm;
      build_utility comm (util_build_source_files args) (util_build_name args)
        (util_build_dest args) true true (Some (util_build_run args))
  end.

Definition userphase (args : option userphase_args) : M unit :=
  match args with
  | None => mret ()
  | Some args =>
      ok ← check_comm;
      if negb ok then mret () else
      (if userphase_unload args then
         comm ← the_comm;
         call (shell_command comm ("rmmod " +:+ userphase_module args) true);; mret ()
       else mret ());;
      for_each (userphase_motors args) (λ motor,
        raise (AttributeError "'PpmacCore' object has no attribute 'set_variable'"));;
      comm ← the_comm;
      call (shell_command comm ("insmod " +:+ userphase_module args) true);;
      call (shell_command comm ("lsmod |grep " +:+ userphase_module args) true);;
      for_each (userphase_motors args) (λ motor,
        call (shell_command comm
                ("/var/ftp/usrflash/userphase -l " +:+ pretty motor +:+ " " +:+
                 userphase_name args) true);; mret ());;
      for_each (userphase_motors args) (λ motor,
        call (set_variable (comm_gpascii comm)
                ("Motor[" +:+ pretty motor +:+ "].PhaseCtrl") (AInt 1));; mret ())
  end.

(** The comparison loop of [prog_run]: every changed value is printed. *)
Definition print_changes (triples : list (string * string * string)) : M unit :=
  for_each triples (λ '(var, old_value, new_value),
    if bool_decide (old_value ≠ new_value) then print (var +:+ " = " +:+ new_value)
    else mret ()).

(** [while get_active():] of [prog_run]; KeyboardInterrupt arrives at the
    loop head after [fuel] turns unless the program ends before. *)
Fixpoint prog_run_loop (fuel : nat) (gpascii : Gpascii) (active_var : string)
    (variables : list string) (last_values : list string) : M unit :=
  active ← call (get_variable_int gpascii active_var);
  if bool_decide (active = 0) then mret () else
  match fuel with
  | O => raise KeyboardInterrupt
  | S fuel =>
      match variables with
      | [] =>
          call (time_sleep (1 # 10));;
          prog_run_loop fuel gpascii active_var variables last_values
      | _ =>
          values ← comprehension variables (λ var, call (get_variable gpascii var));
          print_changes (zip3 variables last_values values);;
          prog_run_loop fuel gpascii active_var variables values
      end
  end.

Definition prog_run (fuel : nat) (args : option prog_run_args) : M unit :=
  match args with
  | None => mret ()
  | Some args =>
      ok ← check_comm;
      if negb ok then mret () else
      comm ← the_comm;
      gpascii ← call (gpascii_channel comm);
      started ← try_except
        (call (program gpascii (prog_run_coord args) (prog_run_program args) true false);;
         mret true)
        (λ ex, if is_GPError ex then Some (
           print (exn_str ex);;
           (if PyStr.has_substring "READY TO RUN" (exn_str ex) then
              print "Are all motors in the coordinate system in closed loop?"
            else mret ());;
           mret false) else None);
      if negb started then mret () else
      call (time_sleep (1 # 10));;
      print ("Coord " +:+ pretty (prog_run_coord args) +:+ " Program " +:+
             pretty (prog_run_program args));;
      let active_var := "Coord[" +:+ pretty (prog_run_program args) +:+ "].ProgActive" in
      let get_active := call (get_variable_int gpascii active_var) in
      last_values ← comprehension (prog_run_variables args)
                      (λ var, call (get_variable gpascii var));
      for_each (zip2 (prog_run_variables args) last_values)
        (λ '(var, value), print (var +:+ " = " +:+ value));;
      try_except
        (prog_run_loop fuel gpascii active_var (prog_run_variables args) last_values)
        (λ ex, if is_KeyboardInterrupt ex then Some (
           active ← get_active;
           if bool_decide (active ≠ 0) then
             print "Aborting...";;
             call (program gpascii (prog_run_coord args) (prog_run_program args)
                     false true)
           else mret ()) else None);;
      active ← get_active;
      print ("Done (" +:+ active_var +:+ " = " +:+ pretty active +:+ ")");;
      let error_status := "Coord[" +:+ pretty (prog_run_coord args) +:+ "].ErrorStatus" in
      errno ← call (get_variable_int gpascii error_status);
      match coord_errors !! errno with
      | Some (name, text) => print ("Error: (" +:+ name +:+ ") " +:+ text)
      | None => mret ()
      end
  end.

Definition prog_send (args : option prog_send_args) : M unit :=
  match args with
  | None => mret ()
  | Some args =>
      ok ← check_comm;
      if negb ok then mret () else mret ()
  end.

Definition monitor (fuel : nat) (args : option monitor_args) : M unit :=
  match args with
  | None => mret ()
  | Some args =>
      ok ← check_comm;
      if negb ok then mret () else
      monitor_variables fuel (monitor_variables_arg args) None None false true
  end.

(** [l.remove(x)] where [x in l], on strings. *)
Fixpoint remove_first_str (x : string) (l : list string) : list string :=
  match l with
  | [] => []
  | y :: rest => if bool_decide (y = x) then rest else y :: remove_first_str x rest
  end.

(** The comparison loop of [monitorc]. *)
Fixpoint monitorc_compare (triples : list (string * pyvalue * pyvalue))
    (change_set : gset string) : M (gset string) :=
  match triples with
  | [] => mret change_set
  | (var, old_value, new_value) :: rest =>
      if bool_decide (old_value ≠ new_value) then
        match new_value with
        | None => raise (AttributeError "'NoneType' object has no attribute 'startswith'")
        | Some s =>
            if PyStr.startswith s "Error:" then monitorc_compare rest change_set
            else
              print (fmt_assign var new_value);;
              monitorc_compare rest ({[var]} ∪ change_set)
        end
      else monitorc_compare rest change_set
  end.

Fixpoint monitorc_loop (fuel : nat) (comm : PPComm) (variables : list string)
    (last_values : list pyvalue) (change_set : gset string) : M (gset string) :=
  match fuel with
  | O => mret change_set
  | S fuel =>
      try_else (get_var_values comm variables None)
        (λ ex, if is_KeyboardInterrupt ex then Some (mret change_set) else None)
        (λ values,
           change_set ← monitorc_compare (zip3 variables last_values values) change_set;
           monitorc_loop fuel comm variables values change_set)
  end.

Definition monitorc (fuel : nat) (args : option monitorc_args) : M unit :=
  match args with
  | None => mret ()
  | Some args =>
      ok ← check_comm;
      if negb ok then mret () else
      completer ← the_completer;
      match completer with
      | None => print "Completer not enabled"
      | Some completer =>
          obj ← call (completer_check completer (monitorc_base args));
          let variables := (λ attr, monitorc_base args +:+ "." +:+ attr) <$> node_dir obj in
          let variables := foldl (λ vars ignore, remove_first_str ignore vars)
                             variables (monitorc_ignore args) in
          print "Initial values:";;
          comm ← the_comm;
          last_values ← get_var_values comm variables None;
          for_each (zip2 variables last_values)
            (λ '(var, value), print (fmt_assign var value));;
          print EmptyString;;
          print "-";;
          change_set ← monitorc_loop fuel comm variables last_values ∅;
          if negb (bool_decide (change_set = ∅)) then
            print "Variables changed:";;
            for_each (sorted change_set) print
          else mret ()
      end
  end.

(** ** Motor and coordinate-system status *)

(** The closure [got_value] of [mstatus] (with [normal] the table
    [const.motor_normal]) and of [cstatus] (with [const.coord_normal]);
    [all] and [additional] are [args.all] and [args.additional]. *)
Definition got_value (normal : gmap string Z) (all : bool)
    (additional : option (list string)) : callback := λ var value,
  var ← match PyStr.last_item (PyStr.split "." var) with
        | Some x => mret x
        | None => raise (IndexError "list index out of range")
        end;
  shown ← (if all then mret true
           else match additional with
                | Some l => mret (bool_decide (var ∈ l))
                | None => raise (TypeError "argument of type 'NoneType' is not iterable")
                end);
  ret ← (if shown : bool then mret (Some value)
         else match normal !! var with
              | Some normal_value =>
                  last_values ← get_last_values;
                  let last_value := default None (last_values !! var) in
                  match py_int value with
                  | None => raise (ValueError "invalid literal for int() with base 10")
                  | Some n =>
                      if bool_decide (n = normal_value) then
                        match last_value with
                        | Some _ => mret (Some value)
                        | None => mret None
                        end
                      else mret (Some value)
                  end
              | None =>
                  raise (UnboundLocalError
                           "local variable 'ret' referenced before assignment")
              end);
  last_values ← get_last_values;
  put_last_values (<[var := ret]> last_values);;
  mret ret.

(** [variables.remove(variable)] under [try: ... except: pass], for every
    [variable] of [ignore]. *)
Definition remove_ignored (variables : list string) (ignore : option (list string))
    : list string :=
  match ignore with
  | Some ignore => foldl (λ vars variable, remove_first_str variable vars) variables ignore
  | None => variables
  end.

(** [variables.extend(args.additional)] unless it is [None]. *)
Definition extend_additional (variables : list string) (additional : option (list string))
    : list string :=
  match additional with
  | Some additional => variables ++ additional
  | None => variables
  end.

Definition mstatus (fuel : nat) (args : option status_args) : M unit :=
  match args with
  | None => mret ()
  | Some args =>
      ok ← check_comm;
      if negb ok then mret () else
      let motor := "Motor[" +:+ pretty (status_number args) +:+ "]" in
      let variables := motor_status in
      let variables := remove_ignored variables (status_ignore args) in
      let variables := extend_additional variables (status_additional args) in
      let variables := (λ var, motor +:+ "." +:+ var) <$> variables in
      put_last_values ∅;;
      let got_value := got_value motor_normal (status_all args) (status_additional args) in
      me ← get_self;
      if status_monitor args then
        monitor_variables fuel variables (self.comm me) (Some got_value) false true
      else
        comm ← the_comm;
        print_var_values comm variables (Some got_value);; mret ()
  end.

Definition cstatus (fuel : nat) (args : option status_args) : M unit :=
  match args with
  | None => mret ()
  | Some args =>
      ok ← check_comm;
      if negb ok then mret () else
      let coord := "Coord[" +:+ pretty (status_number args) +:+ "]" in
      let variables := coord_status in
      let variables := remove_ignored variables (status_ignore args) in
      let variables := extend_additional variables (status_additional args) in
      let variables := (λ var, coord +:+ "." +:+ var) <$> variables in
      put_last_values ∅;;
      let got_value := got_value coord_normal (status_all args) (status_additional args) in
      me ← get_self;
      if status_monitor args then
        monitor_variables fuel variables (self.comm me) (Some got_value) false true
      else
        comm ← the_comm;
        print_var_values comm variables (Some got_value);; mret ()
  end.

(** ** The commands of the console

    One constructor per command handler of [PpmacCore], with the parsed
    arguments it is invoked on; the looping commands also carry the number
    of turns after which the operator interrupts them. *)
Inductive command : Type :=
| cmd__connect (args : option connect_args)
| cmd_gpascii (args : option gpascii_args)
| cmd_g (args : option gpascii_args)
| cmd_get_var (args : option get_var_args)
| cmd_set_var (args : option set_var_args)
| cmd_v (args : option v_args)
| cmd_shell_cmd (command : string)
| cmd_motors (args : option motors_args)
| cmd_gather (args : option gather_args)
| cmd_gather_save (args : option gather_save_args)
| cmd_gather_config (args : option gather_config_args)
| cmd_tune_plot (args : option tune_plot_args)
| cmd_gather_plot (args : option gather_plot_args)
| cmd_pyramid (args : option ramp_args)
| cmd_ramp (args : option ramp_args)
| cmd_tune_range (args : option tune_range_args)
| cmd_dt_ramp (args : option move_args)
| cmd_dt_trapezoid (args : option move_args)
| cmd_dt_scurve (args : option move_args)
| cmd_servo (args : option servo_args)
| cmd_servo_copy (args : option servo_copy_args)
| cmd_search (args : option search_args)
| cmd_enc_filter (args : option enc_filter_args)
| cmd_wpkey (args : option wpkey_args)
| cmd_util_build (args : option util_build_args)
| cmd_userphase (args : option userphase_args)
| cmd_prog_run (fuel : nat) (args : option prog_run_args)
| cmd_prog_send (args : option prog_send_args)
| cmd_monitor (fuel : nat) (args : option monitor_args)
| cmd_monitorc (fuel : nat) (args : option monitorc_args)
| cmd_mstatus (fuel : nat) (args : option status_args)
| cmd_cstatus (fuel : nat) (args : option status_args).

Definition run (c : command) : M unit :=
  match c with
  | cmd__connect args => _connect args
  | cmd_gpascii args => gpascii args
  | cmd_g args => g args
  | cmd_get_var args => get_var args
  | cmd_set_var args => set_var args
  | cmd_v args => v args
  | cmd_shell_cmd command => shell_cmd command
  | cmd_motors args => motors args
  | cmd_gather args => gather args
  | cmd_gather_save args => gather_save args
  | cmd_gather_config args => gather_config args
  | cmd_tune_plot args => tune_plot args
  | cmd_gather_plot args => gather_plot args
  | cmd_pyramid args => pyramid args
  | cmd_ramp args => ramp args
  | cmd_tune_range args => tune_range args
  | cmd_dt_ramp args => dt_ramp args
  | cmd_dt_trapezoid args => dt_trapezoid args
  | cmd_dt_scurve args => dt_scurve args
  | cmd_servo args => servo args
  | cmd_servo_copy args => servo_copy args
  | cmd_search args => search args
  | cmd_enc_filter args => enc_filter args
  | cmd_wpkey args => wpkey args
  | cmd_util_build args => util_build args
  | cmd_userphase args => userphase args
  | cmd_prog_run fuel args => prog_run fuel args
  | cmd_prog_send args => prog_send args
  | cmd_monitor fuel args => monitor fuel args
  | cmd_monitorc fuel args => monitorc fuel args
  | cmd_mstatus fuel args => mstatus fuel args
  | cmd_cstatus fuel args => cstatus fuel args
  end.

(** The handlers whose body goes to the device through the connection
    handle: all but [_connect], which only builds the connection, and
    [search], which only asks the completer. *)
Definition issues_requests (c : command) : bool :=
  match c with
  | cmd__connect _ | cmd_search _ => false
  | _ => true
  end.

End Model.

(** ** Vocabulary of the statements *)

Section Vocabulary.
Context `{Env}.

(** The events a computation adds to the log of a state. *)
Definition events_of {A} (m : M A) (s : State) : list event :=
  drop (length (out s)) (out (m s).2).

(** The state [s] after [evs] more events. *)
Definition logged (s : State) (evs : list event) : State :=
  mkState (world s) (this s) (out s ++ evs) (status_last_values s).

(** The state [s] after the world moved on to [w] and [evs] more events. *)
Definition answered (s : State) (w : World) (evs : list event) : State :=
  mkState w (this s) (out s ++ evs) (status_last_values s).

(** The device raises nothing but GPError and TimeoutError when a variable
    is read. *)
Definition reads_raise_only_listed : Prop :=
  ∀ g var w e w',
    oracle _ (get_variable g var) w = (Raise e, w') →
    is_GPError e || is_TimeoutError e = true.

(** What [get_var_values] is to return, read off the claim: position by
    position, the error text, the raw value, or what the callback made of
    it. *)
Inductive values_read (comm : PPComm) (cb : option callback)
    : State → list string → list pyvalue → State → Prop :=
| values_read_nil s :
    values_read comm cb s [] [] s
| values_read_error s var rest e s1 values s2 :
    call (get_variable (comm_gpascii comm) var) s = (Raise e, s1) →
    is_GPError e || is_TimeoutError e = true →
    values_read comm cb s1 rest values s2 →
    values_read comm cb s (var :: rest) (Some ("Error: " +:+ exn_str e) :: values) s2
| values_read_raw s var rest x s1 values s2 :
    cb = None →
    call (get_variable (comm_gpascii comm) var) s = (Ret x, s1) →
    values_read comm cb s1 rest values s2 →
    values_read comm cb s (var :: rest) (Some x :: values) s2
| values_read_callback s var rest x s1 f r s1' values s2 :
    cb = Some f →
    call (get_variable (comm_gpascii comm) var) s = (Ret x, s1) →
    f var x s1 = (Ret r, s1') →
    values_read comm cb s1' rest values s2 →
    values_read comm cb s (var :: rest) (r :: values) s2
| values_read_swallowed s var rest x s1 f e s1' values s2 :
    cb = Some f →
    call (get_variable (comm_gpascii comm) var) s = (Ret x, s1) →
    f var x s1 = (Raise e, s1') →
    values_read comm cb s1' rest values s2 →
    values_read comm cb s (var :: rest) (Some x :: values) s2.

(** The request [v] sends for a name and an optional value. *)
Definition v_request (c : PPComm) (var : string) (value : option string) : ext string :=
  match value with
  | None => get_variable (comm_gpascii c) var
  | Some value => set_variable (comm_gpascii c) var (AStr value)
  end.

(** [steps R m]: running [m] takes every state to one that [R] relates to
    it, whatever the outcome. *)
Definition steps (R : State → State → Prop) {A} (m : M A) : Prop :=
  ∀ s, R s (m s).2.

(** The log only grows, and by events that satisfy [P]. *)
Definition extends (P : event → Prop) (s s' : State) : Prop :=
  ∃ evs, out s' = out s ++ evs ∧ Forall P evs.

(** [self.comm] is what it was. *)
Definition same_comm (s s' : State) : Prop :=
  self.comm (this s') = self.comm (this s).

(** What connecting leaves in the log: the construction of the connection,
    the loading of the completer, and the messages about both. *)
Definition is_connect_event (ev : event) : bool :=
  match ev with
  | Print _ | LogError _ | UserNs _ _ => true
  | Ext q =>
      match q with
      | PPComm_init _ _ _ _ | gpascii_channel _ | os_path_exists _ | os_unlink _
      | start_completer_from_db _ _ | start_completer_from_mysql _ _ _ _ => true
      | _ => false
      end
  | _ => false
  end.

(** The address list of a call of [gather.gather_and_plot]. *)
Definition passed_addresses (ev : event) : option (list string) :=
  match ev with
  | Ext q =>
      match q with
      | gather_and_plot _ addr _ _ => Some addr
      | _ => None
      end
  | _ => None
  end.

(** What [fix_addr] does to an address once the completer has had its say. *)
Definition add_suffix (addr : string) : string :=
  if PyStr.endswith addr ".a" then addr else addr +:+ ".a".

(** The addresses of [gather] after the completer has had its say, read
    off [fix_addr]: where [self.completer] is a completer in use, every
    address is handed to [completer.check], one after the other, and is
    replaced by the spelling of what comes back; where [self.completer] is
    [None] (or a completer that is falsy) the addresses stay as given. *)
Inductive addresses_checked (completer : attr (option Completer))
    : World → list string → list string → World → Prop :=
| addresses_checked_nil w :
    addresses_checked completer w [] [] w
| addresses_checked_by_completer c w addr node w1 rest checked w2 :
    completer = Assigned (Some c) → completer_bool c = true →
    oracle _ (completer_check c addr) w = (Ret node, w1) →
    addresses_checked completer w1 rest checked w2 →
    addresses_checked completer w (addr :: rest) (node_str node :: checked) w2
| addresses_checked_as_given w addr rest checked w2 :
    completer = Assigned None ∨
      (∃ c, completer = Assigned (Some c) ∧ completer_bool c = false) →
    addresses_checked completer w rest checked w2 →
    addresses_checked completer w (addr :: rest) (addr :: checked) w2.

(** The message of the KeyError that [get_gather_results] raises. *)
Definition no_addresses (settings_file : option string) : string :=
  "gather.addr: Unable to read addresses from settings file (" +:+
  str_option settings_file +:+ ")".

(** The claim's test for one variable in one turn of the polling loop: the
    new value is not None and differs from the value of the turn before. *)
Definition is_printed (triple : string * pyvalue * pyvalue) : bool :=
  let '(var, old_value, new_value) := triple in
  bool_decide (new_value ≠ None) && bool_decide (old_value ≠ new_value).

(** The variables a turn prints, with the values it prints for them. *)
Definition printed_in_turn (variables : list string) (last_values values : list pyvalue)
    : list (string * pyvalue) :=
  (λ '(var, _, new_value), (var, new_value)) <$>
    filter (λ t, is_printed t = true) (zip3 variables last_values values).

(** The same over the turns of a run: each turn is compared with the one
    before it, the first with [last_values]. *)
Fixpoint printed_in_turns (variables : list string) (last_values : list pyvalue)
    (history : list (list pyvalue)) : list (string * pyvalue) :=
  match history with
  | [] => []
  | values :: rest =>
      printed_in_turn variables last_values values ++
      printed_in_turns variables values rest
  end.

Definition print_events (pairs : list (string * pyvalue)) : list event :=
  (λ '(var, value), Print (fmt_assign var value)) <$> pairs.

(** A run of the polling loop as the claim describes it: [history] holds
    the value lists read turn by turn, and after each read exactly the
    variables of [printed_in_turn] are printed.  The run ends at the loop
    head after [fuel] turns or when a read raises KeyboardInterrupt. *)
Inductive polled (comm : PPComm) (variables : list string) (cb : option callback)
    : nat → State → list pyvalue → list (list pyvalue) → State → Prop :=
| polled_stop s last_values :
    polled comm variables cb 0 s last_values [] s
| polled_interrupted fuel s last_values s1 :
    get_var_values comm variables cb s = (Raise KeyboardInterrupt, s1) →
    polled comm variables cb (S fuel) s last_values [] s1
| polled_turn fuel s last_values values s1 history s2 :
    get_var_values comm variables cb s = (Ret values, s1) →
    polled comm variables cb fuel
      (logged s1 (print_events (printed_in_turn variables last_values values)))
      values history s2 →
    polled comm variables cb (S fuel) s last_values (values :: history) s2.

(** The name [got_value] files a variable under: what follows the last dot. *)
Definition short_name (var : string) : string :=
  default EmptyString (PyStr.last_item (PyStr.split "." var)).

(** [last_values.get(var, None)] of the running status command. *)
Definition last_value_of (s : State) (var : string) : pyvalue :=
  default None (status_last_values s !! var).

(** A callback called on one (name, value) pair after the other: the
    outcomes, and the state it leaves. *)
Fixpoint run_calls (cb : callback) (calls : list (string * string)) (s : State)
    : list (result pyvalue) * State :=
  match calls with
  | [] => ([], s)
  | (var, value) :: rest =>
      let '(r, s1) := cb var value s in
      let '(rs, s2) := run_calls cb rest s1 in
      (r :: rs, s2)
  end.

(** [last_values[var] = ret]. *)
Definition stored (s : State) (var : string) (ret : pyvalue) : State :=
  mkState (world s) (this s) (out s) (<[var := ret]> (status_last_values s)).

(** The AttributeError of reading [self.completer] before any assignment. *)
Definition no_completer_attribute : exn :=
  AttributeError "'PpmacCore' object has no attribute 'completer'".

(** The AttributeError of calling [self.set_variable], which [PpmacCore]
    does not define. *)
Definition no_set_variable_attribute : exn :=
  AttributeError "'PpmacCore' object has no attribute 'set_variable'".

(** The file name [custom_tune] makes of a script name. *)
Definition tune_script_path (script : string) : string :=
  os_path_join (os_path_join MODULE_PATH "tune") script.

(** The keyword arguments [custom_tune] takes from the parsed arguments. *)
Definition tune_kwargs (magic_args : list (string * pyarg)) : list (string * pyarg) :=
  omap (λ name, pair name <$> getattr magic_args name)
    ["motor1"; "distance"; "velocity"; "dwell"; "accel"; "scurve"; "prog";
     "coord_sys"; "gather"; "motor2"; "iterations"; "kill_after"].

(** The lines [gpascii] prints of what the device sent: the non-empty ones. *)
Definition printed_lines (lines : list string) : list event :=
  Print <$> filter (λ line, line ≠ EmptyString) lines.

(** What [get_gather_results] leaves in the log when it returns. *)
Definition gather_read_log (c : option PPComm) (settings_file : option string)
    (addresses : list string) : list event :=
  [Print "Reading gather settings..."; Ext (read_settings_file c settings_file);
   PrintNoNewline "Reading gather data... "; Flush;
   Ext (gather_get_gather_results c addresses); Print "done"].

(** A line of the table [gather_save] prints: every item right-aligned in
    twenty characters, a space between the columns. *)
Definition table_row (line : list string) : string :=
  PyStr.join " " (PyStr.rjust 20 <$> line).

(** The channel [open_completer_db] opens when there is a connection. *)
Definition channel_log (c : option PPComm) : list event :=
  match c with
  | Some c => [Ext (gpascii_channel c)]
  | None => []
  end.

(** A status variable that is as it should be: its field is in the table
    of normal values, the device answers every read of it with that value,
    and the user did not ask for the field. *)
Definition reads_normal (c : PPComm) (normal : gmap string Z) (additional : list string)
    (var : string) : Prop :=
  (short_name var ∉ additional) ∧
  ∃ n, normal !! short_name var = Some n ∧
       ∀ w, ∃ x w', oracle _ (get_variable (comm_gpascii c) var) w = (Ret x, w') ∧
                    py_int x = Some n.

(** The variables [mstatus] and [cstatus] read: the fields of the table
    without the ignored ones, then the additional ones, under the name of
    the motor or coordinate system. *)
Definition status_variables (table : list string) (prefix : string) (args : status_args)
    : list string :=
  (λ var, prefix +:+ "." +:+ var) <$>
    extend_additional (remove_ignored table (status_ignore args)) (status_additional args).

(** The reads of a list of variables, as they appear in the log. *)
Definition read_log (c : PPComm) (variables : list string) : list event :=
  (λ var, Ext (get_variable (comm_gpascii c) var)) <$> variables.



(** The test [build_utility] makes of the output of make: some line holds
    [error], in whatever case. *)
Definition reports_error (lines : list string) : bool :=
  existsb (λ line, PyStr.has_substring "error" (PyStr.lower line)) lines.

(** On this device make never ends without a line that holds [error]. *)
Definition make_fails (comm : PPComm) (verbose : bool) : Prop :=
  ∀ w lines w', oracle _ (shell_command comm "make" verbose) w = (Ret lines, w') →
                reports_error lines = true.

(** An event that is no shell command, or is the call of make. *)
Definition runs_make_at_most (ev : event) : bool :=
  match ev with
  | Ext q =>
      match q with
      | shell_command _ command _ => bool_decide (command = "make")
      | _ => true
      end
  | _ => true
  end.



(** What [monitor_variables] prints of the initial read when
    [show_initial] is set: every variable whose value is not None. *)
Definition initial_report (show_initial : bool) (variables : list string)
    (last_values : list pyvalue) : list event :=
  if show_initial
  then print_events (filter (λ p, p.2 ≠ None) (zip2 variables last_values))
  else [].

(** What is printed of the change set after KeyboardInterrupt. *)
Definition change_report (show_change_set : bool) (change_set : gset string) : list event :=
  if show_change_set && negb (bool_decide (change_set = ∅))
  then Print "Variables changed:" :: (Print <$> sorted change_set)
  else [].




End Vocabulary.

(** ** A small concrete environment

    A bench on which the handlers can be run: the world is a counter of the
    variable reads answered so far, and the device answers from a fixed
    script. *)

Module Demo.

Definition digit (c : ascii) : option Z :=
  let n := nat_of_ascii c in
  if (Nat.leb 48 n && Nat.leb n 57)%bool then Some (Z.of_nat (n - 48)) else None.

Fixpoint digits (acc : Z) (s : string) : option Z :=
  match s with
  | EmptyString => Some acc
  | String c s' =>
      match digit c with
      | Some d => digits (acc * 10 + d) s'
      | None => None
      end
  end.

(** Decimal integers with an optional minus sign. *)
Definition int (s : string) : option Z :=
  match s with
  | EmptyString => None
  | String c s' =>
      if Ascii.eqb c "-" then
        match s' with
        | EmptyString => None
        | _ => Z.opp <$> digits 0 s'
        end
      else digits 0 s
  end.

(** What the bench device answers to [get_variable(var)] on its [n]-th read:
    [Bad] is unknown to it, [Slow] times out, [Sys.Ticks] counts the reads,
    [Motor[1].AmpFault] trips from the third read on, anything else reads 0. *)
Definition read (var : string) (n : nat) : result string :=
  if String.eqb var "Bad" then Raise (GPError "unknown variable Bad")
  else if String.eqb var "Slow" then Raise (TimeoutError "timed out")
  else if String.eqb var "Sys.Ticks" then Ret (pretty (Z.of_nat n))
  else if String.eqb var "Motor[1].AmpFault" then
    Ret (if Nat.leb 2 n then "1" else "0")
  else Ret "0".

(** The settings file [empty.txt] holds no address list; any other holds
    two addresses. *)
Definition settings_of (settings_file : option string) : gmap string (list string) :=
  if bool_decide (settings_file = Some "empty.txt") then ∅
  else {[ "gather.addr" := ["Sys.ServoCount.a"; "Motor[1].ActPos.a"] ]}.

Definition answer (T : Type) (q : ext T) (w : nat) : result T * nat :=
  match q in ext T return result T * nat with
  | PPComm_init host _ _ _ =>
      if String.eqb host "unreachable" then (Raise (OtherError "error" "no route to host"), w)
      else (Ret (), w)
  | gpascii_channel c => (Ret (channel c w), w)
  | send_line _ _ => (Ret (), w)
  | read_timeout _ _ => (Ret (["ok"], Some (TimeoutError "timed out")), w)
  | get_variable _ var => (read var w, S w)
  | get_variable_float _ _ => (Ret (1 # 2), S w)
  | get_variable_int _ _ => (Ret 0, S w)
  | set_variable _ var value =>
      if String.eqb var "Bad" then (Raise (GPError "unknown variable Bad"), w)
      else (Ret (match value with AStr s => s | _ => "0" end), w)
  | program _ _ _ _ _ => (Ret (), w)
  | shell_command _ _ _ => (Ret [], w)
  | comm_send_line _ _ => (Ret (), w)
  | read_file _ _ => (Ret [], w)
  | send_file _ _ _ => (Ret (), w)
  | remove_file _ _ => (Ret (), w)
  | gather_and_plot _ _ _ _ => (Ret (), w)
  | read_settings_file _ f => (Ret (settings_of f), w)
  | gather_get_gather_results _ _ => (Ret [["0"; "1.5"]; ["1"; "1.6"]], w)
  | gather_data_to_file _ _ _ _ => (Ret (), w)
  | start_completer_from_db _ _ => (Ret (Some (mkCompleter 0 true)), w)
  | start_completer_from_mysql _ _ _ _ => (Ret (Some (mkCompleter 1 true)), w)
  | completer_check _ addr => (Ret (mkNode addr [] true addr None), w)
  | node_search _ _ => (Ret [], w)
  | tune_tune_range _ _ _ values _ => (Ret (None, values), w)
  | tune_custom_tune _ _ _ => (Ret (), w)
  | tune_other_trajectory _ _ _ _ _ _ _ _ _ => (Ret "othertrajectory", w)
  | run_tune_program _ _ => (Ret ([], []), w)
  | plot_tune_results _ _ => (Ret (), w)
  | tune_get_settings _ _ _ => (Ret [], w)
  | copy_settings _ _ _ _ => (Ret (), w)
  | tune_get_columns _ _ _ => (Ret [], w)
  | plot_custom _ _ _ _ _ _ _ _ _ => (Ret (), w)
  | tracking_filter _ _ _ => (Ret (AInt 0, AInt 0), w)
  | os_path_exists _ => (Ret true, w)
  | os_unlink _ => (Ret (), w)
  | open_read _ => (Ret EmptyString, w)
  | np_arange _ _ _ => (Ret [], w)
  | plt_plot _ _ => (Ret (), w)
  | plt_vlines _ _ => (Ret (), w)
  | plt_show => (Ret (), w)
  | time_sleep _ => (Ret (), w)
  end.

#[export] Instance env : Env := {|
  World := nat;
  oracle := answer;
  py_int := int;
  fmt_g3 := λ _, "0";
  str_float := λ _, "0.0";
  motor_status := ["AmpFault"; "Ready"];
  motor_normal := {[ "AmpFault" := 0 ]};
  coord_status := ["ErrorStatus"];
  coord_normal := {[ "ErrorStatus" := 0 ]};
  coord_errors := ∅;
  gather_module_config_file := "/var/ftp/gather/GatherSetting.txt";
  MODULE_PATH := "/opt/ppmac";
  os_path_join := λ a b, a +:+ "/" +:+ b;
  os_path_basename := λ a, a;
  percent_format := λ template _, template;
  py_repr := λ s, "'" +:+ s +:+ "'";
|}.

(** The controller with the default traits of the class, before [__init__]
    has run: not connected, [completer] not assigned. *)
Definition traits (auto_connect use_completer_db : bool) : self.PpmacCore :=
  self.mk "10.0.0.6" "10.0.0.98" 22 "root" "deltatau" auto_connect
    "/var/ftp/gather/GatherSetting.txt" "/var/ftp/gather/GatherFile.txt"
    (442673749446657994 # 1000000000000000000000) use_completer_db "ppmac.db"
    None Unset.

(** A fresh state around a controller. *)
Definition fresh (me : self.PpmacCore) : State := mkState (0%nat : World) me [] ∅.

(** The connection [connect()] builds from the default traits. *)
Definition default_comm : PPComm := mkPPComm "10.0.0.98" 22 "root" "deltatau".

(** A connected controller without completer database. *)
Definition connected : State :=
  fresh (self.with_comm (traits false false) (Some default_comm)).

(** A connected controller whose [completer] is assigned [None]. *)
Definition connected_no_completer : State :=
  fresh (self.with_completer (self.with_comm (traits false true) (Some default_comm)) None).

(** A controller that is not connected and does not connect by itself. *)
Definition disconnected : State := fresh (traits false false).

(** [tune_range --values 1.0] with everything else at its default. *)
Definition tune_range_with_values : tune_range_args :=
  mk_tune_range_args "ramp.txt" 1 1 1 1 false 1 1 "Kp" (Some [1%Q]) None None None.

(** [gather 1.0 1 X Sys.ServoCount]. *)
Definition gather_two : gather_args := mk_gather_args 1 1 ["X"; "Sys.ServoCount"].

End Demo.

(** ** A device on which things go wrong

    The bench of [Demo] with a device that fails where [Demo]'s succeeds:
    the completer database lacks a key, coordinate system 0 is not ready
    to run, a program once started never ends, make reports an error, the
    tune helper and the gather buffer come back empty.  Its completer
    spells every name out in full, under [Sys.]. *)

Module Faulty.

Definition answer (T : Type) (q : ext T) (w : nat) : result T * nat :=
  match q in ext T return result T * nat with
  | start_completer_from_db _ _ =>
      (Raise (KeyError "version"), w)
  | program _ coord _ start _ =>
      if (start && Z.eqb coord 0)%bool then (Raise (GPError "COORD 0 NOT READY TO RUN"), w)
      else (Ret (), w)
  | get_variable_int _ _ => (Ret 1, S w)
  | shell_command _ _ _ => (Ret ["main.c:1:1: Error: expected declaration"], w)
  | tune_tune_range _ _ _ _ _ => (Ret (None, []), w)
  | gather_get_gather_results _ _ => (Ret [], w)
  | completer_check _ addr => (Ret (mkNode ("Sys." +:+ addr) [] true addr None), w)
  | q => Demo.answer _ q w
  end.

#[export] Instance env : Env := {|
  World := nat;
  oracle := answer;
  py_int := Demo.int;
  fmt_g3 := λ _, "0";
  str_float := λ _, "0.0";
  motor_status := ["AmpFault"; "Ready"];
  motor_normal := {[ "AmpFault" := 0 ]};
  coord_status := ["ErrorStatus"];
  coord_normal := {[ "ErrorStatus" := 0 ]};
  coord_errors := ∅;
  gather_module_config_file := "/var/ftp/gather/GatherSetting.txt";
  MODULE_PATH := "/opt/ppmac";
  os_path_join := λ a b, a +:+ "/" +:+ b;
  os_path_basename := λ a, a;
  percent_format := λ template _, template;
  py_repr := λ s, "'" +:+ s +:+ "'";
|}.

(** A connected controller without completer database. *)
Definition connected : State :=
  mkState (0%nat : World)
    (self.with_comm (Demo.traits false false) (Some Demo.default_comm)) [] ∅.

(** A connected controller with a completer in use. *)
Definition connected_with_completer : State :=
  mkState (0%nat : World)
    (self.with_completer (self.with_comm (Demo.traits false true) (Some Demo.default_comm))
       (Some (mkCompleter 0 true))) [] ∅.

End Faulty.

(** * Properties *)

Section Properties.
Context `{Env}.

(** ** The monad *)

Lemma bind_ret {A B} (m : M A) (f : A → M B) s a s' :
  m s = (Ret a, s') → (m ≫= f) s = f a s'.
Proof. intros Hm. unfold mbind, M_bind. by rewrite Hm. Qed.

Lemma bind_raise {A B} (m : M A) (f : A → M B) s e s' :
  m s = (Raise e, s') → (m ≫= f) s = (Raise e, s').
Proof. intros Hm. unfold mbind, M_bind. by rewrite Hm. Qed.

Lemma call_eq {T} (q : ext T) s :
  call q s = ((oracle T q (world s)).1, answered s (oracle T q (world s)).2 [Ext q]).
Proof. unfold call, answered. by destruct (oracle T q (world s)). Qed.

Lemma logged_nil s : logged s [] = s.
Proof. destruct s. unfold logged. simpl. by rewrite app_nil_r. Qed.

Lemma logged_logged s evs1 evs2 : logged (logged s evs1) evs2 = logged s (evs1 ++ evs2).
Proof. unfold logged. simpl. by rewrite app_assoc. Qed.

(** ** Reading variables *)

Lemma get_var_values_from_cons comm cb ret var rest s ret' s1 :
  get_var_values_step comm cb ret var s = (Ret ret', s1) →
  get_var_values_from comm cb ret (var :: rest) s = get_var_values_from comm cb ret' rest s1.
Proof. intros Hstep. simpl. by rewrite (bind_ret _ _ _ _ _ Hstep). Qed.

Lemma get_var_values_from_read comm cb s vars values s' :
  values_read comm cb s vars values s' →
  ∀ ret, get_var_values_from comm cb ret vars s = (Ret (ret ++ values), s').
Proof.
  induction 1 as [s|s var rest e s1 values s2 Hcall He _ IH
                 |s var rest x s1 values s2 -> Hcall _ IH
                 |s var rest x s1 f r s1' values s2 -> Hcall Hf _ IH
                 |s var rest x s1 f e s1' values s2 -> Hcall Hf _ IH]; intros ret.
  - simpl. by rewrite app_nil_r.
  - rewrite (get_var_values_from_cons _ _ _ _ _ _
               (ret ++ [Some ("Error: " +:+ exn_str e)]) s1).
    + rewrite IH. by rewrite <- app_assoc.
    + unfold get_var_values_step, try_else. by rewrite Hcall, He.
  - rewrite (get_var_values_from_cons _ _ _ _ _ _ (ret ++ [Some x]) s1).
    + rewrite IH. by rewrite <- app_assoc.
    + unfold get_var_values_step, try_else. by rewrite Hcall.
  - rewrite (get_var_values_from_cons _ _ _ _ _ _ (ret ++ [r]) s1').
    + rewrite IH. by rewrite <- app_assoc.
    + unfold get_var_values_step, try_else. rewrite Hcall.
      unfold try_except, try_else, mbind, M_bind. by rewrite Hf.
  - rewrite (get_var_values_from_cons _ _ _ _ _ _ (ret ++ [Some x]) s1').
    + rewrite IH. by rewrite <- app_assoc.
    + unfold get_var_values_step, try_else. rewrite Hcall.
      unfold try_except, try_else, mbind, M_bind. by rewrite Hf.
Qed.

Lemma values_read_length comm cb s vars values s' :
  values_read comm cb s vars values s' → length values = length vars.
Proof. induction 1; simpl; congruence. Qed.

Lemma values_read_total comm cb :
  reads_raise_only_listed →
  ∀ vars s, ∃ values s', values_read comm cb s vars values s'.
Proof.
  intros Hdev vars. induction vars as [|var rest IH]; intros s.
  - exists [], s. constructor.
  - destruct (call (get_variable (comm_gpascii comm) var) s) as [[x|e] s1] eqn:Hcall.
    + destruct cb as [f|].
      * destruct (f var x s1) as [[r|e] s1'] eqn:Hf.
        -- destruct (IH s1') as (values & s2 & Hrest).
           exists (r :: values), s2. by eapply values_read_callback.
        -- destruct (IH s1') as (values & s2 & Hrest).
           exists (Some x :: values), s2. by eapply values_read_swallowed.
      * destruct (IH s1) as (values & s2 & Hrest).
        exists (Some x :: values), s2. by eapply values_read_raw.
    + destruct (IH s1) as (values & s2 & Hrest).
      exists (Some ("Error: " +:+ exn_str e) :: values), s2.
      eapply values_read_error; [done| |done].
      unfold call in Hcall.
      destruct (oracle string (get_variable (comm_gpascii comm) var) (world s))
        as [r w] eqn:Ho.
      injection Hcall as -> _. by eapply Hdev.
Qed.

(** C10.  [get_var_values] returns, for every list of names, a list of the
    same length as long as reading a variable raises nothing but GPError
    and TimeoutError; position by position the list holds the text
    ['Error: <exception>'] where the read raised, the raw value where there
    is no callback or the callback raised, and the callback's result
    otherwise. *)
Theorem get_var_values_total comm vars cb s :
  reads_raise_only_listed →
  ∃ values s',
    get_var_values comm vars cb s = (Ret values, s') ∧
    length values = length vars ∧
    values_read comm cb s vars values s'.
Proof.
  intros Hdev. destruct (values_read_total comm cb Hdev vars s) as (values & s' & Hread).
  exists values, s'. split; [|split; [by eapply values_read_length|done]].
  unfold get_var_values. by rewrite (get_var_values_from_read _ _ _ _ _ _ Hread []).
Qed.


(** ** Connection state *)

Lemma check_comm_connected s c :
  self.comm (this s) = Some c → check_comm s = (Ret true, s).
Proof.
  intros Hc. unfold check_comm, mbind, M_bind, get_self, mret, M_ret. simpl.
  rewrite Hc. simpl. rewrite Hc. by rewrite bool_decide_eq_true_2.
Qed.

Lemma check_comm_disconnected s :
  self.comm (this s) = None → self.auto_connect (this s) = false →
  check_comm s = (Ret false, logged s [LogError "Not connected"]).
Proof.
  intros Hc Ha. unfold check_comm, mbind, M_bind, get_self, mret, M_ret, emit. simpl.
  rewrite Hc, Ha. simpl. rewrite Hc. by rewrite bool_decide_eq_false_2; [|intros []].
Qed.

Lemma check_comm_true s s1 :
  check_comm s = (Ret true, s1) → ∃ c, self.comm (this s1) = Some c.
Proof.
  unfold check_comm, mbind, M_bind, get_self, mret, M_ret. simpl.
  match goal with |- context [match ?m s with _ => _ end] => destruct (m s) as [[[]|e] s2] end;
    [|discriminate].
  intros [= Hb <-]. apply bool_decide_eq_true in Hb.
  destruct (self.comm (this s2)) as [c|]; [by exists c|done].
Qed.

Lemma check_comm_false s s1 :
  check_comm s = (Ret false, s1) → self.comm (this s1) = None.
Proof.
  unfold check_comm, mbind, M_bind, get_self, mret, M_ret. simpl.
  match goal with |- context [match ?m s with _ => _ end] => destruct (m s) as [[[]|e] s2] end;
    [|discriminate].
  intros [= Hb <-]. apply bool_decide_eq_false in Hb.
  destruct (self.comm (this s2)) as [c|]; [|done]. by destruct Hb.
Qed.

Lemma the_comm_connected s c :
  self.comm (this s) = Some c → the_comm s = (Ret c, s).
Proof.
  intros Hc. unfold the_comm, mbind, M_bind, get_self. simpl. by rewrite Hc.
Qed.

(** ** Getting and setting one variable *)

Lemma get_var_run s s1 c variable :
  check_comm s = (Ret true, s1) → self.comm (this s1) = Some c →
  let q := get_variable (comm_gpascii c) variable in
  get_var (Some (mk_get_var_args variable)) s =
    match oracle _ q (world s1) with
    | (Ret r, w) => (Ret (), answered s1 w [Ext q; Print (variable +:+ "=" +:+ r)])
    | (Raise e, w) =>
        if is_GPError e then (Ret (), answered s1 w [Ext q; Print (exn_str e)])
        else (Raise e, answered s1 w [Ext q])
    end.
Proof.
  intros Hcheck Hc q. unfold get_var. rewrite (bind_ret _ _ _ _ _ Hcheck). simpl.
  unfold try_except, try_else. rewrite (bind_ret _ _ _ _ _ (the_comm_connected _ _ Hc)).
  unfold mbind, M_bind, call. fold q.
  destruct (oracle string q (world s1)) as [[r|e] w]; simpl.
  - unfold mret, M_ret, print, emit, answered. simpl. by rewrite <- app_assoc.
  - destruct (is_GPError e); [|done].
    unfold print, emit, answered. simpl. by rewrite <- app_assoc.
Qed.

Lemma set_var_run s s1 c variable value :
  check_comm s = (Ret true, s1) → self.comm (this s1) = Some c →
  let q := set_variable (comm_gpascii c) variable (AStr value) in
  set_var (Some (mk_set_var_args variable value)) s =
    match oracle _ q (world s1) with
    | (Ret r, w) => (Ret (), answered s1 w [Ext q; Print (variable +:+ "=" +:+ r)])
    | (Raise e, w) =>
        if is_GPError e then (Ret (), answered s1 w [Ext q; Print (exn_str e)])
        else (Raise e, answered s1 w [Ext q])
    end.
Proof.
  intros Hcheck Hc q. unfold set_var. rewrite (bind_ret _ _ _ _ _ Hcheck). simpl.
  unfold try_except, try_else. rewrite (bind_ret _ _ _ _ _ (the_comm_connected _ _ Hc)).
  unfold mbind, M_bind, call. fold q.
  destruct (oracle string q (world s1)) as [[r|e] w]; simpl.
  - unfold mret, M_ret, print, emit, answered. simpl. by rewrite <- app_assoc.
  - destruct (is_GPError e); [|done].
    unfold print, emit, answered. simpl. by rewrite <- app_assoc.
Qed.

Lemma v_run s s1 c args var value :
  check_comm s = (Ret true, s1) → self.comm (this s1) = Some c →
  v_var_value args s1 = (Ret (var, value), s1) →
  let q := v_request c var value in
  v (Some args) s =
    match oracle _ q (world s1) with
    | (Ret r, w) => (Ret (), answered s1 w [Ext q; Print (var +:+ "=" +:+ r)])
    | (Raise e, w) =>
        if is_GPError e then (Ret (), answered s1 w [Ext q; Print (exn_str e)])
        else (Raise e, answered s1 w [Ext q])
    end.
Proof.
  intros Hcheck Hc Hvv q. unfold v. rewrite (bind_ret _ _ _ _ _ Hcheck). simpl.
  rewrite (bind_ret _ _ _ _ _ Hvv).
  unfold try_except, try_else. rewrite (bind_ret _ _ _ _ _ (the_comm_connected _ _ Hc)).
  unfold q, v_request. destruct value as [value|]; unfold mbind, M_bind, call.
  - destruct (oracle string _ (world s1)) as [[r|e] w]; simpl.
    + unfold mret, M_ret, print, emit, answered. simpl. by rewrite <- app_assoc.
    + destruct (is_GPError e); [|done].
      unfold print, emit, answered. simpl. by rewrite <- app_assoc.
  - destruct (oracle string _ (world s1)) as [[r|e] w]; simpl.
    + unfold mret, M_ret, print, emit, answered. simpl. by rewrite <- app_assoc.
    + destruct (is_GPError e); [|done].
      unfold print, emit, answered. simpl. by rewrite <- app_assoc.
Qed.

(** C7.  When the gpascii call of [get_var], [set_var] or [v] raises
    GPError, the handler prints the exception and returns normally: the
    outcome is an ordinary return, the request and the printed exception
    are the only things added to the log. *)
Theorem GPError_is_caught_and_printed s s1 c msg w :
  check_comm s = (Ret true, s1) → self.comm (this s1) = Some c →
  (∀ variable,
     oracle _ (get_variable (comm_gpascii c) variable) (world s1) = (Raise (GPError msg), w) →
     get_var (Some (mk_get_var_args variable)) s =
       (Ret (), answered s1 w [Ext (get_variable (comm_gpascii c) variable); Print msg])) ∧
  (∀ variable value,
     oracle _ (set_variable (comm_gpascii c) variable (AStr value)) (world s1)
       = (Raise (GPError msg), w) →
     set_var (Some (mk_set_var_args variable value)) s =
       (Ret (), answered s1 w [Ext (set_variable (comm_gpascii c) variable (AStr value));
                               Print msg])) ∧
  (∀ args var value,
     v_var_value args s1 = (Ret (var, value), s1) →
     oracle _ (v_request c var value) (world s1) = (Raise (GPError msg), w) →
     v (Some args) s = (Ret (), answered s1 w [Ext (v_request c var value); Print msg])).
Proof.
  intros Hcheck Hc. repeat split.
  - intros variable Ho. rewrite (get_var_run _ _ _ _ Hcheck Hc). simpl. by rewrite Ho.
  - intros variable value Ho. rewrite (set_var_run _ _ _ _ _ Hcheck Hc). simpl. by rewrite Ho.
  - intros args var value Hvv Ho. rewrite (v_run _ _ _ _ _ _ Hcheck Hc Hvv). simpl.
    by rewrite Ho.
Qed.


(** ** Splitting at a separator *)

Lemma split_head sep s :
  ∃ w ws, PyStr.split sep s = w :: ws ∧ PyStr.contains sep w = false ∧
    ((ws = [] ∧ s = w ∧ PyStr.contains sep s = false) ∨
     (∃ rest, s = w +:+ String sep rest ∧ ws = PyStr.split sep rest ∧
              PyStr.contains sep s = true)).
Proof.
  induction s as [|ch s IH]; simpl.
  - exists EmptyString, []. split; [done|]. split; [done|]. by left.
  - destruct (Ascii.eqb_spec ch sep) as [->|Hne].
    + exists EmptyString, (PyStr.split sep s). split; [done|]. split; [done|].
      right. by exists s.
    + destruct IH as (w & ws & -> & Hw & Hcases).
      exists (String ch w), ws. split; [done|]. split.
      * simpl. destruct (Ascii.eqb_spec ch sep); [done|]. done.
      * destruct Hcases as [(-> & -> & Hs)|(rest & -> & -> & Hs)].
        -- left. by rewrite Hs.
        -- right. exists rest. by rewrite Hs.
Qed.

(** C6.  [v] takes the name from before the first [=] of its first argument
    and the value from between the first and the second [=] (what follows
    a second [=] is dropped); without [=] it takes the two arguments as they
    are.  It then sends one request, a get when the value is None and a set
    otherwise, and prints [var=result] when the request returns. *)
Theorem v_splits_then_gets_or_sets s s1 c args :
  check_comm s = (Ret true, s1) → self.comm (this s1) = Some c →
  ∃ var value,
    v_var_value args s1 = (Ret (var, value), s1) ∧
    (if PyStr.contains "=" (v_variable args) then
       ∃ text, value = Some text ∧
         PyStr.contains "=" var = false ∧ PyStr.contains "=" text = false ∧
         (v_variable args = var +:+ "=" +:+ text ∨
          ∃ dropped, v_variable args = var +:+ "=" +:+ text +:+ "=" +:+ dropped)
     else var = v_variable args ∧ value = v_value args) ∧
    let q := match value with
             | None => get_variable (comm_gpascii c) var
             | Some x => set_variable (comm_gpascii c) var (AStr x)
             end in
    (∃ printed, out (v (Some args) s).2 = out s1 ++ Ext q :: (Print <$> printed)) ∧
    (∀ r w, oracle _ q (world s1) = (Ret r, w) →
       v (Some args) s = (Ret (), answered s1 w [Ext q; Print (var +:+ "=" +:+ r)])).
Proof.
  intros Hcheck Hc.
  assert (∃ var value, v_var_value args s1 = (Ret (var, value), s1) ∧
    (if PyStr.contains "=" (v_variable args) then
       ∃ text, value = Some text ∧
         PyStr.contains "=" var = false ∧ PyStr.contains "=" text = false ∧
         (v_variable args = var +:+ "=" +:+ text ∨
          ∃ dropped, v_variable args = var +:+ "=" +:+ text +:+ "=" +:+ dropped)
     else var = v_variable args ∧ value = v_value args)) as (var & value & Hvv & Hparse).
  { unfold v_var_value.
    destruct (split_head "=" (v_variable args)) as (w & ws & Hsplit & Hw & Hcases).
    destruct Hcases as [(-> & Hs & Hno)|(rest & Hs & -> & Hyes)].
    - rewrite Hno. by exists (v_variable args), (v_value args).
    - rewrite Hyes, Hsplit.
      destruct (split_head "=" rest) as (w2 & ws2 & Hsplit2 & Hw2 & Hcases2).
      rewrite Hsplit2. simpl. exists w, (Some w2). split; [done|].
      exists w2. split; [done|]. split; [done|]. split; [done|].
      destruct Hcases2 as [(_ & -> & _)|(rest2 & Hrest & _ & _)].
      + by left.
      + right. exists rest2. by rewrite Hs, Hrest. }
  exists var, value. split; [done|]. split; [done|]. intros q.
  pose proof (v_run _ _ _ _ _ _ Hcheck Hc Hvv) as Hrun. simpl in Hrun.
  assert (v_request c var value = q) as Hq by (unfold q, v_request; by destruct value).
  rewrite Hq in Hrun. split.
  - rewrite Hrun. destruct (oracle string q (world s1)) as [[r|e] w]; simpl.
    + by exists [var +:+ "=" +:+ r].
    + destruct (is_GPError e); simpl; [by exists [exn_str e]|by exists []].
  - intros r w Ho. by rewrite Hrun, Ho.
Qed.


(** ** What a computation leaves behind *)

Section Steps.
Variable R : State → State → Prop.
Hypothesis R_refl : ∀ s, R s s.
Hypothesis R_trans : ∀ s1 s2 s3, R s1 s2 → R s2 s3 → R s1 s3.

Lemma steps_ret {A} (a : A) : steps R (mret a).
Proof. intros s. apply R_refl. Qed.

Lemma steps_raise {A} e : steps R (raise (A:=A) e).
Proof. intros s. apply R_refl. Qed.

Lemma steps_get_self : steps R get_self.
Proof. intros s. apply R_refl. Qed.

Lemma steps_get_last_values : steps R get_last_values.
Proof. intros s. apply R_refl. Qed.

Lemma steps_bind {A B} (m : M A) (f : A → M B) :
  steps R m → (∀ a, steps R (f a)) → steps R (m ≫= f).
Proof.
  intros Hm Hf s. unfold mbind, M_bind. specialize (Hm s).
  destruct (m s) as [[a|e] s1]; simpl in *; [|done].
  eapply R_trans; [exact Hm|apply Hf].
Qed.

Lemma steps_try_else {A B} (body : M A) handler (orelse : A → M B) :
  steps R body → (∀ e h, handler e = Some h → steps R h) → (∀ a, steps R (orelse a)) →
  steps R (try_else body handler orelse).
Proof.
  intros Hb Hh Ho s. unfold try_else. specialize (Hb s).
  destruct (body s) as [[a|e] s1]; simpl in *.
  - eapply R_trans; [exact Hb|apply Ho].
  - destruct (handler e) as [h|] eqn:He; simpl; [|done].
    eapply R_trans; [exact Hb|by eapply Hh].
Qed.

Lemma steps_try_except {A} (body : M A) handler :
  steps R body → (∀ e h, handler e = Some h → steps R h) →
  steps R (try_except body handler).
Proof. intros Hb Hh. apply steps_try_else; [done|done|]. intros a. apply steps_ret. Qed.

Lemma steps_for_each {A} (l : list A) (body : A → M unit) :
  (∀ x, steps R (body x)) → steps R (for_each l body).
Proof.
  intros Hb. induction l as [|x l IH]; simpl; [apply steps_ret|].
  apply steps_bind; [apply Hb|by intros _].
Qed.

Lemma steps_comprehension {A B} (l : list A) (f : A → M B) :
  (∀ x, steps R (f x)) → steps R (comprehension l f).
Proof.
  intros Hf. induction l as [|x l IH]; simpl; [apply steps_ret|].
  apply steps_bind; [apply Hf|]. intros y.
  apply steps_bind; [apply IH|]. intros ys. apply steps_ret.
Qed.

End Steps.

Lemma extends_refl P s : extends P s s.
Proof. exists []. by rewrite app_nil_r. Qed.

Lemma extends_trans P s1 s2 s3 : extends P s1 s2 → extends P s2 s3 → extends P s1 s3.
Proof.
  intros (evs1 & H1 & HP1) (evs2 & H2 & HP2). exists (evs1 ++ evs2).
  rewrite H2, H1, app_assoc. split; [done|]. by apply Forall_app.
Qed.

Lemma same_comm_refl s : same_comm s s.
Proof. done. Qed.

Lemma same_comm_trans s1 s2 s3 : same_comm s1 s2 → same_comm s2 s3 → same_comm s1 s3.
Proof. unfold same_comm. congruence. Qed.

Lemma steps_emit_extends P ev : P ev → steps (extends P) (emit ev).
Proof. intros HP s. exists [ev]. split; [done|]. by constructor. Qed.

Lemma steps_call_extends P {T} (q : ext T) : P (Ext q) → steps (extends P) (call q).
Proof.
  intros HP s. exists [Ext q]. unfold call.
  destruct (oracle T q (world s)) as [r w]. simpl. split; [done|]. by constructor.
Qed.

Lemma steps_put_self_extends P me : steps (extends P) (put_self me).
Proof. intros s. exists []. simpl. by rewrite app_nil_r. Qed.

Lemma steps_put_last_values_extends P d : steps (extends P) (put_last_values d).
Proof. intros s. exists []. simpl. by rewrite app_nil_r. Qed.

Lemma steps_emit_same_comm ev : steps same_comm (emit ev).
Proof. by intros s. Qed.

Lemma steps_call_same_comm {T} (q : ext T) : steps same_comm (call q).
Proof. intros s. unfold call. by destruct (oracle T q (world s)). Qed.

Lemma steps_set_completer_same_comm c : steps same_comm (set_completer c).
Proof. by intros s. Qed.

End Properties.

(** Breaks a goal [steps R m] down along the structure of [m]; [prim] closes
    the goals about single events and requests. *)
Ltac steps_with refl trans prim :=
  repeat first
    [ prim
    | apply (steps_ret _ refl)
    | apply (steps_raise _ refl)
    | apply (steps_get_self _ refl)
    | apply (steps_get_last_values _ refl)
    | apply (steps_bind _ trans); [|intros ?]
    | apply (steps_try_except _ refl trans); [|intros ? ? ?]
    | apply (steps_try_else _ refl trans); [|intros ? ? ?|intros ?]
    | apply (steps_for_each _ refl trans); intros ?
    | apply (steps_comprehension _ refl trans); intros ?
    | match goal with
      | Heq : (if ?b then _ else _) = Some _ |- _ => destruct b; [|discriminate]; injection Heq as <-
      | Heq : (if ?b then _ else _) = Some _ |- _ => destruct b; [discriminate|]; injection Heq as <-
      | Heq : Some _ = Some _ |- _ => injection Heq as <-
      | |- steps _ (match ?x with _ => _ end) => destruct x
      | |- steps _ (let '(_, _) := ?x in _) => destruct x
      | |- steps _ (if ?b then _ else _) => destruct b
      end ].

Section Connecting.
Context `{Env}.

Lemma open_completer_db_same_comm : steps same_comm open_completer_db.
Proof.
  unfold open_completer_db, print.
  steps_with same_comm_refl same_comm_trans
    ltac:(first [apply steps_emit_same_comm | apply steps_call_same_comm
                | apply steps_set_completer_same_comm]).
Qed.

Lemma open_completer_db_extends P :
  (∀ ev, is_connect_event ev = true → P ev) →
  steps (extends P) open_completer_db.
Proof.
  intros HP. unfold open_completer_db, print, set_completer.
  steps_with (extends_refl P) (extends_trans P)
    ltac:(first [apply steps_emit_extends; by apply HP
                | apply steps_call_extends; by apply HP
                | apply steps_put_self_extends]).
Qed.

Lemma connect_extends P host port user password :
  (∀ ev, is_connect_event ev = true → P ev) →
  steps (extends P) (connect host port user password).
Proof.
  intros HP. unfold connect, set_comm, set_completer.
  steps_with (extends_refl P) (extends_trans P)
    ltac:(first [apply steps_emit_extends; by apply HP
                | apply steps_call_extends; by apply HP
                | apply steps_put_self_extends
                | by apply open_completer_db_extends]).
Qed.

Lemma check_comm_extends P :
  (∀ ev, is_connect_event ev = true → P ev) →
  steps (extends P) check_comm.
Proof.
  intros HP. unfold check_comm.
  steps_with (extends_refl P) (extends_trans P)
    ltac:(first [apply steps_emit_extends; by apply HP
                | by apply connect_extends]).
Qed.

Lemma connect_run host port user password s :
  let host' := default (self.host (this s)) host in
  let port' := default (self.port (this s)) port in
  let user' := default (self.user (this s)) user in
  let password' := default (self.password (this s)) password in
  let q := PPComm_init host' port' user' password' in
  connect host port user password s =
    match oracle _ q (world s) with
    | (Raise e, w) => (Raise e, answered s w [Ext q])
    | (Ret _, w) =>
        let s1 := mkState w (self.with_comm (this s)
                               (Some (mkPPComm host' port' user' password')))
                    (out s ++ [Ext q]) (status_last_values s) in
        if self.use_completer_db (this s)
        then (set_completer None;; open_completer_db) s1
        else (Ret (), s1)
    end.
Proof.
  intros host' port' user' password' q.
  unfold connect, mbind, M_bind, get_self, call, set_comm, put_self, answered. simpl.
  replace (match host with Some h => h | None => self.host (this s) end) with host'
    by (by destruct host).
  replace (match port with Some p => p | None => self.port (this s) end) with port'
    by (by destruct port).
  replace (match user with Some u => u | None => self.user (this s) end) with user'
    by (by destruct user).
  replace (match password with Some p => p | None => self.password (this s) end)
    with password' by (by destruct password).
  fold q. destruct (oracle () q (world s)) as [[[]|e] w]; simpl; [|done].
  by destruct (self.use_completer_db (this s)).
Qed.

Lemma connect_substitutes_stored_values_aux s :
  ∃ rest, out (connect None None None None s).2 =
            out s ++ Ext (PPComm_init (self.host (this s)) (self.port (this s))
                            (self.user (this s)) (self.password (this s))) :: rest.
Proof.
  rewrite connect_run. simpl.
  destruct (oracle _ (PPComm_init _ _ _ _) (world s)) as [[[]|e] w];
    simpl; [|by exists []].
  destruct (self.use_completer_db (this s)); simpl; [|by exists []].
  unfold mbind, M_bind, set_completer, get_self, put_self. simpl.
  match goal with |- context [open_completer_db ?s1] =>
    pose proof (open_completer_db_extends (λ _, True) (λ _ _, I) s1) as (evs & Hout & _);
    destruct (open_completer_db s1) as [r s2] eqn:Hopen
  end.
  simpl in *. exists evs. rewrite Hout. by rewrite <- app_assoc.
Qed.

(** C8.  [connect] first builds the connection from its four arguments,
    each [None] replaced by the stored [self.host], [self.port],
    [self.user], [self.password]; when it returns, [self.comm] is the
    connection built from exactly those values. *)
Theorem connect_substitutes_stored_values host port user password s :
  let host' := default (self.host (this s)) host in
  let port' := default (self.port (this s)) port in
  let user' := default (self.user (this s)) user in
  let password' := default (self.password (this s)) password in
  (∃ rest, out (connect host port user password s).2 =
             out s ++ Ext (PPComm_init host' port' user' password') :: rest) ∧
  ((connect host port user password s).1 = Ret () →
   self.comm (this (connect host port user password s).2) =
     Some (mkPPComm host' port' user' password')).
Proof.
  intros host' port' user' password'. rewrite connect_run. simpl.
  fold host' port' user' password'.
  destruct (oracle _ (PPComm_init host' port' user' password') (world s)) as [[[]|e] w];
    simpl; [|split; [by exists []|done]].
  destruct (self.use_completer_db (this s)); simpl; [|split; [by exists []|done]].
  unfold mbind, M_bind, set_completer, get_self, put_self. simpl.
  match goal with |- context [open_completer_db ?s1] =>
    pose proof (open_completer_db_same_comm s1) as Hcomm;
    pose proof (open_completer_db_extends (λ _, True) (λ _ _, I) s1) as (evs & Hout & _);
    destruct (open_completer_db s1) as [r s2] eqn:Hopen
  end.
  simpl in *. split.
  - exists evs. rewrite Hout. by rewrite <- app_assoc.
  - intros _. by rewrite Hcomm.
Qed.

End Connecting.

Section Copying.
Context `{Env}.

Lemma the_completer_assigned s c :
  self.completer (this s) = Assigned c → the_completer s = (Ret c, s).
Proof.
  intros Hc. unfold the_completer, mbind, M_bind, get_self. simpl. by rewrite Hc.
Qed.

Lemma the_completer_unset s :
  self.completer (this s) = Unset →
  the_completer s =
    (Raise (AttributeError "'PpmacCore' object has no attribute 'completer'"), s).
Proof.
  intros Hc. unfold the_completer, mbind, M_bind, get_self. simpl. by rewrite Hc.
Qed.

(** [servo_copy] with equal motor numbers logs an error and does nothing
    else once the connection is checked; with different motor numbers, a
    connection and an assigned [self.completer] its one request is
    [copy_settings]; it returns at once when there is no connection; and
    where [self.completer] was never assigned it raises AttributeError
    before [copy_settings] is called. *)
Theorem servo_copy_guard s s1 args :
  check_comm s = (Ret true, s1) →
  (servo_copy_motor_from args = servo_copy_motor_to args →
   servo_copy (Some args) s =
     (Ret (), logged s1 [LogError "Destination motor should be different from source motor"])) ∧
  (servo_copy_motor_from args ≠ servo_copy_motor_to args →
   ∀ c completer, self.comm (this s1) = Some c →
     self.completer (this s1) = Assigned completer →
     let q := copy_settings (comm_gpascii c) (servo_copy_motor_from args)
                (servo_copy_motor_to args) completer in
     servo_copy (Some args) s =
       ((oracle _ q (world s1)).1, answered s1 (oracle _ q (world s1)).2 [Ext q])) ∧
  (servo_copy_motor_from args ≠ servo_copy_motor_to args →
   self.completer (this s1) = Unset →
   servo_copy (Some args) s =
     (Raise (AttributeError "'PpmacCore' object has no attribute 'completer'"), s1)).
Proof.
  intros Hcheck. unfold servo_copy. rewrite (bind_ret _ _ _ _ _ Hcheck). simpl.
  split; [|split].
  - intros Heq. by rewrite bool_decide_eq_true_2.
  - intros Hne c completer Hc Hcompl. rewrite bool_decide_eq_false_2 by done.
    rewrite (bind_ret _ _ _ _ _ (the_comm_connected _ _ Hc)).
    rewrite (bind_ret _ _ _ _ _ (the_completer_assigned _ _ Hcompl)).
    by rewrite call_eq.
  - intros Hne Hcompl. rewrite bool_decide_eq_false_2 by done.
    destruct (check_comm_true _ _ Hcheck) as [c Hc].
    rewrite (bind_ret _ _ _ _ _ (the_comm_connected _ _ Hc)).
    by rewrite (bind_raise _ _ _ _ _ (the_completer_unset _ Hcompl)).
Qed.

Lemma servo_copy_not_connected s s1 args :
  check_comm s = (Ret false, s1) → servo_copy args s = (Ret (), s1) ∨ args = None.
Proof.
  intros Hcheck. destruct args as [args|]; [left|by right].
  unfold servo_copy. by rewrite (bind_ret _ _ _ _ _ Hcheck).
Qed.

End Copying.

Section Gathering.
Context `{Env}.

Lemma get_gather_results_run s settings_file (verbose : bool) :
  let s0 := if verbose then logged s [Print "Reading gather settings..."] else s in
  let q := read_settings_file (self.comm (this s)) settings_file in
  get_gather_results settings_file verbose s =
    match oracle _ q (world s) with
    | (Raise e, w) => (Raise e, answered s0 w [Ext q])
    | (Ret settings, w) =>
        match settings !! "gather.addr" with
        | None =>
            (Raise (KeyError (no_addresses settings_file)),
             answered s0 w [Ext q; PrintSettings "settings is" settings])
        | Some addresses =>
            let q2 := gather_get_gather_results (self.comm (this s)) addresses in
            let before := Ext q :: (if verbose
                                    then [PrintNoNewline "Reading gather data... "; Flush]
                                    else []) in
            match oracle _ q2 w with
            | (Raise e, w2) => (Raise e, answered s0 w2 (before ++ [Ext q2]))
            | (Ret data, w2) =>
                (Ret (settings, data),
                 answered s0 w2 (before ++ Ext q2 :: (if verbose then [Print "done"] else [])))
            end
        end
    end.
Proof.
  intros s0 q. unfold get_gather_results, mbind, M_bind, get_self, call, print, emit, raise,
    mret, M_ret, answered, no_addresses. subst s0.
  destruct verbose; simpl; fold q.
  - destruct (oracle _ q (world s)) as [[settings|e] w]; simpl; [|done].
    destruct (settings !! "gather.addr") as [addresses|]; simpl.
    + destruct (oracle _ (gather_get_gather_results _ addresses) w) as [[data|e] w2]; simpl;
        repeat (rewrite <- app_assoc; simpl); done.
    + repeat (rewrite <- app_assoc; simpl); done.
  - destruct (oracle _ q (world s)) as [[settings|e] w]; simpl; [|done].
    destruct (settings !! "gather.addr") as [addresses|]; simpl.
    + destruct (oracle _ (gather_get_gather_results _ addresses) w) as [[data|e] w2]; simpl;
        repeat (rewrite <- app_assoc; simpl); done.
    + repeat (rewrite <- app_assoc; simpl); done.
Qed.


Lemma gather_results_or_log_run settings_file s :
  gather_results_or_log settings_file s =
    match get_gather_results settings_file true s with
    | (Ret r, s') => (Ret (Some r), s')
    | (Raise e, s') =>
        if is_KeyError e then (Ret None, logged s' [LogException e]) else (Raise e, s')
    end.
Proof.
  unfold gather_results_or_log, try_except, try_else, mbind, M_bind.
  destruct (get_gather_results settings_file true s) as [[r|e] s']; simpl; [done|].
  by destruct (is_KeyError e).
Qed.

(** C5.  With [settings] the dictionary read from the settings file,
    [get_gather_results] raises KeyError exactly when [settings] has no key
    ['gather.addr']; otherwise it returns [settings] paired with the data
    retrieved for [settings['gather.addr']].  Its callers [gather_save],
    [tune_plot] and [gather_plot] catch KeyError and nothing else, log it
    and return: the log ends with the logged exception, nothing is saved or
    plotted. *)
Theorem get_gather_results_KeyError s settings_file verbose settings w :
  let q := read_settings_file (self.comm (this s)) settings_file in
  oracle _ q (world s) = (Ret settings, w) →
  (∀ addresses, settings !! "gather.addr" = Some addresses →
     ∃ data w2, oracle _ (gather_get_gather_results (self.comm (this s)) addresses) w
                = (Ret data, w2)) →
  ((∃ msg, (get_gather_results settings_file verbose s).1 = Raise (KeyError msg)) ↔
   settings !! "gather.addr" = None) ∧
  (∀ addresses data w2,
     settings !! "gather.addr" = Some addresses →
     oracle _ (gather_get_gather_results (self.comm (this s)) addresses) w = (Ret data, w2) →
     (get_gather_results settings_file verbose s).1 = Ret (settings, data)) ∧
  (∀ sf s0, gather_results_or_log sf s0 =
     match get_gather_results sf true s0 with
     | (Ret r, s') => (Ret (Some r), s')
     | (Raise e, s') =>
         if is_KeyError e then (Ret None, logged s' [LogException e]) else (Raise e, s')
     end) ∧
  (settings !! "gather.addr" = None →
   let s' := answered s w [Print "Reading gather settings..."; Ext q;
                           PrintSettings "settings is" settings;
                           LogException (KeyError (no_addresses settings_file))] in
   ∀ s0, check_comm s0 = (Ret true, s) →
     (∀ args, gather_save_settings_file args = settings_file →
        gather_save (Some args) s0 = (Ret (), s')) ∧
     (∀ args, tune_plot_settings_file args = settings_file →
        tune_plot (Some args) s0 = (Ret (), s')) ∧
     (∀ args, gather_plot_settings_file args = settings_file →
        gather_plot (Some args) s0 = (Ret (), s'))).
Proof.
  intros q Hread Hdata.
  assert (settings !! "gather.addr" = None →
          gather_results_or_log settings_file s =
            (Ret None, answered s w [Print "Reading gather settings..."; Ext q;
                                     PrintSettings "settings is" settings;
                                     LogException (KeyError (no_addresses settings_file))]))
    as Hlog.
  { intros Hnone. rewrite gather_results_or_log_run, get_gather_results_run. simpl.
    fold q. rewrite Hread, Hnone. simpl. unfold logged, answered. simpl.
    by repeat (rewrite <- app_assoc; simpl). }
  split; [|split; [|split]].
  - rewrite get_gather_results_run. simpl. fold q. rewrite Hread.
    destruct (settings !! "gather.addr") as [addresses|] eqn:Hkey; simpl.
    + destruct (Hdata addresses eq_refl) as (data & w2 & ->). simpl.
      split; [by intros [msg ?]|done].
    + split; [done|]. intros _. by eexists.
  - intros addresses data w2 Hkey Ho. rewrite get_gather_results_run. simpl. fold q.
    by rewrite Hread, Hkey, Ho.
  - apply gather_results_or_log_run.
  - intros Hnone s' s0 Hcheck. specialize (Hlog Hnone). repeat split.
    + intros args <-. unfold gather_save. rewrite (bind_ret _ _ _ _ _ Hcheck). simpl.
      by rewrite (bind_ret _ _ _ _ _ Hlog).
    + intros args <-. unfold tune_plot. rewrite (bind_ret _ _ _ _ _ Hcheck). simpl.
      by rewrite (bind_ret _ _ _ _ _ Hlog).
    + intros args <-. unfold gather_plot. rewrite (bind_ret _ _ _ _ _ Hcheck). simpl.
      by rewrite (bind_ret _ _ _ _ _ Hlog).
Qed.

End Gathering.

Section GatherAddresses.
Context `{Env}.

Lemma endswith_unfold s suffix :
  PyStr.endswith s suffix =
    if String.eqb s suffix then true
    else match s with
         | EmptyString => false
         | String _ s' => PyStr.endswith s' suffix
         end.
Proof. by destruct s. Qed.

Lemma endswith_refl s : PyStr.endswith s s = true.
Proof. by rewrite endswith_unfold, String.eqb_refl. Qed.

Lemma endswith_app p s : PyStr.endswith (p +:+ s) s = true.
Proof.
  induction p as [|c p IH]; [apply endswith_refl|].
  rewrite endswith_unfold. change (String c p +:+ s) with (String c (p +:+ s)).
  cbv iota. rewrite IH. by destruct (String.eqb _ _).
Qed.

Lemma add_suffix_endswith addr : PyStr.endswith (add_suffix addr) ".a" = true.
Proof.
  unfold add_suffix. destruct (PyStr.endswith addr ".a") eqn:He; [done|].
  apply endswith_app.
Qed.

Lemma connect_event_passes_nothing ev :
  is_connect_event ev = true → passed_addresses ev = None.
Proof. destruct ev as [| | | | | | | |T q]; try done. by destruct q. Qed.

Lemma fix_addr_extends addr :
  steps (extends (λ ev, passed_addresses ev = None)) (fix_addr addr).
Proof.
  unfold fix_addr, the_completer.
  steps_with (extends_refl (λ ev, passed_addresses ev = None))
             (extends_trans (λ ev, passed_addresses ev = None))
    ltac:(by apply steps_call_extends).
Qed.

Lemma fix_addr_result addr s fixed s' :
  fix_addr addr s = (Ret fixed, s') →
  this s' = this s ∧
  ∃ checked,
    fixed = add_suffix checked ∧
    ((∃ c node, self.completer (this s) = Assigned (Some c) ∧ completer_bool c = true ∧
                oracle _ (completer_check c addr) (world s) = (Ret node, world s') ∧
                checked = node_str node) ∨
     ((self.completer (this s) = Assigned None ∨
       ∃ c, self.completer (this s) = Assigned (Some c) ∧ completer_bool c = false) ∧
      checked = addr ∧ world s' = world s)).
Proof.
  unfold fix_addr, the_completer, mbind, M_bind, get_self, raise, mret, M_ret. simpl.
  destruct (self.completer (this s)) as [|[c|]] eqn:Hcompleter; simpl; [done| |].
  - destruct (completer_bool c) eqn:Hbool.
    + unfold call. destruct (oracle _ (completer_check c addr) (world s)) as [[node|e] w] eqn:Ho;
        simpl; [|done].
      intros [= <- <-]. split; [done|]. exists (node_str node). split.
      * unfold add_suffix. by destruct (PyStr.endswith (node_str node) ".a").
      * left. by exists c, node.
    + intros [= <- <-]. split; [done|]. exists addr. split.
      * unfold add_suffix. by destruct (PyStr.endswith addr ".a").
      * right. split; [|done]. right. by exists c.
  - intros [= <- <-]. split; [done|]. exists addr. split.
    + unfold add_suffix. by destruct (PyStr.endswith addr ".a").
    + right. split; [by left|done].
Qed.

Lemma fix_addr_all addresses :
  ∀ s fixed s', comprehension addresses fix_addr s = (Ret fixed, s') →
  ∃ checked,
    addresses_checked (self.completer (this s)) (world s) addresses checked (world s') ∧
    fixed = add_suffix <$> checked.
Proof.
  induction addresses as [|addr rest IH]; intros s fixed s'; simpl.
  - intros [= <- <-]. exists []. split; [constructor|done].
  - unfold mbind, M_bind.
    destruct (fix_addr addr s) as [[a|e] s1] eqn:Hfix; [|done].
    destruct (comprehension rest fix_addr s1) as [[l|e] s2] eqn:Hrest; [|done].
    intros [= <- <-].
    destruct (fix_addr_result _ _ _ _ Hfix) as (Hthis & c & -> & Hcases).
    destruct (IH _ _ _ Hrest) as (cs & Hcs & ->). rewrite Hthis in Hcs.
    exists (c :: cs). split; [|done].
    destruct Hcases as [(compl & node & Hcompl & Hbool & Ho & ->)|(Hnone & -> & Hw)].
    + by eapply addresses_checked_by_completer.
    + rewrite Hw in Hcs. by apply addresses_checked_as_given.
Qed.

Lemma the_comm_state s : (the_comm s).2 = s.
Proof.
  unfold the_comm, mbind, M_bind, get_self. simpl.
  by destruct (self.comm (this s)).
Qed.

Lemma events_of_extends {A} (m : M A) s evs :
  out (m s).2 = out s ++ evs → events_of m s = evs.
Proof. intros Hout. unfold events_of. rewrite Hout. by rewrite drop_app_length. Qed.

(** C4, as the code has it.  The address list that [gather] passes to
    [gather_and_plot] holds only addresses that end in [.a], it holds
    [Sys.ServoCount.a], and it is the list of the user's addresses after
    [fix_addr] (the completer's spelling where a completer is in use, [.a]
    appended where it is lacking), with [Sys.ServoCount.a] put in front
    when that list of fixed addresses does not hold it.  The completer is
    the one the controller holds once [check_comm] has returned: with a
    completer in use every address is checked, in the order given, and the
    spelling that comes back is taken; without one the addresses are taken
    as given. *)
Theorem gather_address_list s args ev addr :
  ev ∈ events_of (gather (Some args)) s → passed_addresses ev = Some addr →
  Forall (λ a, PyStr.endswith a ".a" = true) addr ∧
  "Sys.ServoCount.a" ∈ addr ∧
  ∃ s1 checked w,
    check_comm s = (Ret true, s1) ∧
    addresses_checked (self.completer (this s1)) (world s1) (gather_addresses args)
      checked w ∧
    let fixed := add_suffix <$> checked in
    addr = if bool_decide ("Sys.ServoCount.a" ∈ fixed) then fixed
           else "Sys.ServoCount.a" :: fixed.
Proof.
  set (P := λ ev : event, passed_addresses ev = None).
  intros Hev Hpassed.
  assert (∀ evs, Forall P evs → ev ∉ evs) as Hnot.
  { intros evs HP Hin. rewrite Forall_forall in HP. specialize (HP _ Hin).
    unfold P in HP. congruence. }
  destruct (check_comm_extends P connect_event_passes_nothing s) as (evs1 & Hout1 & HP1).
  unfold gather in Hev.
  destruct (check_comm s) as [[ok|e] s1] eqn:Hcheck; simpl in Hout1.
  2:{ rewrite (events_of_extends _ _ evs1) in Hev; [by destruct (Hnot evs1)|].
      by rewrite (bind_raise _ _ _ _ _ Hcheck). }
  destruct ok.
  2:{ rewrite (events_of_extends _ _ evs1) in Hev; [by destruct (Hnot evs1)|].
      by rewrite (bind_ret _ _ _ _ _ Hcheck). }
  pose proof (steps_comprehension _ (extends_refl P) (extends_trans P)
                (gather_addresses args) fix_addr fix_addr_extends s1) as (evs2 & Hout2 & HP2).
  destruct (comprehension (gather_addresses args) fix_addr s1) as [[fixed|e] s2] eqn:Hfix;
    simpl in Hout2.
  2:{ rewrite (events_of_extends _ _ (evs1 ++ evs2)) in Hev.
      - destruct (Hnot (evs1 ++ evs2)); [by apply Forall_app|done].
      - rewrite (bind_ret _ _ _ _ _ Hcheck). simpl.
        rewrite (bind_raise _ _ _ _ _ Hfix). simpl.
        by rewrite Hout2, Hout1, app_assoc. }
  destruct (fix_addr_all _ _ _ _ Hfix) as (checked & Hchecked & ->).
  set (fixed := add_suffix <$> checked) in *.
  set (passed := if bool_decide ("Sys.ServoCount.a" ∉ fixed)
                 then "Sys.ServoCount.a" :: fixed else fixed).
  assert (ev ∈ evs1 ++ evs2 ∨
          ∃ c d p, ev = Ext (gather_and_plot c passed d p)) as [Hin|(c & d & p & ->)].
  { pose proof (the_comm_state s2) as Hst.
    destruct (the_comm s2) as [[c|e] s3] eqn:Hcomm; simpl in Hst; subst s3.
    - right. exists c, (gather_duration args), (gather_period args).
      rewrite (events_of_extends _ _
                 (evs1 ++ evs2 ++ [Ext (gather_and_plot c passed (gather_duration args)
                                          (gather_period args))])) in Hev.
      + rewrite !elem_of_app in Hev. destruct Hev as [Hin|[Hin|Hin]].
        * by destruct (Hnot evs1).
        * by destruct (Hnot evs2).
        * by apply list_elem_of_singleton in Hin.
      + rewrite (bind_ret _ _ _ _ _ Hcheck). simpl.
        rewrite (bind_ret _ _ _ _ _ Hfix). simpl.
        rewrite (bind_ret _ _ _ _ _ Hcomm). rewrite call_eq. simpl.
        by rewrite Hout2, Hout1, !app_assoc.
    - left. rewrite (events_of_extends _ _ (evs1 ++ evs2)) in Hev; [done|].
      rewrite (bind_ret _ _ _ _ _ Hcheck). simpl.
      rewrite (bind_ret _ _ _ _ _ Hfix). simpl.
      rewrite (bind_raise _ _ _ _ _ Hcomm). simpl.
      by rewrite Hout2, Hout1, app_assoc. }
  { destruct (Hnot (evs1 ++ evs2)); [by apply Forall_app|done]. }
  simpl in Hpassed. injection Hpassed as <-.
  assert (Forall (λ a, PyStr.endswith a ".a" = true) fixed) as Hfixed.
  { unfold fixed. apply Forall_fmap, Forall_true. intros a. apply add_suffix_endswith. }
  unfold passed. case_bool_decide as Hmem.
  - split; [by constructor|]. split; [by left|].
    exists s1, checked, (world s2). split; [done|]. split; [done|].
    simpl. fold fixed. by rewrite bool_decide_eq_false_2.
  - split; [done|]. split; [done|].
    exists s1, checked, (world s2). split; [done|]. split; [done|].
    simpl. fold fixed. by rewrite bool_decide_eq_true_2.
Qed.

End GatherAddresses.

Section Polling.
Context `{Env}.

Lemma monitor_compare_run triples change_set s :
  let pairs := (λ '(var, _, new_value), (var, new_value)) <$>
                 filter (λ t, is_printed t = true) triples in
  monitor_compare triples change_set s =
    (Ret (list_to_set pairs.*1 ∪ change_set), logged s (print_events pairs)).
Proof.
  revert change_set s. induction triples as [|[[var old_value] new_value] rest IH];
    intros change_set s; simpl.
  - rewrite logged_nil. unfold mret, M_ret. by rewrite (left_id_L ∅ (∪)).
  - rewrite filter_cons. unfold is_printed at 1.
    destruct new_value as [x|]; simpl.
    + case_bool_decide as Hne; simpl.
      * unfold mbind, M_bind, print, emit. simpl. rewrite IH. unfold logged. simpl.
        rewrite <- app_assoc. simpl. f_equal. f_equal.
        match goal with
        | |- ?A ∪ _ = _ ∪ ?B ∪ _ => change B with A; generalize A
        end.
        intros A. set_solver.
      * apply IH.
    + apply IH.
Qed.

Lemma printed_in_turn_unchanged variables last_values values var :
  (∀ i, variables !! i = Some var → values !! i = last_values !! i) →
  var ∉ (printed_in_turn variables last_values values).*1.
Proof.
  intros Hsame Hin. unfold printed_in_turn in Hin.
  apply list_elem_of_fmap in Hin as ([var' value] & -> & Hin).
  apply list_elem_of_fmap in Hin as ([[var'' old_value] new_value] & [= <- <-] & Hin).
  apply list_elem_of_filter in Hin as [Hprinted Hin]. simpl in *.
  unfold zip3 in Hin. apply list_elem_of_lookup in Hin as [i Hi].
  apply lookup_zip_with_Some in Hi as ([var0 old0] & new0 & [= <- <- <-] & Hi & Hnew).
  apply lookup_zip_with_Some in Hi as (var0 & old0 & [= <- <-] & Hvar & Hold).
  specialize (Hsame i Hvar). rewrite Hnew, Hold in Hsame. injection Hsame as ->.
  unfold is_printed in Hprinted. apply andb_true_iff in Hprinted as [_ Hne].
  by apply bool_decide_eq_true in Hne.
Qed.

Lemma printed_in_turns_unchanged variables history :
  ∀ last_values var,
    (∀ values i, values ∈ history → variables !! i = Some var →
                 values !! i = last_values !! i) →
    var ∉ (printed_in_turns variables last_values history).*1.
Proof.
  induction history as [|values rest IH]; intros last_values var Hsame; simpl.
  - by intros ?%elem_of_nil.
  - rewrite fmap_app, not_elem_of_app. split.
    + apply printed_in_turn_unchanged. intros i Hi. apply Hsame; [by left|done].
    + apply IH. intros values' i Hin Hi.
      rewrite (Hsame values' i) by (by right || done).
      symmetry. apply Hsame; [by left|done].
Qed.

Lemma monitor_loop_polled comm variables cb fuel :
  ∀ last_values change_set s change_set' s',
    monitor_loop fuel comm variables cb last_values change_set s = (Ret change_set', s') →
    ∃ history,
      polled comm variables cb fuel s last_values history s' ∧
      change_set' =
        list_to_set (printed_in_turns variables last_values history).*1 ∪ change_set.
Proof.
  induction fuel as [|fuel IH]; intros last_values change_set s change_set' s'; simpl.
  - intros [= <- <-]. exists []. split; [constructor|]. simpl. set_solver.
  - unfold try_else.
    destruct (get_var_values comm variables cb s) as [[values|e] s1] eqn:Hread.
    + unfold mbind, M_bind. rewrite monitor_compare_run. simpl.
      fold (printed_in_turn variables last_values values).
      intros Hloop. apply IH in Hloop as (history & Hpolled & ->).
      exists (values :: history). split; [by eapply polled_turn|].
      simpl. rewrite fmap_app, list_to_set_app_L. set_solver.
    + destruct e; simpl; try done.
      intros [= <- <-]. exists []. split; [by constructor|]. simpl. set_solver.
Qed.

Lemma monitor_loop_returns comm variables cb fuel :
  reads_raise_only_listed →
  ∀ last_values change_set s,
    ∃ change_set' s',
      monitor_loop fuel comm variables cb last_values change_set s = (Ret change_set', s').
Proof.
  intros Hdev. induction fuel as [|fuel IH]; intros last_values change_set s; simpl.
  - by eexists _, _.
  - destruct (values_read_total comm cb Hdev variables s) as (values & s1 & Hread).
    pose proof (get_var_values_from_read _ _ _ _ _ _ Hread []) as Hrun.
    unfold try_else, get_var_values. rewrite Hrun. simpl.
    unfold mbind, M_bind. rewrite monitor_compare_run. simpl. apply IH.
Qed.

Lemma for_each_print_lines (lines : list string) s :
  for_each lines print s = (Ret (), logged s (Print <$> lines)).
Proof.
  revert s. induction lines as [|line lines IH]; intros s; simpl.
  - by rewrite logged_nil.
  - unfold mbind, M_bind, print, emit. simpl.
    fold (for_each lines print). unfold print in IH. rewrite IH. unfold logged. simpl.
    by rewrite <- app_assoc.
Qed.

Lemma for_each_print_if_not_None (pairs : list (string * pyvalue)) s :
  for_each pairs (λ '(var, value), print_if_not_None var value) s =
    (Ret (), logged s (print_events (filter (λ p, p.2 ≠ None) pairs))).
Proof.
  revert s. induction pairs as [|[var value] pairs IH]; intros s; simpl.
  - by rewrite logged_nil.
  - unfold mbind, M_bind. rewrite filter_cons. destruct value as [x|]; simpl.
    + unfold print, emit. simpl. rewrite IH. unfold logged. simpl.
      by rewrite <- app_assoc.
    + by rewrite IH.
Qed.

Lemma monitor_variables_run comm variables cb fuel comm_arg show_change_set show_initial s :
  comm_arg = Some comm ∨ (comm_arg = None ∧ self.comm (this s) = Some comm) →
  monitor_variables fuel variables comm_arg cb show_change_set show_initial s =
    match get_var_values comm variables cb s with
    | (Raise e, s1) => (Raise e, s1)
    | (Ret last_values, s1) =>
        match monitor_loop fuel comm variables cb last_values ∅
                (logged s1 (initial_report show_initial variables last_values)) with
        | (Raise e, s2) => (Raise e, s2)
        | (Ret change_set, s2) => (Ret (), logged s2 (change_report show_change_set change_set))
        end
    end.
Proof.
  intros Hcomm. unfold monitor_variables.
  assert (∀ B (f : PPComm → M B),
            (match comm_arg with
             | Some c => mret c
             | None =>
                 me ← get_self;
                 match self.comm me with
                 | Some c => mret c
                 | None => raise (ValueError "PpmacCore comm not connected")
                 end
             end ≫= f) s = f comm s) as ->.
  { intros B f. destruct Hcomm as [->|[-> Hc]]; [done|].
    unfold mbind, M_bind, get_self. by rewrite Hc. }
  unfold mbind at 1, M_bind at 1.
  destruct (get_var_values comm variables cb s) as [[last_values|e] s1]; [|done].
  assert ((if show_initial
           then for_each (zip2 variables last_values)
                  (λ '(var, value), print_if_not_None var value)
           else mret ()) s1 =
          (Ret (), logged s1 (initial_report show_initial variables last_values))) as Hinitial.
  { unfold initial_report. destruct show_initial.
    - apply for_each_print_if_not_None.
    - by rewrite logged_nil. }
  rewrite (bind_ret _ _ _ _ _ Hinitial). unfold mbind at 1, M_bind at 1.
  destruct (monitor_loop fuel comm variables cb last_values ∅ _) as [[change_set|e] s2];
    [|done].
  unfold change_report.
  destruct (show_change_set && negb (bool_decide (change_set = ∅))).
  - unfold mbind, M_bind, print at 1, emit at 1.
    rewrite for_each_print_lines. unfold logged. simpl. by rewrite <- app_assoc.
  - by rewrite logged_nil.
Qed.

(** C3.  [monitor_variables] reads the variables once, reports that initial
    read, and then polls: in every turn of the polling loop the values are
    read anew and a variable is printed exactly when its new value is not
    None and differs from the value read the turn before (in the first turn:
    from the initial read); the printed variables are added to the change
    set, which starts empty and is what the summary after the interrupt
    shows; the next turn compares with the values just read.  A variable
    whose value stays what the initial read gave is not printed by the loop
    and does not enter the change set.  The loop runs all its turns, and
    [monitor_variables] returns, as long as reads raise nothing but GPError
    and TimeoutError. *)
Theorem monitor_prints_exactly_the_changes comm variables cb :
  (∀ last_values values change_set s,
     monitor_compare (zip3 variables last_values values) change_set s =
       (Ret (list_to_set (printed_in_turn variables last_values values).*1 ∪ change_set),
        logged s (print_events (printed_in_turn variables last_values values)))) ∧
  (∀ fuel last_values change_set s change_set' s',
     monitor_loop fuel comm variables cb last_values change_set s = (Ret change_set', s') →
     ∃ history,
       polled comm variables cb fuel s last_values history s' ∧
       change_set' =
         list_to_set (printed_in_turns variables last_values history).*1 ∪ change_set) ∧
  (∀ last_values history var,
     (∀ values i, values ∈ history → variables !! i = Some var →
                  values !! i = last_values !! i) →
     var ∉ (printed_in_turns variables last_values history).*1) ∧
  (reads_raise_only_listed →
   ∀ fuel last_values change_set s,
     ∃ change_set' s',
       monitor_loop fuel comm variables cb last_values change_set s = (Ret change_set', s')) ∧
  (∀ fuel comm_arg show_change_set show_initial s s3,
     comm_arg = Some comm ∨ (comm_arg = None ∧ self.comm (this s) = Some comm) →
     monitor_variables fuel variables comm_arg cb show_change_set show_initial s
       = (Ret (), s3) →
     ∃ last_values s1 history s2,
       get_var_values comm variables cb s = (Ret last_values, s1) ∧
       polled comm variables cb fuel
         (logged s1 (initial_report show_initial variables last_values))
         last_values history s2 ∧
       s3 = logged s2 (change_report show_change_set
                         (list_to_set (printed_in_turns variables last_values history).*1)) ∧
       ∀ var,
         (∀ values i, values ∈ history → variables !! i = Some var →
                      values !! i = last_values !! i) →
         var ∉ (printed_in_turns variables last_values history).*1) ∧
  (reads_raise_only_listed →
   ∀ fuel comm_arg show_change_set show_initial s,
     comm_arg = Some comm ∨ (comm_arg = None ∧ self.comm (this s) = Some comm) →
     ∃ s3, monitor_variables fuel variables comm_arg cb show_change_set show_initial s
             = (Ret (), s3)).
Proof.
  split; [|split; [|split; [|split; [|split]]]].
  - intros. apply monitor_compare_run.
  - intros fuel. apply monitor_loop_polled.
  - intros. by apply printed_in_turns_unchanged.
  - intros Hdev fuel. by apply monitor_loop_returns.
  - intros fuel comm_arg show_change_set show_initial s s3 Hcomm.
    rewrite (monitor_variables_run comm) by done.
    destruct (get_var_values comm variables cb s) as [[last_values|e] s1]; [|done].
    destruct (monitor_loop fuel comm variables cb last_values ∅ _) as [[change_set|e] s2]
      eqn:Hloop; [|done].
    intros [= <-]. apply monitor_loop_polled in Hloop as (history & Hpolled & ->).
    exists last_values, s1, history, s2. split; [done|]. split; [done|]. split.
    + by rewrite (right_id_L ∅ (∪)).
    + intros var. apply printed_in_turns_unchanged.
  - intros Hdev fuel comm_arg show_change_set show_initial s Hcomm.
    rewrite (monitor_variables_run comm) by done.
    destruct (values_read_total comm cb Hdev variables s) as (last_values & s1 & Hread).
    pose proof (get_var_values_from_read _ _ _ _ _ _ Hread []) as Hrun.
    unfold get_var_values. rewrite Hrun. simpl.
    destruct (monitor_loop_returns comm variables cb fuel Hdev last_values ∅
                (logged s1 (initial_report show_initial variables last_values)))
      as (change_set & s2 & ->).
    by eexists.
Qed.

End Polling.

Section Status.
Context `{Env}.

Lemma split_last sep s : is_Some (PyStr.last_item (PyStr.split sep s)).
Proof.
  destruct (split_head sep s) as (w & ws & -> & _). unfold PyStr.last_item.
  rewrite last_cons. destruct (last ws); by eexists.
Qed.

Lemma got_value_run normal additional var value s :
  let k := short_name var in
  got_value normal false (Some additional) var value s =
    if bool_decide (k ∈ additional) then (Ret (Some value), stored s k (Some value))
    else match normal !! k with
         | None =>
             (Raise (UnboundLocalError
                       "local variable 'ret' referenced before assignment"), s)
         | Some normal_value =>
             match py_int value with
             | None => (Raise (ValueError "invalid literal for int() with base 10"), s)
             | Some n =>
                 if bool_decide (n = normal_value) then
                   match last_value_of s k with
                   | Some _ => (Ret (Some value), stored s k (Some value))
                   | None => (Ret None, stored s k None)
                   end
                 else (Ret (Some value), stored s k (Some value))
             end
         end.
Proof.
  intros k. unfold got_value, k, short_name.
  destruct (split_last "." var) as [x Hx]. rewrite Hx. simpl.
  unfold mbind, M_bind, mret, M_ret, raise, get_last_values, put_last_values, stored,
    last_value_of. simpl.
  case_bool_decide; simpl; [done|].
  destruct (normal !! x) as [normal_value|]; simpl; [|done].
  destruct (py_int value) as [n|]; simpl; [|done].
  case_bool_decide; simpl; [|done].
  by destruct (default None (status_last_values s !! x)).
Qed.

Lemma got_value_last_value normal additional var value s k :
  let rs := got_value normal false (Some additional) var value s in
  if decide (k = short_name var)
  then last_value_of rs.2 k ≠ None ↔ last_value_of s k ≠ None ∨ ∃ x, rs.1 = Ret (Some x)
  else last_value_of rs.2 k = last_value_of s k.
Proof.
  simpl. rewrite got_value_run. simpl.
  assert (∀ r, last_value_of (stored s (short_name var) r) (short_name var) = r) as Hsame.
  { intros r. unfold last_value_of, stored. simpl. by rewrite lookup_insert_eq. }
  assert (∀ r, k ≠ short_name var →
               last_value_of (stored s (short_name var) r) k = last_value_of s k) as Hother.
  { intros r Hk. unfold last_value_of, stored. simpl. by rewrite lookup_insert_ne. }
  destruct (decide (k = short_name var)) as [->|Hk].
  - repeat (case_bool_decide || case_match); simpl; rewrite ?Hsame; naive_solver.
  - repeat (case_bool_decide || case_match); simpl; rewrite ?Hother; done.
Qed.

Lemma run_calls_last_value normal additional calls :
  ∀ s k,
    let cb := got_value normal false (Some additional) in
    last_value_of (run_calls cb calls s).2 k ≠ None ↔
      last_value_of s k ≠ None ∨
      ∃ i var value x, calls !! i = Some (var, value) ∧ short_name var = k ∧
                       (run_calls cb calls s).1 !! i = Some (Ret (Some x)).
Proof.
  induction calls as [|[var value] rest IH]; intros s k; simpl.
  - split; [by left|]. intros [?|(i & ? & ? & ? & Hi & _)]; [done|].
    by rewrite lookup_nil in Hi.
  - pose proof (got_value_last_value normal additional var value s k) as Hstep.
    simpl in Hstep.
    destruct (got_value normal false (Some additional) var value s) as [r s1] eqn:Hcall.
    specialize (IH s1 k). simpl in IH.
    destruct (run_calls (got_value normal false (Some additional)) rest s1) as [rs s2]
      eqn:Hrest.
    simpl in *. rewrite IH. clear IH. split.
    + intros [Hs1|(i & var' & value' & x & Hi & Hk & Hr)].
      * destruct (decide (k = short_name var)) as [->|Hne].
        -- apply Hstep in Hs1 as [?|[x ->]]; [by left|].
           right. by exists 0%nat, var, value, x.
        -- left. by rewrite <- Hstep.
      * right. by exists (S i), var', value', x.
    + intros [Hs|(i & var' & value' & x & Hi & Hk & Hr)].
      * left. destruct (decide (k = short_name var)) as [->|Hne].
        -- apply Hstep. by left.
        -- by rewrite Hstep.
      * destruct i as [|i]; simpl in *.
        -- injection Hi as <- <-. injection Hr as ->. left.
           rewrite decide_True in Hstep by done. apply Hstep. right. by exists x.
        -- right. by exists i, var', value', x.
Qed.

(** C2.  Without [--all], for a variable whose short name is in the table
    of normal values and not in [additional]: after any sequence of earlier
    calls of the closure, [got_value] returns None exactly when [int(value)]
    is the normal value and no earlier call for that short name returned a
    value; a value whose integer differs from the normal one is returned as
    it is; and whatever is not the normal value, unparsable text included,
    ends up in the list of [get_var_values] unsuppressed.  [mstatus] uses
    the closure with [motor_normal], [cstatus] with [coord_normal]. *)
Theorem got_value_hides_only_normal normal additional calls s0 var value normal_value :
  status_last_values s0 = ∅ →
  normal !! short_name var = Some normal_value →
  short_name var ∉ additional →
  let cb := got_value normal false (Some additional) in
  let results := (run_calls cb calls s0).1 in
  let s := (run_calls cb calls s0).2 in
  ((cb var value s).1 = Ret None ↔
   py_int value = Some normal_value ∧
   ∀ i var' value' x,
     calls !! i = Some (var', value') → short_name var' = short_name var →
     results !! i ≠ Some (Ret (Some x))) ∧
  (∀ n, py_int value = Some n → n ≠ normal_value → (cb var value s).1 = Ret (Some value)) ∧
  (∀ comm ret w,
     oracle _ (get_variable (comm_gpascii comm) var) (world s) = (Ret value, w) →
     py_int value ≠ Some normal_value →
     (get_var_values_step comm (Some cb) ret var s).1 = Ret (ret ++ [Some value])).
Proof.
  intros Hempty Hnormal Hadd cb results s.
  pose proof (run_calls_last_value normal additional calls s0 (short_name var)) as Hinv.
  simpl in Hinv. fold cb in Hinv. fold s results in Hinv.
  assert (last_value_of s0 (short_name var) = None) as H0.
  { unfold last_value_of. by rewrite Hempty, lookup_empty. }
  assert (∀ s', (cb var value s').1 =
     match py_int value with
     | None => Raise (ValueError "invalid literal for int() with base 10")
     | Some n =>
         if bool_decide (n = normal_value) then
           match last_value_of s' (short_name var) with
           | Some _ => Ret (Some value)
           | None => Ret None
           end
         else Ret (Some value)
     end) as Hrun.
  { intros s'. unfold cb. rewrite got_value_run. simpl.
    rewrite bool_decide_eq_false_2 by done. rewrite Hnormal.
    repeat (case_bool_decide || case_match); done. }
  split; [|split].
  - rewrite Hrun. split.
    + intros Hret. destruct (py_int value) as [n|]; [|done].
      case_bool_decide as Hn; [subst n|done]. split; [done|].
      destruct (last_value_of s (short_name var)) eqn:Hlast; [done|].
      intros i var' value' x Hi Hk Hr.
      apply (proj2 Hinv); [|done]. right. by exists i, var', value', x.
    + intros [-> Hnone]. rewrite bool_decide_eq_true_2 by done.
      destruct (last_value_of s (short_name var)) eqn:Hlast; [|done].
      destruct (proj1 Hinv) as [?|(i & var' & value' & x & Hi & Hk & Hr)]; [done|done|].
      by destruct (Hnone i var' value' x).
  - intros n Hn Hne. rewrite Hrun, Hn. by rewrite bool_decide_eq_false_2.
  - intros comm ret w Ho Hne. unfold get_var_values_step, try_else.
    rewrite call_eq, Ho. simpl.
    unfold try_except, try_else, mbind, M_bind.
    match goal with |- context [cb var value ?s1] =>
      pose proof (Hrun s1) as Hrun1; destruct (cb var value s1) as [[r|e] s2]
    end; simpl in *; [|done].
    destruct (py_int value) as [n|]; [|done].
    case_bool_decide; [by subst n|]. by injection Hrun1 as ->.
Qed.

End Status.

Section Disconnected.
Context `{Env}.

Lemma bind_check_comm_disconnected {B} (f : bool → M B) s :
  self.comm (this s) = None → self.auto_connect (this s) = false →
  (check_comm ≫= f) s = f false (logged s [LogError "Not connected"]).
Proof.
  intros Hc Ha. by rewrite (bind_ret _ _ _ _ _ (check_comm_disconnected s Hc Ha)).
Qed.

Lemma events_of_answered {A} (m : M A) s r w evs :
  m s = (r, answered s w evs) → events_of m s = evs.
Proof. intros Hm. apply events_of_extends. by rewrite Hm. Qed.

Lemma answered_same s : answered s (world s) [] = s.
Proof. destruct s. unfold answered. simpl. by rewrite app_nil_r. Qed.

Lemma logged_answered s evs : logged s evs = answered s (world s) evs.
Proof. done. Qed.

Lemma custom_tune_disconnected script magic_args range_var range_values s :
  self.comm (this s) = None → self.auto_connect (this s) = false →
  custom_tune script magic_args range_var range_values s =
    (Ret TuneNone, logged s [LogError "Not connected"]).
Proof.
  intros Hc Ha. unfold custom_tune. by rewrite bind_check_comm_disconnected.
Qed.

(** What [tune_range] does on a controller that is not connected and does
    not connect by itself, when the values to try are given with
    [--values]: [custom_tune] logs the missing connection and returns None,
    and unpacking that None raises TypeError. *)
Lemma tune_range_disconnected args values s :
  self.comm (this s) = None → self.auto_connect (this s) = false →
  tune_range_values args = Some values →
  tune_range (Some args) s =
    (Raise (TypeError "'NoneType' object is not iterable"),
     logged s [LogError "Not connected"]).
Proof.
  intros Hc Ha Hvalues. unfold tune_range. rewrite Hvalues. simpl.
  unfold mbind at 1, M_bind at 1. simpl.
  by rewrite (bind_ret _ _ _ _ _ (custom_tune_disconnected _ _ _ _ _ Hc Ha)).
Qed.

(** Every command handler that goes to the device finds out that there is
    no connection before it sends anything: on a controller that is not
    connected and does not connect by itself, none of the events a handler
    leaves is a request.  All handlers return normally there, except
    [tune_range], which raises once it has values to try. *)
Theorem disconnected_handlers_send_nothing (c : command) s :
  issues_requests c = true →
  self.comm (this s) = None → self.auto_connect (this s) = false →
  Forall (λ ev, is_request ev = false) (events_of (run c) s) ∧
  ((run c s).1 = Ret () ∨
   ∃ args e, c = cmd_tune_range (Some args) ∧ (run c s).1 = Raise e).
Proof.
  intros Hissues Hc Ha.
  assert (∃ r w evs, run c s = (r, answered s w evs) ∧
            Forall (λ ev, is_request ev = false) evs ∧
            (r = Ret () ∨ ∃ args e, c = cmd_tune_range (Some args) ∧ r = Raise e))
    as (r & w & evs & Hrun & Hevs & Hr).
  2:{ rewrite (events_of_answered _ _ _ _ _ Hrun), Hrun. by split. }
  destruct c as [args|args|args|args|args|args|command|args|args|args|args|args|args
                |args|args|args|args|args|args|args|args|args|args|args|args|args
                |fuel args|args|fuel args|fuel args|fuel args|fuel args];
    try discriminate Hissues; simpl;
    try (destruct args as [args|]);
    unfold g, gpascii, get_var, set_var, v, shell_cmd, motors, gather, gather_save,
      gather_config, tune_plot, gather_plot, pyramid, ramp, dt_ramp, dt_trapezoid,
      dt_scurve, other_trajectory, servo, servo_copy, enc_filter, wpkey, util_build,
      userphase, prog_run, prog_send, monitor, monitorc, mstatus, cstatus;
    try case_bool_decide;
    rewrite ?bind_check_comm_disconnected by done; simpl; unfold mret, M_ret;
    try (by (exists (Ret ()), (world s), []; rewrite answered_same;
             split; [reflexivity|split; [constructor|by left]]));
    try (by (exists (Ret ()), (world s), [LogError "Not connected"];
             split; [reflexivity|split; [by repeat constructor|by left]])).
  - (* pyramid *)
    unfold mbind, M_bind. rewrite custom_tune_disconnected by done.
    exists (Ret ()), (world s), [LogError "Not connected"].
    split; [reflexivity|split; [by repeat constructor|by left]].
  - (* ramp *)
    unfold mbind, M_bind. rewrite custom_tune_disconnected by done.
    exists (Ret ()), (world s), [LogError "Not connected"].
    split; [reflexivity|split; [by repeat constructor|by left]].
  - (* tune_range *)
    unfold tune_range.
    destruct (tune_range_values args) as [values|] eqn:Hvalues.
    + unfold mbind at 1, M_bind at 1. simpl.
      rewrite (bind_ret _ _ _ _ _ (custom_tune_disconnected _ _ _ _ _ Hc Ha)).
      eexists _, (world s), [LogError "Not connected"]. split; [done|].
      split; [by repeat constructor|]. right. by eexists _, _.
    + destruct (tune_range_low args) as [low|], (tune_range_high args) as [high|],
        (tune_range_step args) as [step|];
        try (unfold mbind, M_bind, print, emit; simpl;
             eexists _, (world s), [Print _]; split; [done|];
             split; [by repeat constructor|by left]).
      unfold mbind at 1, M_bind at 1. unfold mbind at 1, M_bind at 1. rewrite call_eq.
      destruct (oracle _ (np_arange low high step) (world s)) as [[values|e] w]; simpl.
      * rewrite (bind_ret _ _ _ _ _
                   (custom_tune_disconnected _ _ _ _
                      (answered s w [Ext (np_arange low high step)]) Hc Ha)).
        eexists _, w, [Ext (np_arange low high step); LogError "Not connected"].
        split; [unfold logged, answered; simpl; by rewrite <- app_assoc|].
        split; [by repeat constructor|]. right. by eexists _, _.
      * eexists _, w, [Ext (np_arange low high step)]. split; [done|].
        split; [by repeat constructor|]. right. by eexists _, _.
Qed.

(** [check_comm] returns False exactly when [self.comm] is still None after
    it has run; with a connection it does nothing; without one it connects
    with the stored values when [auto_connect] is set, and only logs an
    error when it is not. *)
Theorem check_comm_reports_the_connection s :
  (∀ b s', check_comm s = (Ret b, s') → (b = false ↔ self.comm (this s') = None)) ∧
  (∀ c, self.comm (this s) = Some c → check_comm s = (Ret true, s)) ∧
  (self.comm (this s) = None → self.auto_connect (this s) = false →
   check_comm s = (Ret false, logged s [LogError "Not connected"])) ∧
  (self.comm (this s) = None → self.auto_connect (this s) = true →
   ∃ rest, out (check_comm s).2 =
             out s ++ Ext (PPComm_init (self.host (this s)) (self.port (this s))
                             (self.user (this s)) (self.password (this s))) :: rest).
Proof.
  split; [|split; [|split]].
  - intros [] s' Hcheck.
    + destruct (check_comm_true _ _ Hcheck) as [c Hc]. rewrite Hc. by split.
    + by rewrite (check_comm_false _ _ Hcheck).
  - intros c. apply check_comm_connected.
  - apply check_comm_disconnected.
  - intros Hc Ha.
    destruct (connect_substitutes_stored_values_aux s) as [rest Hrest].
    unfold check_comm, mbind, M_bind, get_self. simpl. rewrite Hc, Ha.
    destruct (connect None None None None s) as [[[]|e] s1]; simpl in *; by exists rest.
Qed.

End Disconnected.


(** * Further properties of the handlers *)

Section GetOrSet.
Context `{Env}.

Lemma bind_ret_all {A} (m : M A) s a s' :
  m s = (Ret a, s') → ∀ B (f : A → M B), (m ≫= f) s = f a s'.
Proof. intros Hm B f. by apply bind_ret. Qed.

Lemma bind_raise_all {A} (m : M A) s e s' :
  m s = (Raise e, s') → ∀ B (f : A → M B), (m ≫= f) s = (Raise e, s').
Proof. intros Hm B f. by apply bind_raise. Qed.

Lemma split_without sep s : PyStr.contains sep s = false → PyStr.split sep s = [s].
Proof.
  intros Hno. destruct (split_head sep s) as (w & ws & Hsplit & _ & Hcases).
  destruct Hcases as [(-> & -> & _)|(rest & _ & _ & Hyes)]; [done|congruence].
Qed.

Lemma split_app sep w rest :
  PyStr.contains sep w = false →
  PyStr.split sep (w +:+ String sep rest) = w :: PyStr.split sep rest.
Proof.
  induction w as [|c w IH]; simpl.
  - intros _. by rewrite Ascii.eqb_refl.
  - destruct (Ascii.eqb c sep); [done|]. intros Hw. by rewrite IH.
Qed.

Lemma contains_app sep w rest : PyStr.contains sep (w +:+ String sep rest) = true.
Proof.
  induction w as [|c w IH]; simpl; [by rewrite Ascii.eqb_refl|].
  by destruct (Ascii.eqb c sep).
Qed.

(** [v] is [get_var] and [set_var] under one name: [v name] does what
    [get_var name] does, [v name value] and [v name=value] do what
    [set_var name value] does (for a name and a value without [=]), down
    to the log and the outcome, connected or not. *)
Theorem v_is_get_var_or_set_var var value s :
  PyStr.contains "=" var = false →
  v (Some (mk_v_args var None)) s = get_var (Some (mk_get_var_args var)) s ∧
  v (Some (mk_v_args var (Some value))) s = set_var (Some (mk_set_var_args var value)) s ∧
  (PyStr.contains "=" value = false →
   ∀ second, v (Some (mk_v_args (var +:+ "=" +:+ value) second)) s =
             set_var (Some (mk_set_var_args var value)) s).
Proof.
  intros Hvar. unfold v, get_var, set_var.
  destruct (check_comm s) as [[ok|e] s1] eqn:Hcheck.
  2:{ split; [|split]; intros; by rewrite !(bind_raise_all _ _ _ _ Hcheck). }
  split; [|split]; intros; rewrite !(bind_ret_all _ _ _ _ Hcheck);
    (destruct ok; simpl; [|done]); unfold v_var_value; simpl.
  - by rewrite Hvar.
  - by rewrite Hvar.
  - change (var +:+ "=" +:+ value) with (var +:+ String "=" value).
    by rewrite contains_app, split_app, (split_without _ value).
Qed.

End GetOrSet.

Section ReadingMore.
Context `{Env}.

Lemma get_var_values_step_raise comm cb ret var s e s' :
  get_var_values_step comm cb ret var s = (Raise e, s') →
  is_GPError e || is_TimeoutError e = false.
Proof.
  unfold get_var_values_step, try_else.
  destruct (call (get_variable (comm_gpascii comm) var) s) as [[x|e0] s1].
  - unfold mbind, M_bind. destruct cb as [f|]; [|done].
    unfold try_except, try_else. destruct (f var x s1) as [[r|e1] s2]; done.
  - destruct (is_GPError e0 || is_TimeoutError e0) eqn:He; [done|]. by intros [= <- _].
Qed.

Lemma get_var_values_from_raise comm cb vars :
  ∀ ret s e s', get_var_values_from comm cb ret vars s = (Raise e, s') →
  is_GPError e || is_TimeoutError e = false.
Proof.
  induction vars as [|var rest IH]; intros ret s e s'; simpl; [done|].
  unfold mbind, M_bind.
  destruct (get_var_values_step comm cb ret var s) as [[ret'|e0] s1] eqn:Hstep.
  - apply IH.
  - intros [= <- _]. by eapply get_var_values_step_raise.
Qed.

Lemma get_var_values_from_plain comm vars :
  ∀ ret s values s', get_var_values_from comm None ret vars s = (Ret values, s') →
  out s' = out s ++ ((λ var, Ext (get_variable (comm_gpascii comm) var)) <$> vars) ∧
  this s' = this s ∧ status_last_values s' = status_last_values s ∧
  length values = (length ret + length vars)%nat.
Proof.
  induction vars as [|var rest IH]; intros ret s values s'; simpl.
  - intros [= <- <-]. rewrite app_nil_r. repeat split; lia.
  - unfold mbind, M_bind, get_var_values_step, try_else. rewrite call_eq.
    destruct (oracle _ (get_variable (comm_gpascii comm) var) (world s)) as [[x|e] w]; simpl.
    + unfold mret, M_ret. intros Hrest. apply IH in Hrest as (-> & -> & -> & ->). simpl.
      rewrite <- app_assoc, length_app. simpl. repeat split; lia.
    + destruct (is_GPError e || is_TimeoutError e); [|done].
      unfold mret, M_ret. intros Hrest. apply IH in Hrest as (-> & -> & -> & ->). simpl.
      rewrite <- app_assoc, length_app. simpl. repeat split; lia.
Qed.

(** GPError and TimeoutError never leave [get_var_values], whatever the
    callback does; and without a callback a call that returns has sent
    exactly one [get_variable] per name, in the order of the list, has
    printed nothing and has left the controller as it was. *)
Theorem get_var_values_reads_each_name_once comm vars s :
  (∀ cb e, (get_var_values comm vars cb s).1 = Raise e →
           is_GPError e || is_TimeoutError e = false) ∧
  (∀ values s', get_var_values comm vars None s = (Ret values, s') →
     out s' = out s ++ ((λ var, Ext (get_variable (comm_gpascii comm) var)) <$> vars) ∧
     this s' = this s ∧ length values = length vars).
Proof.
  split.
  - intros cb e. unfold get_var_values.
    destruct (get_var_values_from comm cb [] vars s) as [r s'] eqn:Hrun. simpl.
    intros ->. by eapply get_var_values_from_raise.
  - intros values s' Hrun. unfold get_var_values in Hrun.
    apply get_var_values_from_plain in Hrun as (? & ? & _ & ?). done.
Qed.


End ReadingMore.

Section ConnectingMore.
Context `{Env}.

Lemma connect_returns_comm host port user password s s1 :
  connect host port user password s = (Ret (), s1) → ∃ c, self.comm (this s1) = Some c.
Proof.
  rewrite connect_run. simpl.
  destruct (oracle _ (PPComm_init _ _ _ _) (world s)) as [[[]|e] w]; simpl; [|done].
  destruct (self.use_completer_db (this s)); simpl.
  - unfold mbind, M_bind, set_completer, get_self, put_self. simpl.
    match goal with |- context [open_completer_db ?s0] =>
      pose proof (open_completer_db_same_comm s0) as Hcomm;
      destruct (open_completer_db s0) as [r s2]
    end.
    simpl in *. intros [= -> ->]. rewrite Hcomm. by eexists.
  - intros [= <-]. by eexists.
Qed.

(** Once there is a connection, [check_comm] leaves everything alone: after
    [connect] has returned, and after [check_comm] has returned True,
    [check_comm] returns True without logging, requesting or changing
    anything, so no handler connects a second time. *)
Theorem check_comm_does_not_reconnect s :
  (∀ s1, check_comm s = (Ret true, s1) → check_comm s1 = (Ret true, s1)) ∧
  (∀ host port user password s1,
     connect host port user password s = (Ret (), s1) → check_comm s1 = (Ret true, s1)) ∧
  (∀ args s1, _connect (Some args) s = (Ret (), s1) → check_comm s1 = (Ret true, s1)).
Proof.
  split; [|split].
  - intros s1 Hcheck. destruct (check_comm_true _ _ Hcheck) as [c Hc].
    by eapply check_comm_connected.
  - intros host port user password s1 Hconnect.
    destruct (connect_returns_comm _ _ _ _ _ _ Hconnect) as [c Hc].
    by eapply check_comm_connected.
  - intros args s1 Hconnect. unfold _connect in Hconnect.
    destruct (connect_returns_comm _ _ _ _ _ _ Hconnect) as [c Hc].
    by eapply check_comm_connected.
Qed.

End ConnectingMore.

Section CompleterAttribute.
Context `{Env}.

Lemma check_comm_keeps_unassigned s r s1 :
  self.use_completer_db (this s) = false → self.completer (this s) = Unset →
  check_comm s = (r, s1) → self.completer (this s1) = Unset.
Proof.
  intros Hdb Hunset. unfold check_comm, mbind, M_bind, get_self. simpl.
  destruct (self.comm (this s)) as [c|] eqn:Hc; simpl.
  - by intros [= _ <-].
  - destruct (self.auto_connect (this s)).
    + rewrite connect_run. simpl. rewrite Hdb.
      destruct (oracle _ (PPComm_init _ _ _ _) (world s)) as [[[]|e] w]; simpl;
        by intros [= _ <-].
    + by intros [= _ <-].
Qed.

(** With [use_completer_db] off nothing ever assigns [self.completer]:
    [__init__] does not, and neither does [check_comm], connecting or not.
    Reading it then raises AttributeError: [search] fails instead of saying
    that no completer is configured, and [gather], [servo] and [monitorc]
    fail after the connection check without sending anything. *)
Theorem handlers_need_the_completer_attribute s :
  self.use_completer_db (this s) = false → self.completer (this s) = Unset →
  self.completer (this (init s).2) = Unset ∧
  (∀ r s1, check_comm s = (r, s1) → self.completer (this s1) = Unset) ∧
  (∀ args, search args s = (Raise no_completer_attribute, s)) ∧
  (∀ s1, check_comm s = (Ret true, s1) →
     (∀ args, gather_addresses args ≠ [] →
        gather (Some args) s = (Raise no_completer_attribute, s1)) ∧
     (∀ args, servo (Some args) s = (Raise no_completer_attribute, s1)) ∧
     (∀ fuel args, monitorc fuel (Some args) s = (Raise no_completer_attribute, s1))).
Proof.
  intros Hdb Hunset. split; [|split; [|split]].
  - unfold init, mbind, M_bind, emit, set_comm, get_self, put_self. simpl. by rewrite Hdb.
  - intros r s1. by apply check_comm_keeps_unassigned.
  - intros args. unfold search.
    by rewrite (bind_raise _ _ _ _ _ (the_completer_unset _ Hunset)).
  - intros s1 Hcheck.
    pose proof (check_comm_keeps_unassigned _ _ _ Hdb Hunset Hcheck) as Hunset1.
    destruct (check_comm_true _ _ Hcheck) as [c Hc].
    split; [|split].
    + intros args Hne. unfold gather. rewrite (bind_ret _ _ _ _ _ Hcheck). simpl.
      destruct (gather_addresses args) as [|addr rest]; [done|]. simpl.
      assert (fix_addr addr s1 = (Raise no_completer_attribute, s1)) as Hfix.
      { unfold fix_addr. by rewrite (bind_raise _ _ _ _ _ (the_completer_unset _ Hunset1)). }
      by rewrite (bind_raise _ _ _ _ _ (bind_raise _ _ _ _ _ Hfix)).
    + intros args. unfold servo. rewrite (bind_ret _ _ _ _ _ Hcheck). simpl.
      rewrite (bind_ret _ _ _ _ _ (the_comm_connected _ _ Hc)).
      by rewrite (bind_raise _ _ _ _ _ (the_completer_unset _ Hunset1)).
    + intros fuel args. unfold monitorc. rewrite (bind_ret _ _ _ _ _ Hcheck). simpl.
      by rewrite (bind_raise _ _ _ _ _ (the_completer_unset _ Hunset1)).
Qed.

End CompleterAttribute.

Section Running.
Context `{Env}.

Lemma the_comm_mk w me o l c :
  self.comm me = Some c → the_comm (mkState w me o l) = (Ret c, mkState w me o l).
Proof. intros Hc. by apply the_comm_connected. Qed.

Lemma call_mk {T} (q : ext T) w me o l :
  call q (mkState w me o l) =
    ((oracle T q w).1, mkState (oracle T q w).2 me (o ++ [Ext q]) l).
Proof. by rewrite call_eq. Qed.


Lemma for_each_raise {A} (l : list A) e s :
  l ≠ [] → for_each l (λ _, raise e) s = (Raise e, s).
Proof. by destruct l. Qed.

Lemma for_each_print {A} (f : A → string) (l : list A) s :
  for_each l (λ x, print (f x)) s = (Ret (), logged s (Print <$> (f <$> l))).
Proof.
  revert s. induction l as [|x l IH]; intros s; simpl.
  - by rewrite logged_nil.
  - unfold mbind, M_bind, print, emit. simpl. rewrite IH. unfold logged. simpl.
    by rewrite <- app_assoc.
Qed.

End Running.

Section Kernel.
Context `{Env}.

(** [userphase] never gets to load the kernel module: with at least one
    motor it raises AttributeError at [self.set_variable], which does not
    exist, before [insmod] is sent.  With [--unload] the module has been
    removed by then. *)
Theorem userphase_never_loads_the_module s s1 c args :
  check_comm s = (Ret true, s1) → self.comm (this s1) = Some c →
  userphase_motors args ≠ [] →
  let rmmod := shell_command c ("rmmod " +:+ userphase_module args) true in
  userphase (Some args) s =
    if userphase_unload args then
      match oracle _ rmmod (world s1) with
      | (Ret _, w) => (Raise no_set_variable_attribute, answered s1 w [Ext rmmod])
      | (Raise e, w) => (Raise e, answered s1 w [Ext rmmod])
      end
    else (Raise no_set_variable_attribute, s1).
Proof.
  intros Hcheck Hc Hmotors rmmod. unfold userphase.
  rewrite (bind_ret _ _ _ _ _ Hcheck). simpl.
  pose proof (the_comm_connected _ _ Hc) as Hcomm.
  pose proof (for_each_raise (userphase_motors args) no_set_variable_attribute) as Hraise.
  unfold no_set_variable_attribute in Hraise.
  destruct (userphase_unload args).
  - unfold mbind, M_bind. rewrite Hcomm. cbv beta iota. rewrite call_eq. fold rmmod.
    destruct (oracle _ rmmod (world s1)) as [[lines|e] w]; simpl; [|done].
    unfold mret, M_ret. by rewrite Hraise.
  - unfold mbind, M_bind, mret, M_ret. by rewrite Hraise.
Qed.

End Kernel.

Section Tuning.
Context `{Env}.

(** [custom_tune] reports a script file that does not exist and goes on
    all the same: the channel is opened and the tune helper is called with
    the same file name and keyword arguments as for a file that exists. *)
Theorem custom_tune_goes_on_without_the_script s s1 c script magic_args (there : bool) w1 g w2 :
  check_comm s = (Ret true, s1) → self.comm (this s1) = Some c →
  let fn := tune_script_path script in
  oracle _ (os_path_exists fn) (world s1) = (Ret there, w1) →
  oracle _ (gpascii_channel c) w1 = (Ret g, w2) →
  let q := tune_custom_tune c fn (tune_kwargs magic_args) in
  let said := if there then [] else [Print ("Script file does not exist: " +:+ fn)] in
  let evs := Ext (os_path_exists fn) :: said ++ [Ext (gpascii_channel c); Ext q] in
  custom_tune script magic_args None [] s =
    match oracle _ q w2 with
    | (Ret _, w3) => (Ret TuneCustom, answered s1 w3 evs)
    | (Raise e, w3) => (Raise e, answered s1 w3 evs)
    end.
Proof.
  intros Hcheck Hc fn Hexists Hchannel q said evs. subst q said evs.
  unfold custom_tune. fold (tune_kwargs magic_args).
  generalize (tune_kwargs magic_args). intros kwargs.
  rewrite (bind_ret _ _ _ _ _ Hcheck). simpl.
  fold (tune_script_path script). fold fn.
  unfold mbind, M_bind, mret, M_ret, print, emit. rewrite call_eq, Hexists. simpl.
  unfold answered.
  destruct there; simpl; rewrite !(the_comm_mk _ _ _ _ c) by done;
    rewrite call_mk, Hchannel; simpl;
    rewrite ?(the_comm_mk _ _ _ _ c) by done; rewrite call_mk;
    destruct (oracle _ (tune_custom_tune c fn kwargs) w2) as [[[]|e] w3]; simpl;
    by repeat (rewrite <- app_assoc; simpl).
Qed.

End Tuning.

Section Talking.
Context `{Env}.

Lemma for_each_printed_lines lines s :
  for_each lines (λ line, if bool_decide (line ≠ EmptyString) then print line else mret ()) s =
    (Ret (), logged s (printed_lines lines)).
Proof.
  revert s. induction lines as [|line lines IH]; intros s; simpl.
  - by rewrite logged_nil.
  - unfold mbind, M_bind, printed_lines. rewrite filter_cons.
    destruct (decide (line ≠ EmptyString)) as [Hline|Hline].
    + rewrite bool_decide_eq_true_2 by done. unfold print, emit. simpl. rewrite IH.
      unfold logged, printed_lines. simpl. by rewrite <- app_assoc.
    + rewrite bool_decide_eq_false_2 by done. unfold mret at 1, M_ret at 1. by rewrite IH.
Qed.

(** [gpascii] prints every non-empty line the device sent, also those that
    came before the read timed out or was interrupted; TimeoutError and
    KeyboardInterrupt end the command quietly, any other exception of the
    read leaves it after the lines were printed. *)
Theorem gpascii_prints_what_came_before_the_timeout s s1 c args g w1 w2 lines stop w3 :
  check_comm s = (Ret true, s1) → self.comm (this s1) = Some c →
  let line := PyStr.join " " (gpascii_cmd args) in
  oracle _ (gpascii_channel c) (world s1) = (Ret g, w1) →
  oracle _ (send_line g line) w1 = (Ret (), w2) →
  oracle _ (read_timeout g (gpascii_timeout args)) w2 = (Ret (lines, stop), w3) →
  gpascii (Some args) s =
    (match stop with
     | Some e => if is_KeyboardInterrupt e || is_TimeoutError e then Ret () else Raise e
     | None => Ret ()
     end,
     answered s1 w3 ([Ext (gpascii_channel c); Ext (send_line g line);
                      Ext (read_timeout g (gpascii_timeout args))] ++ printed_lines lines)).
Proof.
  intros Hcheck Hc line Hchannel Hsend Hread. unfold gpascii.
  rewrite (bind_ret _ _ _ _ _ Hcheck). simpl. fold line.
  rewrite (bind_ret _ _ _ _ _ (the_comm_connected _ _ Hc)).
  unfold mbind, M_bind, try_except, try_else. rewrite call_eq, Hchannel. simpl.
  unfold answered. rewrite call_mk, Hsend. simpl. rewrite call_mk, Hread. simpl.
  rewrite for_each_printed_lines. unfold logged, answered. simpl.
  repeat (rewrite <- app_assoc; simpl).
  destruct stop as [e|]; simpl; [|done].
  by destruct (is_KeyboardInterrupt e || is_TimeoutError e).
Qed.

End Talking.

Section Programs.
Context `{Env}.

(** When the motion program cannot be started, [prog_run] prints the
    device's message, with a hint when the message holds READY TO RUN, and
    returns: nothing is polled, nothing is aborted. *)
Theorem prog_run_gives_up_when_the_start_fails fuel s s1 c args g w1 msg w2 :
  check_comm s = (Ret true, s1) → self.comm (this s1) = Some c →
  oracle _ (gpascii_channel c) (world s1) = (Ret g, w1) →
  let start := program g (prog_run_coord args) (prog_run_program args) true false in
  oracle _ start w1 = (Raise (GPError msg), w2) →
  let hint := if PyStr.has_substring "READY TO RUN" msg
              then [Print "Are all motors in the coordinate system in closed loop?"]
              else [] in
  prog_run fuel (Some args) s =
    (Ret (), answered s1 w2 ([Ext (gpascii_channel c); Ext start; Print msg] ++ hint)).
Proof.
  intros Hcheck Hc Hchannel start Hstart hint. subst hint. unfold prog_run.
  rewrite (bind_ret _ _ _ _ _ Hcheck). simpl.
  rewrite (bind_ret _ _ _ _ _ (the_comm_connected _ _ Hc)).
  unfold mbind, M_bind, try_except, try_else. rewrite call_eq, Hchannel. simpl.
  unfold answered. rewrite call_mk. fold start. rewrite Hstart. simpl.
  unfold print, emit, mret, M_ret, answered. simpl.
  destruct (PyStr.has_substring "READY TO RUN" msg); simpl;
    by repeat (rewrite <- app_assoc; simpl).
Qed.

End Programs.

Section CompleterDb.
Context `{Env}.

(** A database file that is there but does not load ends the set-up of the
    completer: [open_completer_db] prints the reason (the file name, the
    class of the exception and its [str], which for a KeyError is the
    [repr] of the key) and the advice to remove the file, and returns.  The
    file is not deleted, MySQL is not asked, and [self.completer] stays
    what it was. *)
Theorem open_completer_db_gives_up_on_a_broken_file s channel w0 w1 e w2 :
  let db := self.completer_db_file (this s) in
  match self.comm (this s) with
  | Some c => ∃ g, oracle _ (gpascii_channel c) (world s) = (Ret g, w0) ∧ channel = Some g
  | None => channel = None ∧ w0 = world s
  end →
  oracle _ (os_path_exists db) w0 = (Ret true, w1) →
  oracle _ (start_completer_from_db db channel) w1 = (Raise e, w2) →
  is_Exception e = true →
  open_completer_db s =
    (Ret (), answered s w2
       (channel_log (self.comm (this s)) ++
        [Ext (os_path_exists db); Ext (start_completer_from_db db channel);
         Print ("Unable to load current db file: " +:+ db +:+ " (" +:+ exn_cls e +:+ ") " +:+
                exn_str e);
         Print "Remove it to try loading from the IDE machine's MySql"])).
Proof.
  intros db Hchannel Hexists Hstart He.
  unfold open_completer_db, mbind, M_bind, get_self. simpl. fold db.
  destruct (self.comm (this s)) as [c|] eqn:Hc; simpl.
  - destruct Hchannel as (g & Hg & ->). rewrite call_eq, Hg. simpl.
    rewrite call_eq. simpl. rewrite Hexists. simpl.
    unfold try_except, try_else. rewrite call_eq. simpl. rewrite Hstart. simpl. rewrite He.
    unfold mret, M_ret, answered. simpl. by repeat (rewrite <- app_assoc; simpl).
  - destruct Hchannel as (-> & ->). unfold mret at 1, M_ret at 1.
    rewrite call_eq. simpl. rewrite Hexists. simpl.
    unfold try_except, try_else. rewrite call_eq. simpl. rewrite Hstart. simpl. rewrite He.
    unfold mret, M_ret, answered. simpl. by repeat (rewrite <- app_assoc; simpl).
Qed.

End CompleterDb.

Section GatheredData.
Context `{Env}.

Lemma gather_results_or_log_returns settings_file s settings addresses w1 data w2 :
  oracle _ (read_settings_file (self.comm (this s)) settings_file) (world s)
    = (Ret settings, w1) →
  settings !! "gather.addr" = Some addresses →
  oracle _ (gather_get_gather_results (self.comm (this s)) addresses) w1 = (Ret data, w2) →
  gather_results_or_log settings_file s =
    (Ret (Some (settings, data)),
     answered s w2 (gather_read_log (self.comm (this s)) settings_file addresses)).
Proof.
  intros Hread Hkey Hdata. rewrite gather_results_or_log_run, get_gather_results_run.
  simpl. rewrite Hread, Hkey, Hdata. unfold answered, logged, gather_read_log. simpl.
  by rewrite <- app_assoc.
Qed.

(** [gather_save] without a file name prints the table: the addresses, then
    one line per sample, every item right-aligned in twenty characters; the
    delimiter argument plays no part in it.  With a file name it prints no
    table and hands addresses, data and delimiter (a tab unless given) to
    [gather_data_to_file]. *)
Theorem gather_save_prints_or_writes s s1 args settings addresses w1 data w2 :
  check_comm s = (Ret true, s1) →
  let settings_file := gather_save_settings_file args in
  oracle _ (read_settings_file (self.comm (this s1)) settings_file) (world s1)
    = (Ret settings, w1) →
  settings !! "gather.addr" = Some addresses →
  oracle _ (gather_get_gather_results (self.comm (this s1)) addresses) w1 = (Ret data, w2) →
  let read := gather_read_log (self.comm (this s1)) settings_file addresses in
  gather_save (Some args) s =
    match gather_save_save_to args with
    | None =>
        (Ret (), answered s1 w2 (read ++ (Print <$> (table_row <$> addresses :: data))))
    | Some save_to =>
        let q := gather_data_to_file save_to addresses data
                   (default tab (gather_save_delimiter args)) in
        ((oracle _ q w2).1,
         answered s1 (oracle _ q w2).2 (read ++ [Print ("Saving to " +:+ save_to); Ext q]))
    end.
Proof.
  intros Hcheck settings_file Hread Hkey Hdata read.
  pose proof (gather_results_or_log_returns _ _ _ _ _ _ _ Hread Hkey Hdata) as Hresults.
  fold read in Hresults. clearbody read. unfold gather_save.
  rewrite (bind_ret _ _ _ _ _ Hcheck). simpl. fold settings_file.
  rewrite (bind_ret _ _ _ _ _ Hresults).
  unfold getitem. rewrite Hkey. unfold mbind at 1, M_bind at 1, mret at 1, M_ret at 1.
  destruct (gather_save_save_to args) as [save_to|].
  - unfold mbind, M_bind, print, emit, answered. simpl. rewrite call_mk.
    destruct (gather_save_delimiter args) as [d|]; simpl; by rewrite <- !app_assoc.
  - unfold mbind, M_bind. unfold print at 1, emit at 1. simpl.
    rewrite (for_each_print table_row). unfold logged, answered. simpl.
    by rewrite <- !app_assoc.
Qed.

End GatheredData.

Section Plotting.
Context `{Env}.

Lemma index_pure l x s :
  (∃ n, index l x s = (Ret n, s)) ∨ (∃ msg, index l x s = (Raise (ValueError msg), s)).
Proof. unfold index. destruct (list_find _ l) as [[i y]|]; [left|right]; by eexists. Qed.

Lemma fix_index_pure addresses addr s :
  (∃ n, fix_index addresses addr s = (Ret n, s)) ∨
  (∃ msg, fix_index addresses addr s = (Raise (ValueError msg), s)).
Proof.
  unfold fix_index. destruct (addr ≫= py_int); [left; by eexists|].
  case_bool_decide; apply index_pure.
Qed.

Lemma fix_indices_pure addresses l s :
  (∃ ns, fix_indices addresses l s = (Ret ns, s)) ∨
  (∃ msg, fix_indices addresses l s = (Raise (ValueError msg), s)).
Proof.
  destruct l as [l|]; [|left; by eexists]. simpl. revert s.
  induction l as [|addr l IH]; intros s; simpl; [left; by eexists|].
  unfold mbind, M_bind.
  destruct (fix_index_pure addresses (Some addr) s) as [[n ->]|[msg ->]]; [|right; by eexists].
  destruct (IH s) as [[ns ->]|[msg ->]]; [left|right]; by eexists.
Qed.

Lemma print_run line s : print line s = (Ret (), logged s [Print line]).
Proof. done. Qed.

Lemma x_index_pure addresses addr s :
  ∃ x, try_except (fix_index addresses addr) (λ _, Some (mret 0)) s = (Ret x, s).
Proof.
  unfold try_except, try_else.
  destruct (fix_index_pure addresses addr s) as [[n ->]|[msg ->]]; by eexists.
Qed.

(** [gather_plot] plots only when both [--left] and [--right] are given:
    the labels are joined from [args.left] and [args.right], and joining
    None raises.  So without one of them the command ends in an exception
    after listing the addresses, [--all] or not, and neither
    [tune.plot_custom] nor [plt.show] is called. *)
Theorem gather_plot_needs_both_axes s s1 args settings addresses w1 data w2 :
  check_comm s = (Ret true, s1) →
  let settings_file := gather_plot_settings_file args in
  oracle _ (read_settings_file (self.comm (this s1)) settings_file) (world s1)
    = (Ret settings, w1) →
  settings !! "gather.addr" = Some addresses →
  oracle _ (gather_get_gather_results (self.comm (this s1)) addresses) w1 = (Ret data, w2) →
  gather_plot_left args = None ∨ gather_plot_right args = None →
  ∃ e, gather_plot (Some args) s =
    (Raise e,
     answered s1 w2 (gather_read_log (self.comm (this s1)) settings_file addresses ++
                     Print "Available addresses:" ::
                     (Print <$> ((λ address, tab +:+ address) <$> addresses)))).
Proof.
  intros Hcheck settings_file Hread Hkey Hdata Hnone.
  pose proof (gather_results_or_log_returns _ _ _ _ _ _ _ Hread Hkey Hdata) as Hresults.
  generalize dependent (gather_read_log (self.comm (this s1)) settings_file addresses).
  intros read Hresults.
  match goal with |- ∃ e, _ = (_, ?s3) =>
    cut (∀ rs, gather_plot (Some args) s = rs → ∃ e, rs = (Raise e, s3));
      [intros Hcut; by apply Hcut|]
  end.
  intros rs. unfold gather_plot.
  rewrite (bind_ret _ _ _ _ _ Hcheck). simpl. fold settings_file.
  rewrite (bind_ret _ _ _ _ _ Hresults).
  unfold getitem. rewrite Hkey. unfold mbind at 1, M_bind at 1, mret at 1, M_ret at 1.
  rewrite (bind_ret _ _ _ _ _ (print_run _ _)).
  rewrite (bind_ret _ _ _ _ _ (for_each_print (λ address, tab +:+ address) _ _)).
  rewrite logged_logged, logged_answered. unfold answered at 1. simpl.
  rewrite <- app_assoc. simpl.
  unfold answered.
  match goal with |- context [mkState w2 ?me ?o ?l] => generalize (mkState w2 me o l) end.
  intros s2.
  destruct (x_index_pure addresses (gather_plot_x_axis args) s2) as [x_index Hx].
  rewrite (bind_ret _ _ _ _ _ Hx).
  destruct (gather_plot_all args).
  - unfold mbind, M_bind, mret, M_ret, axis_label.
    destruct Hnone as [->| ->]; [intros <-; by eexists|].
    destruct (gather_plot_left args); intros <-; by eexists.
  - unfold mbind, M_bind.
    destruct (fix_indices_pure addresses (gather_plot_left args) s2) as [[ls ->]|[msg ->]];
      [|intros <-; by eexists].
    destruct (fix_indices_pure addresses (gather_plot_right args) s2) as [[rs' ->]|[msg ->]];
      [|intros <-; by eexists].
    unfold mret, M_ret, axis_label.
    destruct Hnone as [->| ->]; [intros <-; by eexists|].
    destruct (gather_plot_left args); intros <-; by eexists.
Qed.

End Plotting.

Section Quiet.
Context `{Env}.

Lemma get_var_values_from_normal c normal additional vars :
  Forall (reads_normal c normal additional) vars →
  ∀ ret s,
    (∀ var, var ∈ vars → last_value_of s (short_name var) = None) →
    ∃ s', get_var_values_from c (Some (got_value normal false (Some additional))) ret vars s =
            (Ret (ret ++ replicate (length vars) None), s') ∧
          out s' = out s ++ read_log c vars ∧ this s' = this s.
Proof.
  induction 1 as [|var rest Hvar Hrest IH]; intros ret s Hlast; simpl.
  - exists s. by rewrite !app_nil_r.
  - destruct Hvar as (Hadd & n & Hn & Hread).
    destruct (Hread (world s)) as (x & w & Ho & Hx).
    assert (get_var_values_step c (Some (got_value normal false (Some additional))) ret var s =
            (Ret (ret ++ [None]),
             stored (answered s w [Ext (get_variable (comm_gpascii c) var)])
               (short_name var) None)) as Hstep.
    { unfold get_var_values_step, try_else. rewrite call_eq, Ho. simpl.
      unfold mbind, M_bind, try_except, try_else. rewrite got_value_run. simpl.
      rewrite bool_decide_eq_false_2 by done. rewrite Hn, Hx.
      rewrite bool_decide_eq_true_2 by done.
      assert (last_value_of (answered s w [Ext (get_variable (comm_gpascii c) var)])
                (short_name var) = None) as ->; [|done].
      apply (Hlast var). set_solver. }
    rewrite (bind_ret _ _ _ _ _ Hstep).
    match goal with |- context [get_var_values_from _ _ _ _ ?s1] =>
      destruct (IH (ret ++ [None]) s1) as (s' & Hrun & Hout & Hthis)
    end.
    { intros var' Hin. unfold last_value_of, stored. simpl.
      destruct (decide (short_name var' = short_name var)) as [->|Hne].
      - by rewrite lookup_insert_eq.
      - rewrite lookup_insert_ne by done. apply (Hlast var'). set_solver. }
    exists s'. rewrite Hrun, Hout, Hthis. simpl. rewrite <- !app_assoc. done.
Qed.

Lemma for_each_None (vars : list string) n s :
  for_each (zip2 vars (replicate n None)) (λ '(var, value),
    match value with
    | Some _ => print (fmt_assign var value)
    | None => mret ()
    end) s = (Ret (), s).
Proof.
  revert n s. induction vars as [|var vars IH]; intros [|n] s; simpl; try done.
  unfold mbind, M_bind, mret at 1, M_ret at 1. apply IH.
Qed.

Lemma print_var_values_normal c normal additional vars s :
  Forall (reads_normal c normal additional) vars →
  status_last_values s = ∅ →
  ∃ values s', print_var_values c vars (Some (got_value normal false (Some additional))) s =
                 (Ret values, s') ∧
               out s' = out s ++ read_log c vars ∧ this s' = this s.
Proof.
  intros Hvars Hempty.
  destruct (get_var_values_from_normal c normal additional vars Hvars [] s)
    as (s' & Hrun & Hout & Hthis).
  { intros var _. unfold last_value_of. by rewrite Hempty, lookup_empty. }
  exists (replicate (length vars) None), s'. split; [|done].
  unfold print_var_values, get_var_values. rewrite (bind_ret _ _ _ _ _ Hrun). simpl.
  by rewrite (bind_ret _ _ _ _ _ (for_each_None _ _ _)).
Qed.

(** A motor or coordinate system that is as it should be makes [mstatus]
    and [cstatus] silent: when every variable of the status list reads its
    normal value, the command reads each of them once and prints
    nothing. *)
Theorem status_is_silent_when_all_is_normal fuel s s1 c args additional :
  check_comm s = (Ret true, s1) → self.comm (this s1) = Some c →
  status_all args = false → status_monitor args = false →
  status_additional args = Some additional →
  (let variables := status_variables motor_status
                      ("Motor[" +:+ pretty (status_number args) +:+ "]") args in
   Forall (reads_normal c motor_normal additional) variables →
   ∃ s2, mstatus fuel (Some args) s = (Ret (), s2) ∧
         out s2 = out s1 ++ read_log c variables) ∧
  (let variables := status_variables coord_status
                      ("Coord[" +:+ pretty (status_number args) +:+ "]") args in
   Forall (reads_normal c coord_normal additional) variables →
   ∃ s2, cstatus fuel (Some args) s = (Ret (), s2) ∧
         out s2 = out s1 ++ read_log c variables).
Proof.
  intros Hcheck Hc Hall Hmonitor Hadditional. split.
  - intros variables Hnormal. unfold mstatus.
    rewrite (bind_ret _ _ _ _ _ Hcheck). simpl. rewrite Hall, Hmonitor, Hadditional.
    unfold variables, status_variables in *. rewrite Hadditional in *.
    match type of Hnormal with Forall _ ?vs => set (vars := vs) in * end. clearbody vars.
    destruct (print_var_values_normal c motor_normal additional _
                (mkState (world s1) (this s1) (out s1) (@empty _ gmap_empty)) Hnormal eq_refl)
      as (values & s2 & Hrun & Hout & Hthis).
    exists s2. split; [|done].
    unfold mbind, M_bind, put_last_values, get_self. simpl.
    rewrite (the_comm_mk _ _ _ _ c) by done. by rewrite Hrun.
  - intros variables Hnormal. unfold cstatus.
    rewrite (bind_ret _ _ _ _ _ Hcheck). simpl. rewrite Hall, Hmonitor, Hadditional.
    unfold variables, status_variables in *. rewrite Hadditional in *.
    match type of Hnormal with Forall _ ?vs => set (vars := vs) in * end. clearbody vars.
    destruct (print_var_values_normal c coord_normal additional _
                (mkState (world s1) (this s1) (out s1) (@empty _ gmap_empty)) Hnormal eq_refl)
      as (values & s2 & Hrun & Hout & Hthis).
    exists s2. split; [|done].
    unfold mbind, M_bind, put_last_values, get_self. simpl.
    rewrite (the_comm_mk _ _ _ _ c) by done. by rewrite Hrun.
Qed.

End Quiet.

Section Watching.
Context `{Env}.










End Watching.

Section StatusList.
Context `{Env}.

Lemma remove_first_str_NoDup x l :
  NoDup l → NoDup (remove_first_str x l) ∧ ∀ y, y ∈ remove_first_str x l ↔ y ∈ l ∧ y ≠ x.
Proof.
  induction 1 as [|z l Hz Hl IH]; simpl.
  - split; [constructor|]. set_solver.
  - case_bool_decide as Heq.
    + subst z. split; [done|]. intros y. set_solver.
    + destruct IH as [IH1 IH2]. split.
      * constructor; [|done]. rewrite IH2. tauto.
      * intros y. rewrite !elem_of_cons, IH2. naive_solver.
Qed.

Lemma remove_ignored_NoDup ignore :
  ∀ l, NoDup l →
    NoDup (foldl (λ vars variable, remove_first_str variable vars) l ignore) ∧
    ∀ y, y ∈ foldl (λ vars variable, remove_first_str variable vars) l ignore ↔
         y ∈ l ∧ y ∉ ignore.
Proof.
  induction ignore as [|x ignore IH]; intros l Hl; simpl.
  - split; [done|]. set_solver.
  - destruct (remove_first_str_NoDup x l Hl) as [Hnd Hin].
    destruct (IH _ Hnd) as [IH1 IH2]. split; [done|].
    intros y. rewrite IH2, Hin. set_solver.
Qed.

(** The variables [mstatus] and [cstatus] read are the fields of the status
    table that [--ignore] does not name, and the additional fields; a field
    named in both is read all the same.  (The table lists no field
    twice.) *)
Theorem status_reads_what_is_not_ignored table prefix args var :
  NoDup table →
  var ∈ status_variables table prefix args ↔
    ∃ field, var = prefix +:+ "." +:+ field ∧
             ((field ∈ table ∧ field ∉ default [] (status_ignore args)) ∨
              field ∈ default [] (status_additional args)).
Proof.
  intros Htable. unfold status_variables. rewrite list_elem_of_fmap.
  assert (∀ field, field ∈ remove_ignored table (status_ignore args) ↔
                   field ∈ table ∧ field ∉ default [] (status_ignore args)) as Hignored.
  { intros field. unfold remove_ignored. destruct (status_ignore args) as [ignore|]; simpl.
    - by apply remove_ignored_NoDup.
    - set_solver. }
  split; intros (field & -> & Hfield); exists field; (split; [done|]).
  - unfold extend_additional in Hfield.
    destruct (status_additional args) as [additional|]; simpl.
    + apply elem_of_app in Hfield as [Hfield|Hfield]; [left; by apply Hignored|by right].
    + left. by apply Hignored.
  - unfold extend_additional.
    destruct (status_additional args) as [additional|]; simpl in *.
    + apply elem_of_app. destruct Hfield as [Hfield|Hfield]; [left; by apply Hignored|by right].
    + destruct Hfield as [Hfield|Hfield]; [by apply Hignored|set_solver].
Qed.

End StatusList.

Section Building.
Context `{Env}.

Lemma steps_call_bind_extends P {T B} (q : ext T) (f : T → M B) :
  P (Ext q) →
  (∀ a w w', oracle T q w = (Ret a, w') → steps (extends P) (f a)) →
  steps (extends P) (call q ≫= f).
Proof.
  intros HP Hf s. unfold mbind, M_bind.
  pose proof (steps_call_extends P q HP s) as Hcall. rewrite call_eq in *.
  destruct (oracle T q (world s)) as [[a|e] w] eqn:Ho; simpl in *; [|done].
  eapply extends_trans; [exact Hcall|]. by eapply Hf.
Qed.

(** A build that fails runs nothing: when the output of make holds a line
    with [error], [build_utility] sends no shell command but make itself,
    with or without cleaning up, and so does [util_build]. *)
Theorem build_utility_runs_nothing_after_an_error comm source_files output_name dest_path
    verbose cleanup run s :
  make_fails comm verbose →
  extends (λ ev, runs_make_at_most ev = true) s
    (build_utility comm source_files output_name dest_path verbose cleanup run s).2 ∧
  (verbose = true → ∀ args s1,
     check_comm s = (Ret true, s1) → self.comm (this s1) = Some comm →
     extends (λ ev, runs_make_at_most ev = true) s1 (util_build (Some args) s).2).
Proof.
  intros Hfails.
  assert (∀ source_files output_name dest_path cleanup run,
            steps (extends (λ ev, runs_make_at_most ev = true))
              (build_utility comm source_files output_name dest_path verbose cleanup run))
    as Hbuild.
  { clear s. intros source_files' output_name' dest_path' cleanup' run'.
    unfold build_utility, create_util_makefile, print.
    steps_with (extends_refl (λ ev, runs_make_at_most ev = true))
               (extends_trans (λ ev, runs_make_at_most ev = true))
      ltac:(first
        [ apply steps_emit_extends; done
        | apply steps_call_extends; done
        | match goal with
          | |- steps _ (call (shell_command _ "make" _) ≫= _) =>
              apply steps_call_bind_extends; [done|];
              let Hmake := fresh "Hmake" in
              intros ? ? ? Hmake; apply Hfails in Hmake;
              unfold reports_error in Hmake; rewrite Hmake; simpl negb; cbv iota
          end ]). }
  split; [apply Hbuild|].
  intros -> args s1 Hcheck Hc. unfold util_build.
  rewrite (bind_ret _ _ _ _ _ Hcheck). simpl.
  rewrite (bind_ret _ _ _ _ _ (the_comm_connected _ _ Hc)). apply Hbuild.
Qed.

End Building.

Section Plotting2.
Context `{Env}.

(** [tune_plot] plots nothing when there is nothing to plot: with no
    address in the settings or no sample in the data it says so and
    returns, without looking for columns. *)
Theorem tune_plot_without_data_plots_nothing s s1 args settings addresses w1 data w2 :
  check_comm s = (Ret true, s1) →
  let settings_file := tune_plot_settings_file args in
  oracle _ (read_settings_file (self.comm (this s1)) settings_file) (world s1)
    = (Ret settings, w1) →
  settings !! "gather.addr" = Some addresses →
  oracle _ (gather_get_gather_results (self.comm (this s1)) addresses) w1 = (Ret data, w2) →
  addresses = [] ∨ data = [] →
  tune_plot (Some args) s =
    (Ret (), answered s1 w2 (gather_read_log (self.comm (this s1)) settings_file addresses ++
                             [Print "No data gathered?"])).
Proof.
  intros Hcheck settings_file Hread Hkey Hdata Hnone.
  pose proof (gather_results_or_log_returns _ _ _ _ _ _ _ Hread Hkey Hdata) as Hresults.
  generalize dependent (gather_read_log (self.comm (this s1)) settings_file addresses).
  intros read Hresults. unfold tune_plot.
  rewrite (bind_ret _ _ _ _ _ Hcheck). simpl. fold settings_file.
  rewrite (bind_ret _ _ _ _ _ Hresults).
  unfold getitem. rewrite Hkey. unfold mbind at 1, M_bind at 1, mret at 1, M_ret at 1.
  assert (bool_decide (addresses = []) || bool_decide (data = []) = true) as ->.
  { destruct Hnone as [-> | ->]; [done|]. by rewrite orb_true_r. }
  unfold print, emit, answered. simpl. by rewrite <- app_assoc.
Qed.

End Plotting2.

Section TuningRange.
Context `{Env}.

Lemma custom_tune_range_run s s1 c script magic_args range_var values (there : bool)
    w1 g w2 :
  check_comm s = (Ret true, s1) → self.comm (this s1) = Some c →
  let fn := tune_script_path script in
  oracle _ (os_path_exists fn) (world s1) = (Ret there, w1) →
  oracle _ (gpascii_channel c) w1 = (Ret g, w2) →
  let q := tune_tune_range g fn range_var values (tune_kwargs magic_args) in
  let said := if there then [] else [Print ("Script file does not exist: " +:+ fn)] in
  let evs := Ext (os_path_exists fn) :: said ++ [Ext (gpascii_channel c); Ext q] in
  custom_tune script magic_args (Some range_var) values s =
    match oracle _ q w2 with
    | (Ret (best, rms), w3) => (Ret (TuneRange best rms), answered s1 w3 evs)
    | (Raise e, w3) => (Raise e, answered s1 w3 evs)
    end.
Proof.
  intros Hcheck Hc fn Hexists Hchannel q said evs. subst q said evs.
  unfold custom_tune. fold (tune_kwargs magic_args).
  generalize (tune_kwargs magic_args). intros kwargs.
  rewrite (bind_ret _ _ _ _ _ Hcheck). simpl.
  fold (tune_script_path script). fold fn.
  unfold mbind, M_bind, mret, M_ret, print, emit. rewrite call_eq, Hexists. simpl.
  unfold answered.
  destruct there; simpl; rewrite !(the_comm_mk _ _ _ _ c) by done;
    rewrite call_mk, Hchannel; simpl; rewrite call_mk;
    destruct (oracle _ (tune_tune_range g fn range_var values kwargs) w2)
      as [[[best rms]|e] w3]; simpl;
    by repeat (rewrite <- app_assoc; simpl).
Qed.

(** [tune_range] plots only a complete result: when the tune helper
    returns another number of RMS errors than there were values to try,
    the command ends after the helper's call and nothing is plotted. *)
Theorem tune_range_plots_only_complete_results s s1 c args values (there : bool)
    w1 g w2 best rms w3 :
  tune_range_values args = Some values →
  check_comm s = (Ret true, s1) → self.comm (this s1) = Some c →
  let fn := tune_script_path (tune_range_script args) in
  oracle _ (os_path_exists fn) (world s1) = (Ret there, w1) →
  oracle _ (gpascii_channel c) w1 = (Ret g, w2) →
  let q := tune_tune_range g fn (tune_range_variable args) values
             (tune_kwargs (tune_range_attrs args)) in
  oracle _ q w2 = (Ret (best, rms), w3) →
  length values ≠ length rms →
  let said := if there then [] else [Print ("Script file does not exist: " +:+ fn)] in
  tune_range (Some args) s =
    (Ret (), answered s1 w3
               (Ext (os_path_exists fn) :: said ++ [Ext (gpascii_channel c); Ext q])).
Proof.
  intros Hvalues Hcheck Hc fn Hexists Hchannel q Hq Hlength said.
  pose proof (custom_tune_range_run s s1 c (tune_range_script args) (tune_range_attrs args)
                (tune_range_variable args) values there w1 g w2 Hcheck Hc Hexists Hchannel)
    as Hrun.
  simpl in Hrun. fold fn q in Hrun. rewrite Hq in Hrun. fold said in Hrun.
  unfold tune_range. rewrite Hvalues.
  unfold mbind at 1, M_bind at 1, mret at 1, M_ret at 1.
  rewrite (bind_ret _ _ _ _ _ Hrun). by rewrite bool_decide_eq_false_2.
Qed.

End TuningRange.

Section Filter.
Context `{Env}.

Lemma set_verbose_run c var value w me o l :
  self.comm me = Some c →
  set_verbose var value (mkState w me o l) =
    let q1 := set_variable (comm_gpascii c) var value in
    match oracle _ q1 w with
    | (Raise e, w1) => (Raise e, mkState w1 me (o ++ [Ext q1]) l)
    | (Ret _, w1) =>
        let q2 := get_variable (comm_gpascii c) var in
        match oracle _ q2 w1 with
        | (Raise e, w2) => (Raise e, mkState w2 me (o ++ [Ext q1; Ext q2]) l)
        | (Ret r, w2) =>
            (Ret (), mkState w2 me (o ++ [Ext q1; Ext q2; Print (var +:+ " = " +:+ r)]) l)
        end
    end.
Proof.
  intros Hc. unfold set_verbose, mbind, M_bind.
  rewrite (the_comm_mk _ _ _ _ c) by done. rewrite call_mk.
  destruct (oracle _ (set_variable (comm_gpascii c) var value) w) as [[r1|e] w1]; simpl; [|done].
  rewrite (the_comm_mk _ _ _ _ c) by done. rewrite call_mk.
  destruct (oracle _ (get_variable (comm_gpascii c) var) w1) as [[r|e] w2]; simpl.
  - unfold print, emit. simpl. by repeat (rewrite <- app_assoc; simpl).
  - by repeat (rewrite <- app_assoc; simpl).
Qed.

(** A cutoff that is not positive switches the tracking filter off:
    [enc_filter] sets both terms of the encoder table entry to 0 and shows
    what the device then holds; [util.tracking_filter] is not called, though
    the servo period is read first all the same. *)
Theorem enc_filter_without_cutoff_clears_both_terms s s1 c args
    period w1 r1 w2 x1 w3 r2 w4 x2 w5 :
  check_comm s = (Ret true, s1) → self.comm (this s1) = Some c →
  Qle_bool (enc_filter_cutoff args) 0 = true →
  let g := comm_gpascii c in
  let v1 := "EncTable[" +:+ pretty (enc_filter_num args) +:+ "].index1" in
  let v2 := "EncTable[" +:+ pretty (enc_filter_num args) +:+ "].index2" in
  oracle _ (get_variable_float g "Sys.ServoPeriod") (world s1) = (Ret period, w1) →
  oracle _ (set_variable g v1 (AInt 0)) w1 = (Ret r1, w2) →
  oracle _ (get_variable g v1) w2 = (Ret x1, w3) →
  oracle _ (set_variable g v2 (AInt 0)) w3 = (Ret r2, w4) →
  oracle _ (get_variable g v2) w4 = (Ret x2, w5) →
  enc_filter (Some args) s =
    (Ret (), answered s1 w5
               [Ext (get_variable_float g "Sys.ServoPeriod");
                Ext (set_variable g v1 (AInt 0)); Ext (get_variable g v1);
                Print (v1 +:+ " = " +:+ x1);
                Ext (set_variable g v2 (AInt 0)); Ext (get_variable g v2);
                Print (v2 +:+ " = " +:+ x2)]).
Proof.
  intros Hcheck Hc Hcutoff g v1 v2 Hperiod Hset1 Hget1 Hset2 Hget2.
  unfold enc_filter. rewrite (bind_ret _ _ _ _ _ Hcheck). simpl.
  unfold servo_period at 1.
  unfold mbind at 1, M_bind at 1.
  unfold mbind at 1, M_bind at 1.
  rewrite (check_comm_connected _ _ Hc). simpl.
  unfold mbind at 1, M_bind at 1. rewrite (the_comm_connected _ _ Hc).
  unfold mbind at 1, M_bind at 1. rewrite call_eq. fold g. rewrite Hperiod. simpl.
  unfold mret at 1, M_ret at 1. rewrite Hcutoff.
  unfold mbind at 1, M_bind at 1, mret at 1, M_ret at 1. simpl.
  fold v1 v2. unfold mbind, M_bind, answered.
  rewrite (set_verbose_run c) by done. cbv zeta. fold g. rewrite Hset1, Hget1.
  rewrite (set_verbose_run c) by done. cbv zeta. fold g. rewrite Hset2, Hget2.
  unfold mret, M_ret. by repeat (rewrite <- app_assoc; simpl).
Qed.

End Filter.

Section Interrupting.
Context `{Env}.



End Interrupting.
(** * The bench: the statements above at concrete inputs *)

Section Bench.
#[local] Existing Instance Demo.env.

Lemma bench_reads_raise_only_listed : reads_raise_only_listed.
Proof.
  intros g var w e w'. simpl. unfold Demo.read.
  repeat (destruct (String.eqb var _)); intros [= <- _]; done.
Qed.

Lemma get_var_values_total_witness :
  ∃ values s',
    get_var_values Demo.default_comm ["Sys.Ticks"; "Bad"; "Slow"] None Demo.connected
      = (Ret values, s') ∧
    length values = 3%nat ∧
    values_read Demo.default_comm None Demo.connected ["Sys.Ticks"; "Bad"; "Slow"] values s'.
Proof.
  exact (get_var_values_total Demo.default_comm ["Sys.Ticks"; "Bad"; "Slow"] None
           Demo.connected bench_reads_raise_only_listed).
Defined.

Lemma GPError_is_caught_and_printed_witness :
  get_var (Some (mk_get_var_args "Bad")) Demo.connected =
    (Ret (), answered Demo.connected 1%nat
               [Ext (get_variable (comm_gpascii Demo.default_comm) "Bad");
                Print "unknown variable Bad"]).
Proof.
  apply (proj1 (GPError_is_caught_and_printed Demo.connected Demo.connected
                  Demo.default_comm "unknown variable Bad" 1%nat eq_refl eq_refl)).
  reflexivity.
Defined.

Lemma v_splits_then_gets_or_sets_witness :
  v (Some (mk_v_args "a=1=2" None)) Demo.connected =
    (Ret (), answered Demo.connected 0%nat
               [Ext (set_variable (comm_gpascii Demo.default_comm) "a" (AStr "1"));
                Print "a=1"]).
Proof.
  destruct (v_splits_then_gets_or_sets Demo.connected Demo.connected Demo.default_comm
              (mk_v_args "a=1=2" None) eq_refl eq_refl)
    as (var & value & Hvv & _ & _ & Hrun).
  cbn in Hvv. injection Hvv as <- <-. apply Hrun. reflexivity.
Defined.

Lemma connect_substitutes_stored_values_witness :
  self.comm (this (connect None (Some 2222) None None Demo.disconnected).2) =
    Some (mkPPComm "10.0.0.98" 2222 "root" "deltatau").
Proof.
  apply (proj2 (connect_substitutes_stored_values None (Some 2222) None None
                  Demo.disconnected)).
  reflexivity.
Defined.

Lemma servo_copy_guard_witness :
  servo_copy (Some (mk_servo_copy_args 3 3)) Demo.connected =
    (Ret (), logged Demo.connected
               [LogError "Destination motor should be different from source motor"]).
Proof.
  apply (proj1 (servo_copy_guard Demo.connected Demo.connected
                  (mk_servo_copy_args 3 3) eq_refl)).
  reflexivity.
Defined.

(** C9, at the failing input.  On a connected controller that was set up
    without completer database, [servo_copy 1 2] raises AttributeError when
    it reads [self.completer]; [copy_settings] is not called and nothing is
    logged. *)
Theorem servo_copy_without_completer_raises :
  servo_copy (Some (mk_servo_copy_args 1 2)) Demo.connected =
    (Raise (AttributeError "'PpmacCore' object has no attribute 'completer'"),
     Demo.connected).
Proof. reflexivity. Qed.

(** C1, at the failing input.  On a controller that is not connected and
    does not connect by itself, [tune_range --values 1.0] sends nothing, but
    it does not return either: it raises TypeError after logging that there
    is no connection. *)
Theorem tune_range_raises_when_disconnected :
  tune_range (Some Demo.tune_range_with_values) Demo.disconnected =
    (Raise (TypeError "'NoneType' object is not iterable"),
     logged Demo.disconnected [LogError "Not connected"]).
Proof. reflexivity. Qed.

Lemma disconnected_handlers_send_nothing_witness :
  Forall (λ ev, is_request ev = false)
    (events_of (run (cmd_v (Some (mk_v_args "Sys.Ticks" None)))) Demo.disconnected) ∧
  ((run (cmd_v (Some (mk_v_args "Sys.Ticks" None))) Demo.disconnected).1 = Ret () ∨
   ∃ args e, cmd_v (Some (mk_v_args "Sys.Ticks" None)) = cmd_tune_range (Some args) ∧
             (run (cmd_v (Some (mk_v_args "Sys.Ticks" None))) Demo.disconnected).1 = Raise e).
Proof.
  apply (disconnected_handlers_send_nothing (cmd_v (Some (mk_v_args "Sys.Ticks" None)))
           Demo.disconnected); reflexivity.
Defined.

Lemma check_comm_reports_the_connection_witness :
  check_comm Demo.connected = (Ret true, Demo.connected).
Proof.
  apply (proj1 (proj2 (check_comm_reports_the_connection Demo.connected))
           Demo.default_comm).
  reflexivity.
Defined.

Lemma get_gather_results_KeyError_witness :
  gather_save (Some (mk_gather_save_args None (Some "empty.txt") None)) Demo.connected =
    (Ret (), answered Demo.connected 0%nat
               [Print "Reading gather settings...";
                Ext (read_settings_file (Some Demo.default_comm) (Some "empty.txt"));
                PrintSettings "settings is" ∅;
                LogException (KeyError (no_addresses (Some "empty.txt")))]).
Proof.
  assert (∀ addresses, (∅ : gmap string (list string)) !! "gather.addr" = Some addresses →
            ∃ data w2, oracle _ (gather_get_gather_results (Some Demo.default_comm) addresses)
                         0%nat = (Ret data, w2)) as Hdata.
  { intros addresses Hkey. by rewrite lookup_empty in Hkey. }
  destruct (get_gather_results_KeyError Demo.connected (Some "empty.txt") true ∅ 0%nat
              eq_refl Hdata) as (_ & _ & _ & Hcallers).
  destruct (Hcallers (lookup_empty _) Demo.connected eq_refl) as (Hsave & _).
  by apply Hsave.
Defined.

(** C4, as stated, fails.  For [gather 1.0 1 X Sys.ServoCount] the address
    [Sys.ServoCount.a] is not among the addresses the user supplied, yet
    nothing is inserted at position 0: the list passed on is the two fixed
    addresses in the user's order, with [X.a] first. *)
Lemma gather_inserts_nothing_counterexample :
  ("Sys.ServoCount.a" ∉ gather_addresses Demo.gather_two) ∧
  events_of (gather (Some Demo.gather_two)) Demo.connected_no_completer =
    [Ext (gather_and_plot Demo.default_comm ["X.a"; "Sys.ServoCount.a"] 1 1)] ∧
  (["X.a"; "Sys.ServoCount.a"] !! 0%nat) ≠ Some "Sys.ServoCount.a".
Proof.
  split; [|split].
  - intros Hin. repeat (apply elem_of_cons in Hin as [?|Hin]; [done|]).
    by apply elem_of_nil in Hin.
  - vm_compute. reflexivity.
  - done.
Qed.

Lemma monitor_prints_exactly_the_changes_witness :
  ∃ last_values s1 history s2,
    get_var_values Demo.default_comm ["Motor[1].AmpFault"; "Sys.Ticks"] None Demo.connected
      = (Ret last_values, s1) ∧
    polled Demo.default_comm ["Motor[1].AmpFault"; "Sys.Ticks"] None 2
      (logged s1 (initial_report true ["Motor[1].AmpFault"; "Sys.Ticks"] last_values))
      last_values history s2 ∧
    answered Demo.connected 6%nat
      [Ext (get_variable (comm_gpascii Demo.default_comm) "Motor[1].AmpFault");
       Ext (get_variable (comm_gpascii Demo.default_comm) "Sys.Ticks");
       Print "Motor[1].AmpFault = 0";
       Print "Sys.Ticks = 1";
       Ext (get_variable (comm_gpascii Demo.default_comm) "Motor[1].AmpFault");
       Ext (get_variable (comm_gpascii Demo.default_comm) "Sys.Ticks");
       Print "Motor[1].AmpFault = 1";
       Print "Sys.Ticks = 3";
       Ext (get_variable (comm_gpascii Demo.default_comm) "Motor[1].AmpFault");
       Ext (get_variable (comm_gpascii Demo.default_comm) "Sys.Ticks");
       Print "Sys.Ticks = 5"] =
      logged s2 (change_report false
                   (list_to_set (printed_in_turns ["Motor[1].AmpFault"; "Sys.Ticks"]
                                   last_values history).*1)) ∧
    ∀ var,
      (∀ values i, values ∈ history → ["Motor[1].AmpFault"; "Sys.Ticks"] !! i = Some var →
                   values !! i = last_values !! i) →
      var ∉ (printed_in_turns ["Motor[1].AmpFault"; "Sys.Ticks"] last_values history).*1.
Proof.
  apply (proj1 (proj2 (proj2 (proj2 (proj2
           (monitor_prints_exactly_the_changes Demo.default_comm
              ["Motor[1].AmpFault"; "Sys.Ticks"] None)))))
           2%nat (Some Demo.default_comm) false true Demo.connected).
  - by left.
  - reflexivity.
Defined.

Lemma got_value_hides_only_normal_witness :
  (got_value motor_normal false (Some []) "Motor[1].AmpFault" "0" Demo.connected).1 = Ret None.
Proof.
  assert (motor_normal !! short_name "Motor[1].AmpFault" = Some 0) as Hnormal
    by (vm_compute; reflexivity).
  apply (proj1 (got_value_hides_only_normal motor_normal [] [] Demo.connected
                  "Motor[1].AmpFault" "0" 0 eq_refl Hnormal (not_elem_of_nil _))).
  split; [reflexivity|]. intros i var' value' x Hi. by rewrite lookup_nil in Hi.
Defined.

End Bench.

(** * The further properties at concrete inputs *)

Section BenchMore.
#[local] Existing Instance Demo.env.

Lemma v_is_get_var_or_set_var_witness :
  v (Some (mk_v_args "Sys.Ticks=5" None)) Demo.connected =
    set_var (Some (mk_set_var_args "Sys.Ticks" "5")) Demo.connected.
Proof.
  exact (proj2 (proj2 (v_is_get_var_or_set_var "Sys.Ticks" "5" Demo.connected eq_refl))
           eq_refl None).
Defined.

Lemma get_var_values_reads_each_name_once_witness :
  out (answered Demo.connected 2%nat
         [Ext (get_variable (comm_gpascii Demo.default_comm) "Sys.Ticks");
          Ext (get_variable (comm_gpascii Demo.default_comm) "Bad")]) =
    out Demo.connected ++
    ((λ var, Ext (get_variable (comm_gpascii Demo.default_comm) var)) <$> ["Sys.Ticks"; "Bad"]) ∧
  this (answered Demo.connected 2%nat
          [Ext (get_variable (comm_gpascii Demo.default_comm) "Sys.Ticks");
           Ext (get_variable (comm_gpascii Demo.default_comm) "Bad")]) = this Demo.connected ∧
  length [Some "0"; Some "Error: unknown variable Bad"] = length ["Sys.Ticks"; "Bad"].
Proof.
  apply (proj2 (get_var_values_reads_each_name_once Demo.default_comm ["Sys.Ticks"; "Bad"]
                  Demo.connected)).
  reflexivity.
Defined.


Lemma check_comm_does_not_reconnect_witness :
  check_comm (connect None None None None Demo.disconnected).2 =
    (Ret true, (connect None None None None Demo.disconnected).2).
Proof.
  apply (proj1 (proj2 (check_comm_does_not_reconnect Demo.disconnected)) None None None None).
  reflexivity.
Defined.

Lemma handlers_need_the_completer_attribute_witness :
  search (Some (mk_search_args "Motor[1]" "servo")) Demo.connected =
    (Raise no_completer_attribute, Demo.connected).
Proof.
  exact (proj1 (proj2 (proj2 (handlers_need_the_completer_attribute Demo.connected
                                eq_refl eq_refl))) _).
Defined.

Lemma userphase_never_loads_the_module_witness :
  userphase (Some (mk_userphase_args "phase.ko" "phase" [1] false)) Demo.connected =
    (Raise no_set_variable_attribute, Demo.connected).
Proof.
  apply (userphase_never_loads_the_module Demo.connected Demo.connected Demo.default_comm
           (mk_userphase_args "phase.ko" "phase" [1] false)); [reflexivity|reflexivity|].
  simpl. discriminate.
Defined.

Lemma custom_tune_goes_on_without_the_script_witness :
  custom_tune "ramp.txt" [("motor1", AInt 1)] None [] Demo.connected =
    (Ret TuneCustom,
     answered Demo.connected 0%nat
       [Ext (os_path_exists (tune_script_path "ramp.txt"));
        Ext (gpascii_channel Demo.default_comm);
        Ext (tune_custom_tune Demo.default_comm (tune_script_path "ramp.txt")
               (tune_kwargs [("motor1", AInt 1)]))]).
Proof.
  exact (custom_tune_goes_on_without_the_script Demo.connected Demo.connected
           Demo.default_comm "ramp.txt" [("motor1", AInt 1)] true 0%nat
           (channel Demo.default_comm 0) 0%nat eq_refl eq_refl eq_refl eq_refl).
Defined.

Lemma gpascii_prints_what_came_before_the_timeout_witness :
  gpascii (Some (mk_gpascii_args ["#1"; "p"] (1 # 2))) Demo.connected =
    (Ret (),
     answered Demo.connected 0%nat
       ([Ext (gpascii_channel Demo.default_comm);
         Ext (send_line (channel Demo.default_comm 0) (PyStr.join " " ["#1"; "p"]));
         Ext (read_timeout (channel Demo.default_comm 0) (1 # 2))] ++ printed_lines ["ok"])).
Proof.
  exact (gpascii_prints_what_came_before_the_timeout Demo.connected Demo.connected
           Demo.default_comm (mk_gpascii_args ["#1"; "p"] (1 # 2))
           (channel Demo.default_comm 0) 0%nat 0%nat ["ok"] (Some (TimeoutError "timed out"))
           0%nat eq_refl eq_refl eq_refl eq_refl eq_refl).
Defined.

Lemma gather_save_prints_or_writes_witness :
  gather_save (Some (mk_gather_save_args None None (Some ","))) Demo.connected =
    (Ret (),
     answered Demo.connected 0%nat
       (gather_read_log (Some Demo.default_comm) None ["Sys.ServoCount.a"; "Motor[1].ActPos.a"] ++
        (Print <$> (table_row <$>
           ["Sys.ServoCount.a"; "Motor[1].ActPos.a"] :: [["0"; "1.5"]; ["1"; "1.6"]])))).
Proof.
  assert (Demo.settings_of None !! "gather.addr" =
          Some ["Sys.ServoCount.a"; "Motor[1].ActPos.a"]) as Hkey
    by (vm_compute; reflexivity).
  exact (gather_save_prints_or_writes Demo.connected Demo.connected
           (mk_gather_save_args None None (Some ",")) (Demo.settings_of None)
           ["Sys.ServoCount.a"; "Motor[1].ActPos.a"] 0%nat [["0"; "1.5"]; ["1"; "1.6"]] 0%nat
           eq_refl eq_refl Hkey eq_refl).
Defined.

Lemma gather_plot_needs_both_axes_witness :
  ∃ e, gather_plot (Some (mk_gather_plot_args true None None None None None 1 1))
         Demo.connected =
    (Raise e,
     answered Demo.connected 0%nat
       (gather_read_log (Some Demo.default_comm) None ["Sys.ServoCount.a"; "Motor[1].ActPos.a"] ++
        Print "Available addresses:" ::
        (Print <$> ((λ address, tab +:+ address) <$>
                      ["Sys.ServoCount.a"; "Motor[1].ActPos.a"])))).
Proof.
  assert (Demo.settings_of None !! "gather.addr" =
          Some ["Sys.ServoCount.a"; "Motor[1].ActPos.a"]) as Hkey
    by (vm_compute; reflexivity).
  exact (gather_plot_needs_both_axes Demo.connected Demo.connected
           (mk_gather_plot_args true None None None None None 1 1) (Demo.settings_of None)
           ["Sys.ServoCount.a"; "Motor[1].ActPos.a"] 0%nat [["0"; "1.5"]; ["1"; "1.6"]] 0%nat
           eq_refl eq_refl Hkey eq_refl (or_introl eq_refl)).
Defined.

Lemma status_is_silent_when_all_is_normal_witness :
  ∃ s2, mstatus 0 (Some (mk_status_args 2 (Some []) (Some ["Ready"]) false false))
          Demo.connected = (Ret (), s2) ∧
        out s2 = out Demo.connected ++ read_log Demo.default_comm ["Motor[2].AmpFault"].
Proof.
  assert (motor_normal !! short_name "Motor[2].AmpFault" = Some 0) as Hnormal
    by (vm_compute; reflexivity).
  apply (proj1 (status_is_silent_when_all_is_normal 0 Demo.connected Demo.connected
                  Demo.default_comm (mk_status_args 2 (Some []) (Some ["Ready"]) false false)
                  [] eq_refl eq_refl eq_refl eq_refl eq_refl)).
  repeat constructor.
  - apply not_elem_of_nil.
  - exists 0. split; [exact Hnormal|]. intros w. exists "0", (S w). split; reflexivity.
Defined.


Lemma status_reads_what_is_not_ignored_witness :
  "Motor[1].Ready" ∈ status_variables motor_status "Motor[1]"
                        (mk_status_args 1 (Some ["Ready"]) (Some ["Ready"]) false false) ↔
  ∃ field, "Motor[1].Ready" = "Motor[1]" +:+ "." +:+ field ∧
           ((field ∈ motor_status ∧ field ∉ ["Ready"]) ∨ field ∈ ["Ready"]).
Proof.
  apply (status_reads_what_is_not_ignored motor_status "Motor[1]"
           (mk_status_args 1 (Some ["Ready"]) (Some ["Ready"]) false false) "Motor[1].Ready").
  refine (@bool_decide_unpack _ (NoDup_dec _) _). vm_compute. exact I.
Defined.

Lemma enc_filter_without_cutoff_clears_both_terms_witness :
  enc_filter (Some (mk_enc_filter_args 1 0 (7 # 10))) Demo.connected =
    (Ret (),
     answered Demo.connected 3%nat
       [Ext (get_variable_float (comm_gpascii Demo.default_comm) "Sys.ServoPeriod");
        Ext (set_variable (comm_gpascii Demo.default_comm) "EncTable[1].index1" (AInt 0));
        Ext (get_variable (comm_gpascii Demo.default_comm) "EncTable[1].index1");
        Print "EncTable[1].index1 = 0";
        Ext (set_variable (comm_gpascii Demo.default_comm) "EncTable[1].index2" (AInt 0));
        Ext (get_variable (comm_gpascii Demo.default_comm) "EncTable[1].index2");
        Print "EncTable[1].index2 = 0"]).
Proof.
  exact (enc_filter_without_cutoff_clears_both_terms Demo.connected Demo.connected
           Demo.default_comm (mk_enc_filter_args 1 0 (7 # 10))
           (1 # 2) 1%nat "0" 1%nat "0" 2%nat "0" 2%nat "0" 3%nat
           eq_refl eq_refl eq_refl eq_refl eq_refl eq_refl eq_refl eq_refl).
Defined.

End BenchMore.

Section BenchFaulty.
#[local] Existing Instance Faulty.env.

Lemma gather_address_list_witness :
  Forall (λ a, PyStr.endswith a ".a" = true) ["Sys.ServoCount.a"] ∧
  "Sys.ServoCount.a" ∈ ["Sys.ServoCount.a"] ∧
  ∃ s1 checked w,
    check_comm Faulty.connected_with_completer = (Ret true, s1) ∧
    addresses_checked (self.completer (this s1)) (world s1) ["ServoCount"] checked w ∧
    let fixed := add_suffix <$> checked in
    ["Sys.ServoCount.a"] =
      if bool_decide ("Sys.ServoCount.a" ∈ fixed) then fixed
      else "Sys.ServoCount.a" :: fixed.
Proof.
  apply (gather_address_list Faulty.connected_with_completer
           (mk_gather_args 1 1 ["ServoCount"])
           (Ext (gather_and_plot Demo.default_comm ["Sys.ServoCount.a"] 1 1))).
  - vm_compute. apply list_elem_of_further, list_elem_of_here.
  - reflexivity.
Defined.

Lemma prog_run_gives_up_when_the_start_fails_witness :
  prog_run 5 (Some (mk_prog_run_args 0 1 [])) Faulty.connected =
    (Ret (),
     answered Faulty.connected 0%nat
       ([Ext (gpascii_channel Demo.default_comm);
         Ext (program (channel Demo.default_comm 0) 0 1 true false);
         Print "COORD 0 NOT READY TO RUN"] ++
        [Print "Are all motors in the coordinate system in closed loop?"])).
Proof.
  exact (prog_run_gives_up_when_the_start_fails 5 Faulty.connected Faulty.connected
           Demo.default_comm (mk_prog_run_args 0 1 []) (channel Demo.default_comm 0) 0%nat
           "COORD 0 NOT READY TO RUN" 0%nat eq_refl eq_refl eq_refl eq_refl).
Defined.

Lemma open_completer_db_gives_up_on_a_broken_file_witness :
  open_completer_db Faulty.connected =
    (Ret (),
     answered Faulty.connected 0%nat
       (channel_log (Some Demo.default_comm) ++
        [Ext (os_path_exists "ppmac.db");
         Ext (start_completer_from_db "ppmac.db" (Some (channel Demo.default_comm 0)));
         Print "Unable to load current db file: ppmac.db (KeyError) 'version'";
         Print "Remove it to try loading from the IDE machine's MySql"])).
Proof.
  apply (open_completer_db_gives_up_on_a_broken_file Faulty.connected
           (Some (channel Demo.default_comm 0)) 0%nat 0%nat
           (KeyError "version") 0%nat).
  - exists (channel Demo.default_comm 0). split; reflexivity.
  - reflexivity.
  - reflexivity.
  - reflexivity.
Defined.

Lemma faulty_make_fails : make_fails Demo.default_comm true.
Proof. intros w lines w' [= <- _]. reflexivity. Qed.

Lemma build_utility_runs_nothing_after_an_error_witness :
  extends (λ ev, runs_make_at_most ev = true) Faulty.connected
    (build_utility Demo.default_comm ["main.c"] "main" "/var/ftp/usrflash" true true
       (Some ["--version"]) Faulty.connected).2.
Proof.
  apply (proj1 (build_utility_runs_nothing_after_an_error Demo.default_comm ["main.c"] "main"
                  "/var/ftp/usrflash" true true (Some ["--version"]) Faulty.connected
                  faulty_make_fails)).
Defined.

Lemma tune_plot_without_data_plots_nothing_witness :
  tune_plot (Some (mk_tune_plot_args 1 None)) Faulty.connected =
    (Ret (),
     answered Faulty.connected 0%nat
       (gather_read_log (Some Demo.default_comm) None ["Sys.ServoCount.a"; "Motor[1].ActPos.a"] ++
        [Print "No data gathered?"])).
Proof.
  assert (Demo.settings_of None !! "gather.addr" =
          Some ["Sys.ServoCount.a"; "Motor[1].ActPos.a"]) as Hkey
    by (vm_compute; reflexivity).
  exact (tune_plot_without_data_plots_nothing Faulty.connected Faulty.connected
           (mk_tune_plot_args 1 None) (Demo.settings_of None)
           ["Sys.ServoCount.a"; "Motor[1].ActPos.a"] 0%nat [] 0%nat
           eq_refl eq_refl Hkey eq_refl (or_intror eq_refl)).
Defined.

Lemma tune_range_plots_only_complete_results_witness :
  tune_range (Some Demo.tune_range_with_values) Faulty.connected =
    (Ret (),
     answered Faulty.connected 0%nat
       [Ext (os_path_exists (tune_script_path "ramp.txt"));
        Ext (gpascii_channel Demo.default_comm);
        Ext (tune_tune_range (channel Demo.default_comm 0) (tune_script_path "ramp.txt")
               "Kp" [1%Q] (tune_kwargs (tune_range_attrs Demo.tune_range_with_values)))]).
Proof.
  apply (tune_range_plots_only_complete_results Faulty.connected Faulty.connected
           Demo.default_comm Demo.tune_range_with_values [1%Q] true 0%nat
           (channel Demo.default_comm 0) 0%nat None [] 0%nat);
    try reflexivity.
  simpl. discriminate.
Defined.



End BenchFaulty.
